(** * Flam_canvas: the room-scoped operation log and its undo/redo/broadcast
    protocol, embedded from [src/server/drawing-state.js],
    [src/server/rooms.js], [src/server/server.js] and the client replay of
    [canvas.js]. *)

From Stdlib Require Import ZArith Lia.
From stdpp Require Import base option list gmap strings pretty functions sorting.

(** ** JavaScript array helpers *)

(** [Array.prototype.slice(0, e)]: a negative end counts from the end of the
    array, and the end is clamped to [0 .. length]. *)
Definition slice0 {A : Type} (l : list A) (e : Z) : list A :=
  let len := Z.of_nat (length l) in
  let final := if (e <? 0)%Z then Z.max (len + e) 0 else Z.min e len in
  take (Z.to_nat final) l.

(** ** [drawing-state.js]: class DrawingState *)

Module DrawingState.
Section Log.
Local Open Scope Z_scope.
Context {A : Type}.

Record t : Type := mk { operations : list A; currentIndex : Z }.

(** The object returned by [undo] and [redo]: [{success: true,
    currentIndex, operations}] or [{success: false}]. *)
Inductive Result : Type :=
| Success (currentIndex : Z) (operations : list A)
| Failure.

(** constructor *)
Definition new : t := {| operations := []; currentIndex := -1 |}.

Definition getVisibleOperations (st : t) : list A :=
  slice0 (operations st) (currentIndex st + 1).

Definition getAllOperations (st : t) : list A := operations st.

(** Returns the updated log and the value of [this.currentIndex] that the
    method returns. *)
Definition addOperation (st : t) (operation : A) : t * Z :=
  let ops1 := slice0 (operations st) (currentIndex st + 1) in
  let ops2 := ops1 ++ [operation] in
  let idx := currentIndex st + 1 in
  ({| operations := ops2; currentIndex := idx |}, idx).

Definition undo (st : t) : t * Result :=
  if 0 <=? currentIndex st then
    let st' := {| operations := operations st;
                  currentIndex := currentIndex st - 1 |} in
    (st', Success (currentIndex st') (getVisibleOperations st'))
  else (st, Failure).

Definition redo (st : t) : t * Result :=
  if currentIndex st <? Z.of_nat (length (operations st)) - 1 then
    let st' := {| operations := operations st;
                  currentIndex := currentIndex st + 1 |} in
    (st', Success (currentIndex st') (getVisibleOperations st'))
  else (st, Failure).

Definition clear (st : t) : t := {| operations := []; currentIndex := -1 |}.

(** The four mutating methods, as a command language over one log. *)
Inductive LogOp : Type :=
| OpCommit (operation : A)
| OpUndo
| OpRedo
| OpClear.

Definition step (st : t) (o : LogOp) : t :=
  match o with
  | OpCommit operation => fst (addOperation st operation)
  | OpUndo => fst (undo st)
  | OpRedo => fst (redo st)
  | OpClear => clear st
  end.

(** Runs the commands left to right. *)
Definition run (os : list LogOp) (st : t) : t := foldl step st os.

(** [m] calls of [undo] in a row, all of which must report success. *)
Fixpoint undos (m : nat) (st : t) : option t :=
  match m with
  | O => Some st
  | S m' =>
      match undo st with
      | (st', Success _ _) => undos m' st'
      | (_, Failure) => None
      end
  end.

Fixpoint redos (m : nat) (st : t) : option t :=
  match m with
  | O => Some st
  | S m' =>
      match redo st with
      | (st', Success _ _) => redos m' st'
      | (_, Failure) => None
      end
  end.

(** The data-model invariant: [-1 <= currentIndex <= length - 1]. *)
Definition log_inv (st : t) : Prop :=
  -1 <= currentIndex st <= Z.of_nat (length (operations st)) - 1.

(** The same bound in the form [-1 <= currentIndex < max(length, 1)]. *)
Definition cursor_bound (st : t) : Prop :=
  -1 <= currentIndex st
  /\ currentIndex st < Z.max (Z.of_nat (length (operations st))) 1.

End Log.
Global Arguments t : clear implicits.
Global Arguments Result : clear implicits.
Global Arguments LogOp : clear implicits.
End DrawingState.

(** ** JavaScript [Map] with insertion-ordered iteration

    [room.users] and the client's [paths] are iterated with [forEach], so the
    order of the entries matters: an association list in insertion order. *)

Section JsMap.
Context {K V : Type} `{EqDecision K}.

Fixpoint jsmap_get (m : list (K * V)) (k : K) : option V :=
  match m with
  | [] => None
  | (k', v) :: m' => if decide (k' = k) then Some v else jsmap_get m' k
  end.

(** [set] overwrites in place when the key is present, else appends. *)
Fixpoint jsmap_set (m : list (K * V)) (k : K) (v : V) : list (K * V) :=
  match m with
  | [] => [(k, v)]
  | (k', v') :: m' =>
      if decide (k' = k) then (k', v) :: m' else (k', v') :: jsmap_set m' k v
  end.

Fixpoint jsmap_delete (m : list (K * V)) (k : K) : list (K * V) :=
  match m with
  | [] => []
  | (k', v') :: m' =>
      if decide (k' = k) then jsmap_delete m' k else (k', v') :: jsmap_delete m' k
  end.
End JsMap.

(** ** Wire data *)

(** A WebSocket connection handle ([ws]). *)
Definition Conn : Type := nat.

(** [ws.readyState === 1] is OPEN; 3 is CLOSED. *)
Definition OPEN : Z := 1.
Definition CLOSED : Z := 3.

(** The three drawing message types, ['draw-start'], ['draw-move'] and
    ['draw-end']. *)
Inductive DrawKind : Type := DrawStart | DrawMove | DrawEnd.

Global Instance DrawKind_eq_dec : EqDecision DrawKind.
Proof. solve_decision. Defined.

(** The [operation] object built by the draw case of the message handler.
    Coordinates and widths are JSON numbers, taken here as integers. *)
Record Operation : Type := mkOperation {
  op_type : DrawKind;
  op_userId : option nat;
  op_tool : string;
  op_color : string;
  op_lineWidth : Z;
  op_x : Z;
  op_y : Z;
  op_timestamp : Z;
  op_operationId : option Z
}.

(** The point sequence an operation record carries: its single [x], [y]. *)
Definition op_points (o : Operation) : list (Z * Z) := [(op_x o, op_y o)].

Definition set_operationId (o : Operation) (i : Z) : Operation :=
  {| op_type := op_type o; op_userId := op_userId o; op_tool := op_tool o;
     op_color := op_color o; op_lineWidth := op_lineWidth o;
     op_x := op_x o; op_y := op_y o; op_timestamp := op_timestamp o;
     op_operationId := Some i |}.

(** An entry of [getUserList]. *)
Record UserInfo : Type := mkUserInfo {
  ui_id : nat; ui_username : string; ui_color : string
}.

(** Parsed client messages. [Malformed] stands for a body on which
    [JSON.parse] or the read of [message.type] throws; [OtherMsg] for a
    [type] no [case] matches. Room keys and names are strings when present. *)
Inductive ClientMsg : Type :=
| Malformed
| Join (roomId : option string) (username : option string)
| Draw (kind : DrawKind) (tool color : string) (lineWidth x y : Z)
| CursorMove (x y : Z)
| Undo
| Redo
| Clear
| OtherMsg.

Inductive ServerMsg : Type :=
| Joined (userId : nat) (color username : string)
         (operations : list Operation) (users : list UserInfo)
| UserJoined (user : UserInfo) (users : list UserInfo)
| DrawMsg (operation : Operation)
| CursorUpdate (userId : option nat) (x y : Z)
| UndoMsg (currentIndex : Z) (operations : list Operation)
| RedoMsg (currentIndex : Z) (operations : list Operation)
| ClearMsg
| UserLeft (userId : nat) (users : list UserInfo)
| ErrorMsg (message : string).

(** One completed call [ws.send(JSON.stringify(msg))] on connection [ws]. *)
Definition Delivery : Type := (Conn * ServerMsg)%type.

(** ** Sending: output trace and exceptions

    A computation yields the sends it completed, in order, and either a value
    or [None] when an exception was thrown. *)
Definition Eff (A : Type) : Type := (list Delivery * option A)%type.

Definition eff_ret {A} (a : A) : Eff A := ([], Some a).

Definition eff_bind {A B} (m : Eff A) (f : A → Eff B) : Eff B :=
  match m with
  | (o, Some a) => let '(o', r) := f a in (o ++ o', r)
  | (o, None) => (o, None)
  end.

(** [try { m } catch (error) { h }] *)
Definition try_catch {A} (m : Eff A) (h : Eff A) : Eff A :=
  match m with
  | (o, Some a) => (o, Some a)
  | (o, None) => let '(o', r) := h in (o ++ o', r)
  end.

Notation "m >>; k" := (eff_bind m (fun _ => k))
  (at level 100, k at level 200, right associativity).

(** What the handler cannot decide by itself while one event is processed:
    which connections make [send] throw. *)
Definition ws_send (sendRaises : Conn → bool) (ws : Conn) (msg : ServerMsg)
  : Eff unit :=
  if sendRaises ws then ([], None) else ([(ws, msg)], Some tt).

(** ** [rooms.js]: class RoomManager *)

Record User : Type := mkUser {
  user_id : nat;
  user_username : string;
  user_color : string;
  user_ws : Conn;
  user_cursor : option (Z * Z)
}.

Record Room : Type := mkRoom {
  room_id : string;
  users : list (nat * User);
  drawingState : DrawingState.t Operation;
  nextUserId : nat
}.

Module RoomManager.

Record t : Type := mk { rooms : gmap string Room; colorIndex : nat }.

Definition userColors : list string :=
  ["#FF6B6B"; "#4ECDC4"; "#45B7D1"; "#FFA07A";
   "#98D8C8"; "#F7DC6F"; "#BB8FCE"; "#85C1E2"].

(** constructor *)
Definition new : t := {| rooms := ∅; colorIndex := 0 |}.

Definition getOrCreateRoom (mgr : t) (roomId : string) : t * Room :=
  match rooms mgr !! roomId with
  | Some room => (mgr, room)
  | None =>
      let room := {| room_id := roomId; users := [];
                     drawingState := DrawingState.new; nextUserId := 1 |} in
      ({| rooms := <[roomId := room]> (rooms mgr);
          colorIndex := colorIndex mgr |}, room)
  end.

(** [username || `User ${userId}`]: a missing or empty name is falsy. *)
Definition username_or_default (username : option string) (userId : nat)
  : string :=
  match username with
  | Some (String a s) => String a s
  | _ => "User " +:+ pretty userId
  end.

(** The room is one shared object: the result carries the registry with
    the room as mutated, and that same mutated room. The palette index is
    always in range, so the lookup default is never used. *)
Definition addUser (mgr : t) (roomId : string) (ws : Conn)
    (username : option string) : t * (User * Room) :=
  let '(mgr1, room) := getOrCreateRoom mgr roomId in
  let userId := nextUserId room in
  let color :=
    default "" (userColors !! (colorIndex mgr1 mod length userColors)%nat) in
  let user := {| user_id := userId;
                 user_username := username_or_default username userId;
                 user_color := color; user_ws := ws; user_cursor := None |} in
  let room' := {| room_id := room_id room;
                  users := jsmap_set (users room) userId user;
                  drawingState := drawingState room;
                  nextUserId := S userId |} in
  ({| rooms := <[roomId := room']> (rooms mgr1);
      colorIndex := S (colorIndex mgr1) |}, (user, room')).

Definition removeUser (mgr : t) (roomId : string) (userId : nat)
  : t * option Room :=
  match rooms mgr !! roomId with
  | None => (mgr, None)
  | Some room =>
      let room' := {| room_id := room_id room;
                      users := jsmap_delete (users room) userId;
                      drawingState := drawingState room;
                      nextUserId := nextUserId room |} in
      if decide (length (users room') = 0%nat) then
        ({| rooms := delete roomId (rooms mgr);
            colorIndex := colorIndex mgr |}, None)
      else
        ({| rooms := <[roomId := room']> (rooms mgr);
            colorIndex := colorIndex mgr |}, Some room')
  end.

Definition getRoom (mgr : t) (roomId : string) : option Room :=
  rooms mgr !! roomId.

Definition updateUserCursor (mgr : t) (roomId : string) (userId : nat)
    (cursor : Z * Z) : t * bool :=
  match rooms mgr !! roomId with
  | None => (mgr, false)
  | Some room =>
      match jsmap_get (users room) userId with
      | None => (mgr, false)
      | Some user =>
          let user' := {| user_id := user_id user;
                          user_username := user_username user;
                          user_color := user_color user;
                          user_ws := user_ws user;
                          user_cursor := Some cursor |} in
          let room' := {| room_id := room_id room;
                          users := jsmap_set (users room) userId user';
                          drawingState := drawingState room;
                          nextUserId := nextUserId room |} in
          ({| rooms := <[roomId := room']> (rooms mgr);
              colorIndex := colorIndex mgr |}, true)
      end
  end.

Definition getUserList (room : Room) : list UserInfo :=
  map (fun '(_, u) => {| ui_id := user_id u; ui_username := user_username u;
                         ui_color := user_color u |}) (users room).

(** [userId !== excludeUserId], with [null] for no exclusion. *)
Definition not_excluded (userId : nat) (excludeUserId : option nat) : bool :=
  match excludeUserId with
  | None => true
  | Some e => negb (userId =? e)%nat
  end.

(** The body of [room.users.forEach]: entries in insertion order; a throwing
    [send] leaves the loop. *)
Fixpoint broadcast_loop (readyState : Conn → Z) (sendRaises : Conn → bool)
    (us : list (nat * User)) (message : ServerMsg)
    (excludeUserId : option nat) : Eff unit :=
  match us with
  | [] => eff_ret tt
  | (userId, user) :: rest =>
      if not_excluded userId excludeUserId
         && (readyState (user_ws user) =? 1)%Z
      then ws_send sendRaises (user_ws user) message
           >>; broadcast_loop readyState sendRaises rest message excludeUserId
      else broadcast_loop readyState sendRaises rest message excludeUserId
  end.

Definition broadcastToRoom (readyState : Conn → Z) (sendRaises : Conn → bool)
    (mgr : t) (roomId : string) (message : ServerMsg)
    (excludeUserId : option nat) : Eff unit :=
  match rooms mgr !! roomId with
  | None => eff_ret tt
  | Some room =>
      broadcast_loop readyState sendRaises (users room) message excludeUserId
  end.

End RoomManager.

(** ** [server.js]: the per-connection message and close handlers *)

Module Server.

(** The closure variables of one connection handler. *)
Record Session : Type := mkSession {
  currentUserId : option nat;
  currentRoomId : option string
}.

(** The process state: the single [roomManager], the closure variables of
    every connection, and each socket's [readyState]. *)
Record State : Type := mkState {
  roomManager : RoomManager.t;
  sessions : Conn → Session;
  readyState : Conn → Z
}.

Definition init : State :=
  {| roomManager := RoomManager.new;
     sessions := fun _ => {| currentUserId := None; currentRoomId := None |};
     readyState := fun _ => OPEN |}.

(** [roomManager.getRoom(currentRoomId)]; [null] is no key of the map. *)
Definition current_room (s : State) (ws : Conn) : option Room :=
  match currentRoomId (sessions s ws) with
  | None => None
  | Some r => RoomManager.getRoom (roomManager s) r
  end.

(** [roomManager.broadcastToRoom(currentRoomId, ...)] *)
Definition broadcast (s : State) (sendRaises : Conn → bool)
    (roomId : option string) (message : ServerMsg)
    (excludeUserId : option nat) : Eff unit :=
  match roomId with
  | None => eff_ret tt
  | Some r =>
      RoomManager.broadcastToRoom (readyState s) sendRaises (roomManager s)
        r message excludeUserId
  end.

(** A write to [room.drawingState], seen through the registry. *)
Definition set_drawingState (s : State) (roomId : string) (room : Room)
    (ds : DrawingState.t Operation) : State :=
  let room' := {| room_id := room_id room; users := users room;
                  drawingState := ds; nextUserId := nextUserId room |} in
  {| roomManager :=
       {| RoomManager.rooms := <[roomId := room']>
                                 (RoomManager.rooms (roomManager s));
          RoomManager.colorIndex := RoomManager.colorIndex (roomManager s) |};
     sessions := sessions s;
     readyState := readyState s |}.

Definition set_roomManager (s : State) (mgr : RoomManager.t) : State :=
  {| roomManager := mgr; sessions := sessions s; readyState := readyState s |}.

(** [message.roomId || 'default'] *)
Definition roomId_or_default (roomId : option string) : string :=
  match roomId with
  | Some (String a r) => String a r
  | _ => "default"
  end.

Definition error_reply : ServerMsg := ErrorMsg "Failed to process message".

(** [ws.on('message', ...)]. [now] is the value of [Date.now()]. The state
    writes of every case come before its first [send], so they stay when a
    [send] throws; the effect is the body of the [try] under its [catch]. *)
Definition on_message (sendRaises : Conn → bool) (now : Z) (ws : Conn)
    (data : ClientMsg) (s : State) : State * Eff unit :=
  let catch (body : Eff unit) : Eff unit :=
    try_catch body (ws_send sendRaises ws error_reply) in
  let sess := sessions s ws in
  match data with
  | Malformed => (s, catch ([], None))
  | Join roomId username =>
      let roomId' := roomId_or_default roomId in
      let '(mgr, (user, room)) :=
        RoomManager.addUser (roomManager s) roomId' ws username in
      let s' := {| roomManager := mgr;
                   sessions := <[ws := {| currentUserId := Some (user_id user);
                                          currentRoomId := Some roomId' |}]>
                                 (sessions s);
                   readyState := readyState s |} in
      let info := {| ui_id := user_id user; ui_username := user_username user;
                     ui_color := user_color user |} in
      (s', catch (
         ws_send sendRaises ws
           (Joined (user_id user) (user_color user) (user_username user)
              (DrawingState.getVisibleOperations (drawingState room))
              (RoomManager.getUserList room))
         >>; broadcast s' sendRaises (Some roomId')
               (UserJoined info (RoomManager.getUserList room))
               (Some (user_id user))))
  | Draw kind tool color lineWidth x y =>
      match currentRoomId sess, current_room s ws with
      | Some r, Some room =>
          let operation :=
            {| op_type := kind; op_userId := currentUserId sess;
               op_tool := tool; op_color := color; op_lineWidth := lineWidth;
               op_x := x; op_y := y; op_timestamp := now;
               op_operationId := None |} in
          match kind with
          | DrawEnd =>
              let '(ds, opIndex) :=
                DrawingState.addOperation (drawingState room) operation in
              (* [operation.operationId = opIndex] writes to the object that
                 was pushed, the last element of the log *)
              let operation' := set_operationId operation opIndex in
              let ops := DrawingState.operations ds in
              let ds' :=
                {| DrawingState.operations :=
                     <[Nat.pred (length ops) := operation']> ops;
                   DrawingState.currentIndex := DrawingState.currentIndex ds |} in
              let s' := set_drawingState s r room ds' in
              (s', catch (broadcast s' sendRaises (Some r) (DrawMsg operation')
                            (currentUserId sess)))
          | _ =>
              (s, catch (broadcast s sendRaises (Some r) (DrawMsg operation)
                           (currentUserId sess)))
          end
      | _, _ => (s, eff_ret tt)
      end
  | CursorMove x y =>
      let mgr :=
        match currentRoomId sess, currentUserId sess with
        | Some r, Some u =>
            fst (RoomManager.updateUserCursor (roomManager s) r u (x, y))
        | _, _ => roomManager s
        end in
      let s' := set_roomManager s mgr in
      (s', catch (broadcast s' sendRaises (currentRoomId sess)
                    (CursorUpdate (currentUserId sess) x y)
                    (currentUserId sess)))
  | Undo =>
      match currentRoomId sess, current_room s ws with
      | Some r, Some room =>
          match DrawingState.undo (drawingState room) with
          | (ds, DrawingState.Success idx ops) =>
              let s' := set_drawingState s r room ds in
              (s', catch (broadcast s' sendRaises (Some r) (UndoMsg idx ops) None
                          >>; ws_send sendRaises ws (UndoMsg idx ops)))
          | (_, DrawingState.Failure) => (s, eff_ret tt)
          end
      | _, _ => (s, eff_ret tt)
      end
  | Redo =>
      match currentRoomId sess, current_room s ws with
      | Some r, Some room =>
          match DrawingState.redo (drawingState room) with
          | (ds, DrawingState.Success idx ops) =>
              let s' := set_drawingState s r room ds in
              (s', catch (broadcast s' sendRaises (Some r) (RedoMsg idx ops) None
                          >>; ws_send sendRaises ws (RedoMsg idx ops)))
          | (_, DrawingState.Failure) => (s, eff_ret tt)
          end
      | _, _ => (s, eff_ret tt)
      end
  | Clear =>
      match currentRoomId sess, current_room s ws with
      | Some r, Some room =>
          let s' := set_drawingState s r room
                      (DrawingState.clear (drawingState room)) in
          (s', catch (broadcast s' sendRaises (Some r) ClearMsg None
                      >>; ws_send sendRaises ws ClearMsg))
      | _, _ => (s, eff_ret tt)
      end
  | OtherMsg => (s, eff_ret tt)
  end.

(** [currentRoomId && currentUserId]: the empty string, [0] and [null] are
    falsy. *)
Definition joined_session (sess : Session) : option (string * nat) :=
  match currentRoomId sess, currentUserId sess with
  | Some (String a r), Some (S u) => Some (String a r, S u)
  | _, _ => None
  end.

(** [ws.on('close', ...)]; there is no [try] around it. *)
Definition on_close (sendRaises : Conn → bool) (ws : Conn) (s : State)
  : State * Eff unit :=
  match joined_session (sessions s ws) with
  | Some (r, u) =>
      let '(mgr, room) := RoomManager.removeUser (roomManager s) r u in
      let s' := set_roomManager s mgr in
      match room with
      | Some room' =>
          (s', broadcast s' sendRaises (Some r)
                 (UserLeft u (RoomManager.getUserList room')) None)
      | None => (s', eff_ret tt)
      end
  | None => (s, eff_ret tt)
  end.

(** What reaches the server: a message on a connection, a socket that starts
    its closing handshake ([readyState] 2), and the close of a socket, at
    which its [readyState] is CLOSED and the close handler runs. *)
Inductive Event : Type :=
| EvMessage (ws : Conn) (data : ClientMsg) (now : Z) (sendRaises : Conn → bool)
| EvClosing (ws : Conn)
| EvClose (ws : Conn) (sendRaises : Conn → bool).

Definition event_conn (e : Event) : Conn :=
  match e with
  | EvMessage ws _ _ _ => ws
  | EvClosing ws => ws
  | EvClose ws _ => ws
  end.

Definition set_readyState (s : State) (ws : Conn) (z : Z) : State :=
  {| roomManager := roomManager s; sessions := sessions s;
     readyState := <[ws := z]> (readyState s) |}.

Definition handle_event (s : State) (e : Event) : State * Eff unit :=
  match e with
  | EvMessage ws data now sendRaises => on_message sendRaises now ws data s
  | EvClosing ws => (set_readyState s ws 2, eff_ret tt)
  | EvClose ws sendRaises => on_close sendRaises ws (set_readyState s ws CLOSED)
  end.

(** A closed socket emits nothing further. *)
Definition enabled (s : State) (e : Event) : bool :=
  negb (readyState s (event_conn e) =? CLOSED)%Z.

(** Runs a trace, collecting the completed sends; [None] when the trace has
    an event on a socket that is already closed. *)
Fixpoint run_events (s : State) (es : list Event)
  : option (State * list Delivery) :=
  match es with
  | [] => Some (s, [])
  | e :: es' =>
      if enabled s e then
        let '(s', (out, _)) := handle_event s e in
        match run_events s' es' with
        | Some (s'', out') => Some (s'', out ++ out')
        | None => None
        end
      else None
  end.

Inductive reachable : State → Prop :=
| reachable_init : reachable init
| reachable_step s e :
    reachable s → enabled s e = true → reachable (fst (handle_event s e)).

(** The sends of a trace that went to connection [ws]. *)
Definition sent_to (ws : Conn) (out : list Delivery) : list ServerMsg :=
  map snd (filter (fun d => fst d = ws) out).

End Server.

(** ** [canvas.js]: replay of an operations list by the client *)

Module CanvasDrawing.

Record Path : Type := mkPath {
  points : list (Z * Z);
  tool : string;
  color : string;
  lineWidth : Z
}.

(** The key [`${op.userId}-${op.timestamp}`], as the pair it is built
    from. *)
Definition Key : Type := (option nat * Z)%type.

Definition push_point (p : Path) (pt : Z * Z) : Path :=
  {| points := points p ++ [pt]; tool := tool p; color := color p;
     lineWidth := lineWidth p |}.

(** [drawPath] strokes one path, and nothing for an empty one. *)
Definition drawPath (p : Path) : list Path :=
  match points p with
  | [] => []
  | _ => [p]
  end.

(** One round of [operations.forEach]: the [paths] map and the paths
    stroked so far. *)
Definition redraw_step (acc : list (Key * Path) * list Path) (op : Operation)
  : list (Key * Path) * list Path :=
  let '(paths, drawn) := acc in
  let key : Key := (op_userId op, op_timestamp op) in
  match op_type op with
  | DrawStart =>
      (jsmap_set paths key
         {| points := [(op_x op, op_y op)]; tool := op_tool op;
            color := op_color op; lineWidth := op_lineWidth op |}, drawn)
  | DrawMove =>
      match jsmap_get paths key with
      | Some path =>
          (jsmap_set paths key (push_point path (op_x op, op_y op)), drawn)
      | None => (paths, drawn)
      end
  | DrawEnd =>
      match jsmap_get paths key with
      | Some path =>
          let path' := push_point path (op_x op, op_y op) in
          (jsmap_delete paths key, drawn ++ drawPath path')
      | None => (paths, drawn)
      end
  end.

(** The paths stroked on the cleared canvas, in order. *)
Definition redrawFromOperations (operations : list Operation) : list Path :=
  let '(paths, drawn) := foldl redraw_step ([], []) operations in
  drawn ++ flat_map (fun '(_, path) =>
                       if (0 <? length (points path))%nat then drawPath path
                       else []) paths.

End CanvasDrawing.

(** ** Vocabulary of the delivery properties *)

(** The test of the [forEach] callback in [broadcastToRoom]. *)
Definition eligible (readyState : Conn → Z) (excludeUserId : option nat)
    (e : nat * User) : bool :=
  RoomManager.not_excluded (fst e) excludeUserId
  && (readyState (user_ws (snd e)) =? 1)%Z.

(** The connections a broadcast addresses, in the order of the room's map. *)
Definition broadcast_targets (readyState : Conn → Z) (us : list (nat * User))
    (excludeUserId : option nat) : list Conn :=
  map (fun e => user_ws (snd e)) (List.filter (eligible readyState excludeUserId) us).

(** The connections served before the first one whose [send] throws. *)
Fixpoint sends_before_raise (sendRaises : Conn → bool) (cs : list Conn)
  : list Conn :=
  match cs with
  | [] => []
  | c :: cs' => if sendRaises c then [] else c :: sends_before_raise sendRaises cs'
  end.



(** ** States used as examples *)

(** One participant of room ["r"], on connection 0. *)
Definition one_joined : Server.State :=
  fst (Server.on_message (fun _ => false) 100 0%nat
         (Join (Some "r") (Some "ann")) Server.init).

(** Two participants of room ["r"], on connections 0 and 1. *)
Definition two_joined : Server.State :=
  fst (Server.on_message (fun _ => false) 101 1%nat
         (Join (Some "r") (Some "bob")) one_joined).


(** The client messages of one gesture: draw-start at [begin], a draw-move
    at each point of [moves], draw-end at [finish], each with the value of
    [Date.now()] at its arrival. *)
Definition gesture (tool color : string) (lineWidth : Z)
    (begin : Z * Z * Z) (moves : list (Z * Z * Z)) (finish : Z * Z * Z)
  : list (ClientMsg * Z) :=
  let msg kind (p : Z * Z * Z) :=
    (Draw kind tool color lineWidth (fst (fst p)) (snd (fst p)), snd p) in
  msg DrawStart begin :: map (msg DrawMove) moves ++ [msg DrawEnd finish].

(** The state after connection [ws] sent the messages, in order. *)
Definition feed (sendRaises : Conn → bool) (ws : Conn) (s : Server.State)
    (msgs : list (ClientMsg * Z)) : Server.State :=
  foldl (fun s m => fst (Server.on_message sendRaises (snd m) ws (fst m) s)) s msgs.

(** Participant A on connection 0 joined room ["r1"] and drew one stroke:
    begin at (0,0), continue at (5,5), finish at (10,10), brush, black,
    width 3. *)
Definition A_drew : Server.State :=
  let s := fst (Server.on_message (fun _ => false) 100 0%nat
                  (Join (Some "r1") (Some "A")) Server.init) in
  feed (fun _ => false) 0%nat s
    (gesture "brush" "#000000" 3 (0, 0, 101) [(5, 5, 102)] (10, 10, 103))%Z.

(** The one record the log holds after that gesture. *)
Definition A_stroke : Operation :=
  {| op_type := DrawEnd; op_userId := Some 1%nat; op_tool := "brush";
     op_color := "#000000"; op_lineWidth := 3; op_x := 10; op_y := 10;
     op_timestamp := 103; op_operationId := Some 0%Z |}.

(** Participant B on connection 1 then joined ["r1"]. *)
Definition B_joined : Server.State :=
  fst (Server.on_message (fun _ => false) 104 1%nat
         (Join (Some "r1") (Some "B")) A_drew).

Definition A_undid : Server.State :=
  fst (Server.on_message (fun _ => false) 105 0%nat Undo B_joined).

(** ** Vocabulary of the membership properties *)

(** Room [r] exists and its participant map has an entry [u] whose
    connection handle is [ws]. *)
Definition has_entry (mgr : RoomManager.t) (r : string) (u : nat) (ws : Conn)
  : Prop :=
  ∃ room user, RoomManager.rooms mgr !! r = Some room
               ∧ jsmap_get (users room) u = Some user
               ∧ user_ws user = ws.

(** Every participant id of a room is below the room's [nextUserId]. *)
Definition ids_bounded (mgr : RoomManager.t) : Prop :=
  ∀ r room u user,
    RoomManager.rooms mgr !! r = Some room →
    jsmap_get (users room) u = Some user → (u < nextUserId room)%nat.

(** Every room's id counter is at least 1, so every id handed out is
    truthy. *)
Definition counters_positive (mgr : RoomManager.t) : Prop :=
  ∀ r room, RoomManager.rooms mgr !! r = Some room → (1 ≤ nextUserId room)%nat.

(** Every room of [mgr'] is a room of [mgr] with the same id counter and no
    participant id that [mgr] does not have. *)
Definition mgr_shrinks (mgr mgr' : RoomManager.t) : Prop :=
  ∀ r room', RoomManager.rooms mgr' !! r = Some room' →
    ∃ room, RoomManager.rooms mgr !! r = Some room
            ∧ nextUserId room' = nextUserId room
            ∧ ∀ u, is_Some (jsmap_get (users room') u) →
                   is_Some (jsmap_get (users room) u).

(** The closure variables of connection [c] name room [r] and id [u]. *)
Definition in_session (s : Server.State) (c : Conn) (r : string) (u : nat)
  : Prop :=
  Server.currentRoomId (Server.sessions s c) = Some r
  ∧ Server.currentUserId (Server.sessions s c) = Some u.

(** What every reachable server state satisfies: ids are bounded, and the
    membership held by a connection that has not closed is registered in its
    room under that very connection. *)
Definition server_inv (s : Server.State) : Prop :=
  ids_bounded (Server.roomManager s)
  ∧ counters_positive (Server.roomManager s)
  ∧ ∀ c r u, Server.readyState s c ≠ CLOSED → in_session s c r u →
             has_entry (Server.roomManager s) r u c.

(** [s'] has the closure variables and socket states of [s], and its
    registry keeps every entry, the id bound and the counters of [s]. *)
Definition keeps_members (s s' : Server.State) : Prop :=
  Server.sessions s' = Server.sessions s
  ∧ Server.readyState s' = Server.readyState s
  ∧ (∀ r u c, has_entry (Server.roomManager s) r u c →
              has_entry (Server.roomManager s') r u c)
  ∧ mgr_shrinks (Server.roomManager s) (Server.roomManager s').

(** Entry [u] of room [r] sits on connection [ws] and is the current
    membership of no connection that can still emit events, so no close
    handler will ever remove it. *)
Definition stale_entry (s : Server.State) (r : string) (u : nat) (ws : Conn)
  : Prop :=
  has_entry (Server.roomManager s) r u ws
  ∧ ∀ c, Server.readyState s c ≠ CLOSED → ¬ in_session s c r u.

(** The event is a [join] message on connection [ws]. *)
Definition joins_on (ws : Conn) (e : Server.Event) : Prop :=
  match e with
  | Server.EvMessage c (Join _ _) _ _ => c = ws
  | _ => False
  end.

(** ** Vocabulary of the room invariants and of isolation *)

(** The ids of a participant map grow along its iteration order. *)
Definition keys_increasing (us : list (nat * User)) : Prop :=
  StronglySorted lt (map fst us).

(** An entry is stored under its own id, which is at least 1 and below the
    room's counter [next]. *)
Definition entry_ok (next : nat) (e : nat * User) : Prop :=
  user_id (snd e) = fst e ∧ (1 ≤ fst e < next)%nat.

(** A room log within its bounds, whose every record is a ['draw-end']
    operation carrying its own index as [operationId]. *)
Definition log_ok (ds : DrawingState.t Operation) : Prop :=
  DrawingState.log_inv ds
  ∧ ∀ (i : nat) op, DrawingState.operations ds !! i = Some op →
      op_type op = DrawEnd ∧ op_operationId op = Some (Z.of_nat i).

Definition room_ok (r : string) (room : Room) : Prop :=
  room_id room = r
  ∧ users room ≠ []
  ∧ keys_increasing (users room)
  ∧ Forall (entry_ok (nextUserId room)) (users room)
  ∧ log_ok (drawingState room).

Definition rooms_ok (mgr : RoomManager.t) : Prop :=
  ∀ r room, RoomManager.rooms mgr !! r = Some room → room_ok r room.

(** Some participant entry of room [r] has connection [c]. *)
Definition member_conn (mgr : RoomManager.t) (r : string) (c : Conn) : Prop :=
  ∃ room uid u, RoomManager.rooms mgr !! r = Some room
                ∧ (uid, u) ∈ users room ∧ user_ws u = c.

(** The one room an event can touch: the room a [join] names, else the
    current room of the connection. *)
Definition event_room (s : Server.State) (e : Server.Event) : option string :=
  match e with
  | Server.EvMessage ws (Join roomId _) _ _ =>
      Some (Server.roomId_or_default roomId)
  | Server.EvMessage ws _ _ _ => Server.currentRoomId (Server.sessions s ws)
  | Server.EvClosing _ => None
  | Server.EvClose ws _ => fst <$> Server.joined_session (Server.sessions s ws)
  end.

(** Every completed send of a computation satisfies [P]. *)
Definition eff_all {A : Type} (P : Delivery → Prop) (m : Eff A) : Prop :=
  Forall P (fst m).

(** Connection 0 in room ["a"], connection 1 in room ["b"]. *)
Definition two_rooms : Server.State :=
  let s := fst (Server.on_message (fun _ => false) 100 0%nat
                  (Join (Some "a") (Some "ann")) Server.init) in
  fst (Server.on_message (fun _ => false) 101 1%nat
         (Join (Some "b") (Some "bob")) s).

(** A run of [addUser] calls, each with its room key, connection and name;
    the users handed out, in order. *)
Fixpoint join_many (mgr : RoomManager.t)
    (joins : list (string * Conn * option string))
  : RoomManager.t * list User :=
  match joins with
  | [] => (mgr, [])
  | (roomId, ws, username) :: rest =>
      let '(mgr1, (user, _)) := RoomManager.addUser mgr roomId ws username in
      let '(mgr2, us) := join_many mgr1 rest in
      (mgr2, user :: us)
  end.

(** The palette entry for the counter value [i]. *)
Definition palette_at (i : nat) : string :=
  default "" (RoomManager.userColors !! (i mod length RoomManager.userColors)%nat).

(** ** [canvas.js]: the drawing surface and its state *)

Module Canvas.

(** One call of [ctx.stroke()]: the compositing mode, stroke style and line
    width set just before it, and the points of the path ([moveTo], then the
    [lineTo]s). *)
Record Stroke : Type := mkStroke {
  composite : string;
  strokeStyle : string;
  strokeWidth : Z;
  polyline : list (Z * Z)
}.

(** The fields of a [CanvasDrawing], and as [surface] the strokes painted on
    the canvas since it was last cleared. *)
Record t : Type := mk {
  isDrawing : bool;
  lastX : Z;
  lastY : Z;
  tool : string;
  color : string;
  lineWidth : Z;
  currentPath : list (Z * Z);
  remoteLast : option (Z * Z);
  surface : list Stroke
}.

(** constructor *)
Definition new : t :=
  {| isDrawing := false; lastX := 0; lastY := 0; tool := "brush";
     color := "#000000"; lineWidth := 3; currentPath := [];
     remoteLast := None; surface := [] |}.

(** [tool === 'eraser' ? 'destination-out' : 'source-over'] and
    [tool === 'eraser' ? 'rgba(0,0,0,1)' : color] *)
Definition styled (tool color : string) (width : Z) (pts : list (Z * Z))
  : Stroke :=
  {| composite := if decide (tool = "eraser") then "destination-out"
                  else "source-over";
     strokeStyle := if decide (tool = "eraser") then "rgba(0,0,0,1)" else color;
     strokeWidth := width;
     polyline := pts |}.

Definition paint (c : t) (st : Stroke) : t :=
  {| isDrawing := isDrawing c; lastX := lastX c; lastY := lastY c;
     tool := tool c; color := color c; lineWidth := lineWidth c;
     currentPath := currentPath c; remoteLast := remoteLast c;
     surface := surface c ++ [st] |}.

Definition startDrawing (c : t) (x y : Z) : t :=
  {| isDrawing := true; lastX := x; lastY := y;
     tool := tool c; color := color c; lineWidth := lineWidth c;
     currentPath := [(x, y)]; remoteLast := remoteLast c;
     surface := surface c |}.

Definition draw (c : t) (x y : Z) : t :=
  if negb (isDrawing c) then c
  else
    {| isDrawing := isDrawing c; lastX := x; lastY := y;
       tool := tool c; color := color c; lineWidth := lineWidth c;
       currentPath := currentPath c ++ [(x, y)]; remoteLast := remoteLast c;
       surface := surface c
                  ++ [styled (tool c) (color c) (lineWidth c)
                        [(lastX c, lastY c); (x, y)]] |}.

Definition stopDrawing (c : t) : t * bool :=
  if negb (isDrawing c) then (c, false)
  else
    ({| isDrawing := false; lastX := lastX c; lastY := lastY c;
        tool := tool c; color := color c; lineWidth := lineWidth c;
        currentPath := currentPath c; remoteLast := remoteLast c;
        surface := surface c |}, true).

Definition set_remoteLast (c : t) (p : Z * Z) : t :=
  {| isDrawing := isDrawing c; lastX := lastX c; lastY := lastY c;
     tool := tool c; color := color c; lineWidth := lineWidth c;
     currentPath := currentPath c; remoteLast := Some p;
     surface := surface c |}.

(** [remoteLastX] and [remoteLastY] are written together, so they are one
    optional point. *)
Definition drawRemotePath (c : t) (operation : Operation) : t :=
  let p := (op_x operation, op_y operation) in
  match op_type operation with
  | DrawStart => set_remoteLast c p
  | DrawMove =>
      match remoteLast c with
      | Some q =>
          set_remoteLast
            (paint c (styled (op_tool operation) (op_color operation)
                        (op_lineWidth operation) [q; p])) p
      | None => c
      end
  | DrawEnd => c
  end.

Definition setTool (c : t) (tool' : string) : t :=
  {| isDrawing := isDrawing c; lastX := lastX c; lastY := lastY c;
     tool := tool'; color := color c; lineWidth := lineWidth c;
     currentPath := currentPath c; remoteLast := remoteLast c;
     surface := surface c |}.

Definition setColor (c : t) (color' : string) : t :=
  {| isDrawing := isDrawing c; lastX := lastX c; lastY := lastY c;
     tool := tool c; color := color'; lineWidth := lineWidth c;
     currentPath := currentPath c; remoteLast := remoteLast c;
     surface := surface c |}.

Definition setLineWidth (c : t) (width : Z) : t :=
  {| isDrawing := isDrawing c; lastX := lastX c; lastY := lastY c;
     tool := tool c; color := color c; lineWidth := width;
     currentPath := currentPath c; remoteLast := remoteLast c;
     surface := surface c |}.

(** [clearRect] over the whole canvas. *)
Definition clear (c : t) : t :=
  {| isDrawing := isDrawing c; lastX := lastX c; lastY := lastY c;
     tool := tool c; color := color c; lineWidth := lineWidth c;
     currentPath := currentPath c; remoteLast := remoteLast c;
     surface := [] |}.

(** The stroke [drawPath] makes of a path. *)
Definition stroke_of_path (p : CanvasDrawing.Path) : Stroke :=
  styled (CanvasDrawing.tool p) (CanvasDrawing.color p)
    (CanvasDrawing.lineWidth p) (CanvasDrawing.points p).

(** [redrawFromOperations]: clear, then stroke the rebuilt paths. *)
Definition redrawFromOperations (c : t) (operations : list Operation) : t :=
  foldl paint (clear c)
    (map stroke_of_path (CanvasDrawing.redrawFromOperations operations)).

(** [getCanvasCoordinates]: the event's client position relative to the
    canvas rectangle. *)
Definition getCanvasCoordinates (rectLeft rectTop clientX clientY : Z)
  : Z * Z :=
  (clientX - rectLeft, clientY - rectTop)%Z.

End Canvas.

(** ** [main.js]: the mouse handlers of [CollaborativeCanvas] and the send
    methods of [WebSocketClient] they call *)

Module Client.

(** A mouse event with the canvas rectangle at that moment. *)
Record MouseEvent : Type := mkMouseEvent {
  clientX : Z; clientY : Z; rectLeft : Z; rectTop : Z
}.

Definition coords (e : MouseEvent) : Z * Z :=
  Canvas.getCanvasCoordinates (rectLeft e) (rectTop e) (clientX e) (clientY e).

(** The fields the handlers use; a throttle field is [true] while its timer
    is pending (the field holds the timer id) and [false] when it is
    [null]. *)
Record t : Type := mk {
  canvasDrawing : Canvas.t;
  currentTool : string;
  currentColor : string;
  currentLineWidth : Z;
  drawThrottle : bool;
  cursorThrottle : bool
}.

(** constructor *)
Definition new : t :=
  {| canvasDrawing := Canvas.new; currentTool := "brush";
     currentColor := "#000000"; currentLineWidth := 3;
     drawThrottle := false; cursorThrottle := false |}.

(** [WebSocketClient.send]: only on an open socket. *)
Definition send (wsOpen : bool) (message : ClientMsg) : list ClientMsg :=
  if wsOpen then [message] else [].

Definition with_canvas (a : t) (c : Canvas.t) : t :=
  {| canvasDrawing := c; currentTool := currentTool a;
     currentColor := currentColor a; currentLineWidth := currentLineWidth a;
     drawThrottle := drawThrottle a; cursorThrottle := cursorThrottle a |}.

Definition handleMouseDown (wsOpen : bool) (a : t) (e : MouseEvent)
  : t * list ClientMsg :=
  let '(x, y) := coords e in
  (with_canvas a (Canvas.startDrawing (canvasDrawing a) x y),
   send wsOpen (Draw DrawStart (currentTool a) (currentColor a)
                  (currentLineWidth a) x y)).

Definition handleMouseMove (wsOpen : bool) (a : t) (e : MouseEvent)
  : t * list ClientMsg :=
  let '(x, y) := coords e in
  let '(a1, out1) :=
    if Canvas.isDrawing (canvasDrawing a) then
      let a' := with_canvas a (Canvas.draw (canvasDrawing a) x y) in
      if negb (drawThrottle a') then
        ({| canvasDrawing := canvasDrawing a'; currentTool := currentTool a';
            currentColor := currentColor a';
            currentLineWidth := currentLineWidth a';
            drawThrottle := true; cursorThrottle := cursorThrottle a' |},
         send wsOpen (Draw DrawMove (currentTool a) (currentColor a)
                        (currentLineWidth a) x y))
      else (a', [])
    else (a, []) in
  if negb (cursorThrottle a1) then
    ({| canvasDrawing := canvasDrawing a1; currentTool := currentTool a1;
        currentColor := currentColor a1;
        currentLineWidth := currentLineWidth a1;
        drawThrottle := drawThrottle a1; cursorThrottle := true |},
     out1 ++ send wsOpen (CursorMove x y))
  else (a1, out1).

Definition handleMouseUp (wsOpen : bool) (a : t) (e : MouseEvent)
  : t * list ClientMsg :=
  let '(c, stopped) := Canvas.stopDrawing (canvasDrawing a) in
  if stopped then
    let '(x, y) := coords e in
    (with_canvas a c,
     send wsOpen (Draw DrawEnd (currentTool a) (currentColor a)
                    (currentLineWidth a) x y))
  else (with_canvas a c, []).

Definition handleMouseLeave (wsOpen : bool) (a : t) (e : MouseEvent)
  : t * list ClientMsg :=
  handleMouseUp wsOpen a e.

Definition selectTool (a : t) (tool : string) : t :=
  {| canvasDrawing := Canvas.setTool (canvasDrawing a) tool;
     currentTool := tool; currentColor := currentColor a;
     currentLineWidth := currentLineWidth a;
     drawThrottle := drawThrottle a; cursorThrottle := cursorThrottle a |}.

Definition selectColor (a : t) (color : string) : t :=
  {| canvasDrawing := Canvas.setColor (canvasDrawing a) color;
     currentTool := currentTool a; currentColor := color;
     currentLineWidth := currentLineWidth a;
     drawThrottle := drawThrottle a; cursorThrottle := cursorThrottle a |}.

(** The [input] listener of the stroke-width slider. *)
Definition setStrokeWidth (a : t) (width : Z) : t :=
  {| canvasDrawing := Canvas.setLineWidth (canvasDrawing a) width;
     currentTool := currentTool a; currentColor := currentColor a;
     currentLineWidth := width;
     drawThrottle := drawThrottle a; cursorThrottle := cursorThrottle a |}.

(** What happens to the page: mouse events on the canvas, the expiry of a
    throttle timer (its callback sets the field back to [null]), and the
    toolbar. *)
Inductive UiEvent : Type :=
| MouseDown (e : MouseEvent)
| MouseMove (e : MouseEvent)
| MouseUp (e : MouseEvent)
| MouseLeave (e : MouseEvent)
| DrawTimer
| CursorTimer
| SelectTool (tool : string)
| SelectColor (color : string)
| StrokeWidth (width : Z).

Definition handle (wsOpen : bool) (a : t) (ev : UiEvent) : t * list ClientMsg :=
  match ev with
  | MouseDown e => handleMouseDown wsOpen a e
  | MouseMove e => handleMouseMove wsOpen a e
  | MouseUp e => handleMouseUp wsOpen a e
  | MouseLeave e => handleMouseLeave wsOpen a e
  | DrawTimer =>
      ({| canvasDrawing := canvasDrawing a; currentTool := currentTool a;
          currentColor := currentColor a;
          currentLineWidth := currentLineWidth a;
          drawThrottle := false; cursorThrottle := cursorThrottle a |}, [])
  | CursorTimer =>
      ({| canvasDrawing := canvasDrawing a; currentTool := currentTool a;
          currentColor := currentColor a;
          currentLineWidth := currentLineWidth a;
          drawThrottle := drawThrottle a; cursorThrottle := false |}, [])
  | SelectTool tool => (selectTool a tool, [])
  | SelectColor color => (selectColor a color, [])
  | StrokeWidth width => (setStrokeWidth a width, [])
  end.

(** The events in order, the socket being open or not throughout; the
    messages sent, in order. *)
Fixpoint run (wsOpen : bool) (a : t) (evs : list UiEvent) : t * list ClientMsg :=
  match evs with
  | [] => (a, [])
  | ev :: rest =>
      let '(a1, out1) := handle wsOpen a ev in
      let '(a2, out2) := run wsOpen a1 rest in
      (a2, out1 ++ out2)
  end.

End Client.

(** ** Vocabulary of the canvas and client properties *)

(** The segments joining consecutive points, each stroked on its own. *)
Fixpoint segments (tool color : string) (width : Z) (pts : list (Z * Z))
  : list Canvas.Stroke :=
  match pts with
  | p :: (q :: _) as rest =>
      Canvas.styled tool color width [p; q] :: segments tool color width rest
  | _ => []
  end.

(** A stroke as the replay expects it in an operations list: one
    draw-start, its draw-moves and one draw-end, all with the same author
    and timestamp. *)
Record LoggedStroke : Type := mkLoggedStroke {
  ls_userId : option nat;
  ls_timestamp : Z;
  ls_tool : string;
  ls_color : string;
  ls_lineWidth : Z;
  ls_start : Z * Z;
  ls_moves : list (Z * Z);
  ls_end : Z * Z
}.

Definition stroke_operations (st : LoggedStroke) : list Operation :=
  let op kind (p : Z * Z) :=
    {| op_type := kind; op_userId := ls_userId st; op_tool := ls_tool st;
       op_color := ls_color st; op_lineWidth := ls_lineWidth st;
       op_x := fst p; op_y := snd p; op_timestamp := ls_timestamp st;
       op_operationId := None |} in
  op DrawStart (ls_start st) :: map (op DrawMove) (ls_moves st)
  ++ [op DrawEnd (ls_end st)].

Definition stroke_path (st : LoggedStroke) : CanvasDrawing.Path :=
  {| CanvasDrawing.points := ls_start st :: ls_moves st ++ [ls_end st];
     CanvasDrawing.tool := ls_tool st;
     CanvasDrawing.color := ls_color st;
     CanvasDrawing.lineWidth := ls_lineWidth st |}.

(** The drawing messages among the messages sent. *)
Definition draw_messages (out : list ClientMsg) : list ClientMsg :=
  List.filter (fun m => match m with Draw _ _ _ _ _ _ => true | _ => false end) out.

(** A sequence of drawing messages the server can group into gestures:
    a draw-move or draw-end only while a gesture is open ([opened]). *)
Fixpoint gestures_wellformed (opened : bool) (out : list ClientMsg) : bool :=
  match out with
  | [] => true
  | Draw DrawStart _ _ _ _ _ :: rest => gestures_wellformed true rest
  | Draw DrawMove _ _ _ _ _ :: rest => opened && gestures_wellformed opened rest
  | Draw DrawEnd _ _ _ _ _ :: rest => opened && gestures_wellformed false rest
  | _ :: rest => gestures_wellformed opened rest
  end.

(** The canvas points of the mouse-move events among [evs]. *)
Definition moved_points (evs : list Client.UiEvent) : list (Z * Z) :=
  flat_map (fun ev => match ev with
                      | Client.MouseMove e => [Client.coords e]
                      | _ => []
                      end) evs.

(** Only mouse moves and timer expiries. *)
Definition move_or_timer (ev : Client.UiEvent) : Prop :=
  match ev with
  | Client.MouseMove _ | Client.DrawTimer | Client.CursorTimer => True
  | _ => False
  end.

(** The style the toolbar shows is the style the canvas draws with. *)
Definition style_in_sync (a : Client.t) : Prop :=
  Canvas.tool (Client.canvasDrawing a) = Client.currentTool a
  ∧ Canvas.color (Client.canvasDrawing a) = Client.currentColor a
  ∧ Canvas.lineWidth (Client.canvasDrawing a) = Client.currentLineWidth a.

(** * Properties *)

(** ** The operation log *)

Section LogFacts.
Context {A : Type}.
Implicit Types (st : DrawingState.t A) (l : list A).
Import DrawingState.
Local Open Scope Z_scope.

Lemma slice0_take l e : 0 <= e → slice0 l e = take (Z.to_nat e) l.
Proof.
  intros He. unfold slice0.
  destruct (Z.ltb_spec e 0) as [?|_]; [lia|].
  destruct (Z.min_spec e (Z.of_nat (length l))) as [[_ ->]|[Hle ->]]; [done|].
  rewrite Nat2Z.id, !take_ge by lia. done.
Qed.

Lemma visible_take st :
  -1 <= currentIndex st →
  getVisibleOperations st = take (Z.to_nat (currentIndex st + 1)) (operations st).
Proof. intros H. apply slice0_take. lia. Qed.

Lemma visible_length st :
  log_inv st →
  Z.of_nat (length (getVisibleOperations st)) = currentIndex st + 1.
Proof.
  intros [H1 H2]. rewrite visible_take, length_take by done. lia.
Qed.

Lemma log_inv_new : log_inv (@new A).
Proof. unfold log_inv; simpl; lia. Qed.

Lemma log_inv_addOperation st s : log_inv st → log_inv (fst (addOperation st s)).
Proof.
  intros [H1 H2]. unfold log_inv; simpl.
  rewrite slice0_take, length_app, length_take by lia. simpl. lia.
Qed.

Lemma log_inv_undo st : log_inv st → log_inv (fst (undo st)).
Proof.
  intros [H1 H2]. unfold undo, log_inv.
  destruct (Z.leb_spec 0 (currentIndex st)); simpl; lia.
Qed.

Lemma log_inv_redo st : log_inv st → log_inv (fst (redo st)).
Proof.
  intros [H1 H2]. unfold redo, log_inv.
  destruct (Z.ltb_spec (currentIndex st) (Z.of_nat (length (operations st)) - 1));
    simpl; lia.
Qed.

Lemma log_inv_clear st : log_inv (clear st).
Proof. unfold log_inv; simpl; lia. Qed.

Lemma log_inv_step st o : log_inv st → log_inv (step st o).
Proof.
  intros H. destruct o; cbn [step].
  - by apply log_inv_addOperation.
  - by apply log_inv_undo.
  - by apply log_inv_redo.
  - apply log_inv_clear.
Qed.

Lemma log_inv_run os st : log_inv st → log_inv (run os st).
Proof.
  revert st. induction os as [|o os IH]; intros st H; [done|].
  apply IH, log_inv_step, H.
Qed.

Lemma log_inv_cursor_bound st : log_inv st → cursor_bound st.
Proof. unfold log_inv, cursor_bound. lia. Qed.

(** [m] undos from cursor [k >= m - 1] all succeed and move the cursor only. *)
Lemma undos_spec (m : nat) st :
  Z.of_nat m <= currentIndex st + 1 →
  undos m st = Some {| operations := operations st;
                       currentIndex := currentIndex st - Z.of_nat m |}.
Proof.
  revert st. induction m as [|m IH]; intros st Hm.
  - simpl. destruct st; simpl. do 2 f_equal. lia.
  - cbn [undos]. unfold undo.
    destruct (Z.leb_spec 0 (currentIndex st)); [|lia].
    rewrite IH by (simpl; lia). simpl. do 2 f_equal. lia.
Qed.

(** [m] redos below the end of the log all succeed and move the cursor
    only. *)
Lemma redos_spec (m : nat) st :
  currentIndex st + Z.of_nat m <= Z.of_nat (length (operations st)) - 1 →
  redos m st = Some {| operations := operations st;
                       currentIndex := currentIndex st + Z.of_nat m |}.
Proof.
  revert st. induction m as [|m IH]; intros st Hm.
  - simpl. destruct st; simpl. do 2 f_equal. lia.
  - cbn [redos]. unfold redo.
    destruct (Z.ltb_spec (currentIndex st) (Z.of_nat (length (operations st)) - 1));
      [|lia].
    rewrite IH by (simpl; lia). simpl. do 2 f_equal. lia.
Qed.

Lemma undos_redos_inverse (m : nat) st :
  log_inv st → Z.of_nat m <= currentIndex st + 1 →
  ∃ st1, undos m st = Some st1 ∧ redos m st1 = Some st.
Proof.
  intros [H1 H2] Hm. eexists. split; [by apply undos_spec|].
  rewrite redos_spec by (simpl; lia). simpl.
  destruct st; simpl. do 2 f_equal. lia.
Qed.

End LogFacts.

(** C1. When the cursor [k] of a log of length [n] is below the last index
    ([k < n - 1]), [addOperation] keeps the strokes at indices [0..k], drops
    those at [k+1..n-1], appends the new stroke at index [k+1], leaves length
    [k+2] and cursor [k+1], and returns [k+1]. In every log state the stored
    sequence afterwards is the old visible prefix followed by the new
    stroke. *)
Theorem addOperation_truncates_redo_tail {A : Type}
    (st : DrawingState.t A) (s : A) :
  let n := Z.of_nat (length (DrawingState.operations st)) in
  let k := DrawingState.currentIndex st in
  let st' := fst (DrawingState.addOperation st s) in
  DrawingState.operations st' = DrawingState.getVisibleOperations st ++ [s]
  ∧ ((-1 <= k)%Z → (k < n - 1)%Z →
     DrawingState.operations st'
       = take (Z.to_nat (k + 1)) (DrawingState.operations st) ++ [s]
     ∧ Z.of_nat (length (DrawingState.operations st')) = (k + 2)%Z
     ∧ DrawingState.currentIndex st' = (k + 1)%Z
     ∧ snd (DrawingState.addOperation st s) = (k + 1)%Z
     ∧ (∀ i : nat, (Z.of_nat i <= k)%Z →
          DrawingState.operations st' !! i = DrawingState.operations st !! i)
     ∧ DrawingState.operations st' !! Z.to_nat (k + 1) = Some s
     ∧ (∀ i : nat, (k + 1 < Z.of_nat i)%Z →
          DrawingState.operations st' !! i = None)).
Proof.
  intros n k st'. split; [done|]. intros Hk Hn.
  assert (Hops : DrawingState.operations st'
                 = take (Z.to_nat (k + 1)) (DrawingState.operations st) ++ [s]).
  { subst st'. simpl. rewrite slice0_take by lia. done. }
  assert (Hlen : length (take (Z.to_nat (k + 1)) (DrawingState.operations st))
                 = Z.to_nat (k + 1)).
  { rewrite length_take. subst n. lia. }
  split; [done|]. rewrite Hops. repeat split.
  - rewrite length_app, Hlen. simpl. lia.
  - intros i Hi. rewrite lookup_app_l by lia. apply lookup_take_lt. lia.
  - rewrite lookup_app_r by lia. rewrite Hlen, Nat.sub_diag. done.
  - intros i Hi. apply lookup_ge_None_2. rewrite length_app, Hlen. simpl. lia.
Qed.

Lemma addOperation_truncates_redo_tail_witness :
  let st := DrawingState.mk [10; 20; 30; 40]%nat 1 in
  DrawingState.addOperation st 99%nat
  = (DrawingState.mk [10; 20; 99]%nat 2, 2%Z)
  ∧ DrawingState.operations (fst (DrawingState.addOperation st 99%nat)) !! 3%nat
    = None.
Proof.
  intros st.
  destruct (addOperation_truncates_redo_tail st 99%nat) as [_ H].
  destruct H as (_ & _ & _ & _ & _ & _ & H); [simpl; lia | simpl; lia |].
  split; [reflexivity|]. apply (H 3%nat). simpl. lia.
Defined.

(** C4. In every log state reached from the empty log by commits (and, more
    generally, by any of the four log operations), for every [m] not above the
    number of visible strokes: [m] calls of [undo] all succeed and leave the
    first [visible - m] strokes visible, [m] calls of [redo] then all succeed,
    and the visible sequence (indeed the whole log) is as before the undos. *)
Theorem undo_redo_inverse_within_bounds {A : Type}
    (os : list (DrawingState.LogOp A)) (m : nat) :
  let st := DrawingState.run os DrawingState.new in
  (m ≤ length (DrawingState.getVisibleOperations st))%nat →
  ∃ st1 st2,
    DrawingState.undos m st = Some st1
    ∧ DrawingState.getVisibleOperations st1
      = take (length (DrawingState.getVisibleOperations st) - m)%nat
          (DrawingState.getVisibleOperations st)
    ∧ DrawingState.redos m st1 = Some st2
    ∧ DrawingState.getVisibleOperations st2
      = DrawingState.getVisibleOperations st
    ∧ st2 = st.
Proof.
  intros st Hm.
  assert (Hinv : DrawingState.log_inv st)
    by apply log_inv_run, log_inv_new.
  pose proof (visible_length st Hinv) as Hlen.
  destruct (undos_redos_inverse m st Hinv) as (st1 & Hu & Hr); [lia|].
  exists st1, st. repeat split; try done.
  rewrite undos_spec in Hu by lia. injection Hu as <-.
  destruct Hinv as [H1 H2].
  rewrite (visible_take st), visible_take by (simpl; lia). simpl.
  rewrite length_take, take_take. f_equal. lia.
Qed.

Lemma undo_redo_inverse_within_bounds_witness :
  let os := [DrawingState.OpCommit 7; DrawingState.OpCommit 8;
             DrawingState.OpCommit 9]%nat in
  ∃ st1 st2,
    DrawingState.undos 2 (DrawingState.run os DrawingState.new) = Some st1
    ∧ DrawingState.getVisibleOperations st1 = [7]%nat
    ∧ DrawingState.redos 2 st1 = Some st2
    ∧ DrawingState.getVisibleOperations st2 = [7; 8; 9]%nat.
Proof.
  intros os.
  destruct (undo_redo_inverse_within_bounds os 2) as (st1 & st2 & H1 & H2 & H3 & H4 & _).
  - simpl. lia.
  - exists st1, st2. repeat split; assumption.
Defined.

(** C6. The bound [-1 <= currentIndex <= length - 1] holds for the new log
    and is kept by [addOperation], [undo], [redo] and [clear]; so in every
    state the log can reach it holds, also in the form
    [-1 <= currentIndex < max(length, 1)], which says the same on every
    non-empty log; and under it [getVisibleOperations] is exactly the strokes
    at indices [0..currentIndex]. *)
Theorem log_invariant_and_visible_prefix {A : Type} :
  DrawingState.log_inv (@DrawingState.new A)
  ∧ (∀ (st : DrawingState.t A) (s : A),
       DrawingState.log_inv st →
       DrawingState.log_inv (fst (DrawingState.addOperation st s))
       ∧ DrawingState.log_inv (fst (DrawingState.undo st))
       ∧ DrawingState.log_inv (fst (DrawingState.redo st))
       ∧ DrawingState.log_inv (DrawingState.clear st))
  ∧ (∀ os : list (DrawingState.LogOp A),
       let st := DrawingState.run os DrawingState.new in
       DrawingState.log_inv st ∧ DrawingState.cursor_bound st)
  ∧ (∀ st : DrawingState.t A,
       DrawingState.log_inv st →
       DrawingState.getVisibleOperations st
         = take (Z.to_nat (DrawingState.currentIndex st + 1))
             (DrawingState.operations st)
       ∧ Z.of_nat (length (DrawingState.getVisibleOperations st))
         = (DrawingState.currentIndex st + 1)%Z
       ∧ ∀ i : nat,
           DrawingState.getVisibleOperations st !! i
           = if (Z.of_nat i <=? DrawingState.currentIndex st)%Z
             then DrawingState.operations st !! i else None)
  ∧ (∀ st : DrawingState.t A,
       (DrawingState.log_inv st → DrawingState.cursor_bound st)
       ∧ (DrawingState.cursor_bound st → DrawingState.operations st ≠ [] →
          DrawingState.log_inv st)).
Proof.
  split; [apply log_inv_new|]. split; [|split; [|split]].
  4:{ intros st. split; [apply log_inv_cursor_bound|].
      unfold DrawingState.cursor_bound, DrawingState.log_inv.
      destruct (DrawingState.operations st); [done|]. simpl. lia. }
  - intros st s H. split; [|split; [|split]].
    + by apply log_inv_addOperation.
    + by apply log_inv_undo.
    + by apply log_inv_redo.
    + apply log_inv_clear.
  - intros os st.
    assert (DrawingState.log_inv st) by apply log_inv_run, log_inv_new.
    split; [done|]. by apply log_inv_cursor_bound.
  - intros st H. split; [apply visible_take, H|].
    split; [by apply visible_length|]. intros i.
    rewrite visible_take by apply H.
    destruct (Z.leb_spec (Z.of_nat i) (DrawingState.currentIndex st)).
    + apply lookup_take_lt. lia.
    + apply lookup_take_ge. lia.
Qed.

Lemma log_invariant_and_visible_prefix_witness :
  let st := DrawingState.mk [10; 20; 30; 40]%nat 1 in
  DrawingState.log_inv (fst (DrawingState.undo st))
  ∧ DrawingState.getVisibleOperations st = [10; 20]%nat.
Proof.
  intros st.
  destruct (@log_invariant_and_visible_prefix nat) as (_ & Hstep & _ & Hvis & _).
  assert (Hst : DrawingState.log_inv st)
    by (unfold DrawingState.log_inv; simpl; lia).
  split.
  - apply (Hstep st 0%nat Hst).
  - destruct (Hvis st Hst) as [-> _]. reflexivity.
Defined.

(** ** Insertion-ordered maps *)

Section JsMapFacts.
Context {K V : Type} `{EqDecision K}.
Implicit Types (m : list (K * V)) (k : K) (v : V).

Lemma jsmap_get_set_eq m k v : jsmap_get (jsmap_set m k v) k = Some v.
Proof.
  induction m as [|[k' v'] m IH]; simpl.
  - by rewrite decide_True.
  - destruct (decide (k' = k)) as [->|Hne]; simpl.
    + by rewrite decide_True.
    + by rewrite decide_False.
Qed.

Lemma jsmap_get_set_ne m k k' v :
  k ≠ k' → jsmap_get (jsmap_set m k v) k' = jsmap_get m k'.
Proof.
  intros Hne. induction m as [|[k1 v1] m IH]; simpl.
  - by rewrite decide_False.
  - destruct (decide (k1 = k)) as [->|Hk]; simpl.
    + by rewrite !decide_False.
    + by rewrite IH.
Qed.

Lemma jsmap_get_delete_eq m k : jsmap_get (jsmap_delete m k) k = None.
Proof.
  induction m as [|[k1 v1] m IH]; simpl; [done|].
  destruct (decide (k1 = k)); simpl; [done|]. by rewrite decide_False.
Qed.

Lemma jsmap_get_delete_ne m k k' :
  k ≠ k' → jsmap_get (jsmap_delete m k) k' = jsmap_get m k'.
Proof.
  intros Hne. induction m as [|[k1 v1] m IH]; simpl; [done|].
  destruct (decide (k1 = k)) as [->|Hk]; simpl.
  - by rewrite decide_False.
  - by rewrite IH.
Qed.

Lemma jsmap_get_Some_length m k v : jsmap_get m k = Some v → length m ≠ 0.
Proof. destruct m; [done|]. simpl. lia. Qed.

Lemma jsmap_set_fresh m k v :
  jsmap_get m k = None → jsmap_set m k v = m ++ [(k, v)].
Proof.
  induction m as [|[k1 v1] m IH]; simpl; [done|].
  destruct (decide (k1 = k)); [done|]. intros H. by rewrite IH.
Qed.
End JsMapFacts.

(** ** Broadcast *)

Lemma broadcast_loop_spec readyState sendRaises us message excl :
  RoomManager.broadcast_loop readyState sendRaises us message excl
  = (map (fun c => (c, message))
       (sends_before_raise sendRaises (broadcast_targets readyState us excl)),
     if forallb (fun c => negb (sendRaises c))
          (broadcast_targets readyState us excl)
     then Some tt else None).
Proof.
  unfold broadcast_targets.
  induction us as [|[uid u] us IH]; [done|].
  cbn [RoomManager.broadcast_loop List.filter].
  change (RoomManager.not_excluded uid excl && (readyState (user_ws u) =? 1)%Z)
    with (eligible readyState excl (uid, u)).
  destruct (eligible readyState excl (uid, u)); [|exact IH].
  cbn [map sends_before_raise forallb]. unfold ws_send.
  destruct (sendRaises (user_ws u)) eqn:E; simpl; rewrite E; [done|].
  rewrite IH. done.
Qed.

Lemma sends_before_raise_all sendRaises cs :
  forallb (fun c => negb (sendRaises c)) cs = true →
  sends_before_raise sendRaises cs = cs.
Proof.
  induction cs as [|c cs IH]; [done|]. simpl.
  destruct (sendRaises c); [done|]. simpl. intros H. by rewrite IH.
Qed.

Lemma broadcast_targets_elem readyState us excl c :
  c ∈ broadcast_targets readyState us excl →
  ∃ uid u, (uid, u) ∈ us ∧ c = user_ws u ∧ readyState (user_ws u) = 1%Z
           ∧ excl ≠ Some uid.
Proof.
  unfold broadcast_targets. intros Hc.
  apply list_elem_of_fmap in Hc as ([uid u] & -> & Hin).
  apply list_elem_of_In, filter_In in Hin as [Hin Hel].
  apply list_elem_of_In in Hin.
  unfold eligible in Hel. cbn [fst snd] in Hel.
  apply andb_prop in Hel as [Hex Hopen].
  exists uid, u. split; [done|]. split; [done|]. split; [lia|].
  intros ->. simpl in Hex. rewrite Nat.eqb_refl in Hex. done.
Qed.

Lemma sends_before_raise_sublist sendRaises cs c :
  c ∈ sends_before_raise sendRaises cs → c ∈ cs.
Proof.
  induction cs as [|c' cs IH]; [done|]. simpl.
  destruct (sendRaises c'); [by intros ?%elem_of_nil|].
  intros [->|H]%elem_of_cons; [left|right; auto].
Qed.

(** C7, as the code has it. A broadcast walks the room's participants in
    map order, skips those whose connection is not open and the excluded
    one, and sends to the others; it has no handler around [send]. So the
    sends completed are those before the first addressed connection whose
    [send] throws; the call returns normally exactly when no addressed
    [send] throws, and then every addressed connection was served; every
    completed send went to an open connection of a participant that is not
    the excluded one. *)
Theorem broadcast_delivers_until_first_failure
    (readyState : Conn → Z) (sendRaises : Conn → bool) (mgr : RoomManager.t)
    (roomId : string) (room : Room) (message : ServerMsg)
    (excludeUserId : option nat) :
  RoomManager.rooms mgr !! roomId = Some room →
  let targets := broadcast_targets readyState (users room) excludeUserId in
  let res := RoomManager.broadcastToRoom readyState sendRaises mgr roomId
               message excludeUserId in
  fst res = map (fun c => (c, message)) (sends_before_raise sendRaises targets)
  ∧ (snd res = Some tt ↔ ∀ c, c ∈ targets → sendRaises c = false)
  ∧ (snd res = Some tt → fst res = map (fun c => (c, message)) targets)
  ∧ (∀ d, d ∈ fst res →
       ∃ uid u, (uid, u) ∈ users room ∧ d = (user_ws u, message)
                ∧ readyState (user_ws u) = 1%Z ∧ excludeUserId ≠ Some uid).
Proof.
  intros Hroom targets res. subst res. unfold RoomManager.broadcastToRoom.
  rewrite Hroom, broadcast_loop_spec. fold targets. cbn [fst snd].
  assert (Hall : forallb (fun c => negb (sendRaises c)) targets = true
                 ↔ ∀ c, c ∈ targets → sendRaises c = false).
  { rewrite forallb_forall. split; intros H c Hc.
    - apply list_elem_of_In, H in Hc. by destruct (sendRaises c).
    - apply list_elem_of_In, H in Hc. by rewrite Hc. }
  split; [done|]. split; [|split].
  - rewrite <- Hall. by destruct (forallb _ targets).
  - destruct (forallb _ targets) eqn:E; [|done].
    intros _. by rewrite sends_before_raise_all.
  - intros d Hd. apply list_elem_of_fmap in Hd as (c & -> & Hc).
    apply sends_before_raise_sublist, broadcast_targets_elem in Hc
      as (uid & u & ? & -> & ? & ?).
    by exists uid, u.
Qed.

Lemma broadcast_delivers_until_first_failure_witness :
  fst (RoomManager.broadcastToRoom (Server.readyState two_joined)
         (fun c => (c =? 1)%nat) (Server.roomManager two_joined) "r" ClearMsg None)
  = [(0%nat, ClearMsg)].
Proof.
  destruct (RoomManager.rooms (Server.roomManager two_joined) !! "r")
    as [room|] eqn:Hroom; [|vm_compute in Hroom; discriminate].
  destruct (broadcast_delivers_until_first_failure
              (Server.readyState two_joined) (fun c => (c =? 1)%nat)
              (Server.roomManager two_joined) "r" room ClearMsg None Hroom)
    as [-> _].
  vm_compute in Hroom. injection Hroom as <-. reflexivity.
Defined.

(** C7 fails as stated: with both participants of the room open and the
    [send] to the first one throwing, the broadcast throws out to its caller
    and the second participant is not served. *)
Lemma broadcast_aborts_on_failed_send :
  RoomManager.broadcastToRoom (Server.readyState two_joined)
    (fun c => (c =? 0)%nat) (Server.roomManager two_joined) "r" ClearMsg None
  = ([], None)
  ∧ broadcast_targets (Server.readyState two_joined)
      (default [] (users <$> RoomManager.rooms (Server.roomManager two_joined) !! "r"))
      None = [0; 1]%nat.
Proof. split; vm_compute; reflexivity. Qed.

(** ** The message handler on the log *)

Lemma current_room_lookup s ws r room :
  Server.currentRoomId (Server.sessions s ws) = Some r →
  RoomManager.rooms (Server.roomManager s) !! r = Some room →
  Server.current_room s ws = Some room.
Proof. intros Hs Hr. unfold Server.current_room. by rewrite Hs. Qed.

(** C5. With the cursor at [-1], [undo] reports failure and returns the log
    as it was; with the cursor at [length - 1], so does [redo]; and the
    handler of an [undo] (or [redo]) message whose room's log is in that state
    changes nothing in the server state and sends nothing to anyone. *)
Theorem undo_redo_fail_cleanly :
  (∀ (A : Type) (st : DrawingState.t A),
     DrawingState.currentIndex st = (-1)%Z →
     DrawingState.undo st = (st, DrawingState.Failure))
  ∧ (∀ (A : Type) (st : DrawingState.t A),
       DrawingState.currentIndex st
       = (Z.of_nat (length (DrawingState.operations st)) - 1)%Z →
       DrawingState.redo st = (st, DrawingState.Failure))
  ∧ (∀ s ws r room sendRaises now,
       Server.currentRoomId (Server.sessions s ws) = Some r →
       RoomManager.rooms (Server.roomManager s) !! r = Some room →
       DrawingState.currentIndex (drawingState room) = (-1)%Z →
       Server.on_message sendRaises now ws Undo s = (s, ([], Some tt)))
  ∧ (∀ s ws r room sendRaises now,
       Server.currentRoomId (Server.sessions s ws) = Some r →
       RoomManager.rooms (Server.roomManager s) !! r = Some room →
       DrawingState.currentIndex (drawingState room)
       = (Z.of_nat (length (DrawingState.operations (drawingState room))) - 1)%Z →
       Server.on_message sendRaises now ws Redo s = (s, ([], Some tt))).
Proof.
  assert (Hu : ∀ (A : Type) (st : DrawingState.t A),
             DrawingState.currentIndex st = (-1)%Z →
             DrawingState.undo st = (st, DrawingState.Failure)).
  { intros A st H. unfold DrawingState.undo. rewrite H. done. }
  assert (Hr : ∀ (A : Type) (st : DrawingState.t A),
             DrawingState.currentIndex st
             = (Z.of_nat (length (DrawingState.operations st)) - 1)%Z →
             DrawingState.redo st = (st, DrawingState.Failure)).
  { intros A st H. unfold DrawingState.redo. rewrite <- H, Z.ltb_irrefl. done. }
  split; [exact Hu|]. split; [exact Hr|]. split.
  - intros s ws r room sendRaises now Hs Hroom Hk.
    unfold Server.on_message. cbv zeta.
    rewrite Hs, (current_room_lookup s ws r room Hs Hroom), (Hu _ _ Hk). done.
  - intros s ws r room sendRaises now Hs Hroom Hk.
    unfold Server.on_message. cbv zeta.
    rewrite Hs, (current_room_lookup s ws r room Hs Hroom), (Hr _ _ Hk). done.
Qed.

Lemma undo_redo_fail_cleanly_witness :
  DrawingState.undo (DrawingState.mk [5; 6]%nat (-1))
  = (DrawingState.mk [5; 6]%nat (-1), DrawingState.Failure)
  ∧ DrawingState.redo (DrawingState.mk [5; 6]%nat 1)
    = (DrawingState.mk [5; 6]%nat 1, DrawingState.Failure)
  ∧ Server.on_message (fun _ => false) 102 0%nat Undo two_joined
    = (two_joined, ([], Some tt))
  ∧ Server.on_message (fun _ => false) 102 1%nat Redo two_joined
    = (two_joined, ([], Some tt)).
Proof.
  destruct undo_redo_fail_cleanly as (Hu & Hr & Hmu & Hmr).
  destruct (RoomManager.rooms (Server.roomManager two_joined) !! "r")
    as [room|] eqn:Hroom; [|vm_compute in Hroom; discriminate].
  assert (Hds : drawingState room = DrawingState.new).
  { vm_compute in Hroom. injection Hroom as <-. reflexivity. }
  split; [apply Hu; reflexivity|]. split; [apply Hr; reflexivity|]. split.
  - apply (Hmu two_joined 0%nat "r" room); [reflexivity|exact Hroom|].
    rewrite Hds. reflexivity.
  - apply (Hmr two_joined 1%nat "r" room); [reflexivity|exact Hroom|].
    rewrite Hds. reflexivity.
Defined.

(** ** Rooms *)

(** C8. When the only participant of a room leaves, [removeUser] returns
    [null] and the registry no longer has the room; a join with the same key
    then creates a room whose log is empty (no visible stroke) and whose first
    participant gets id 1. In the handlers: the close of that participant's
    connection sends nothing, and the next join on the key is answered with a
    welcome carrying id 1 and an empty operations list. Any join on a key the
    registry does not have starts such a room. *)
Theorem empty_room_teardown :
  (∀ (mgr : RoomManager.t) (roomId : string) (room : Room) (userId : nat)
     (user : User) (ws : Conn) (username : option string),
     RoomManager.rooms mgr !! roomId = Some room →
     users room = [(userId, user)] →
     let mgr1 := fst (RoomManager.removeUser mgr roomId userId) in
     let joined := snd (RoomManager.addUser mgr1 roomId ws username) in
     snd (RoomManager.removeUser mgr roomId userId) = None
     ∧ RoomManager.rooms mgr1 !! roomId = None
     ∧ user_id (fst joined) = 1%nat
     ∧ nextUserId (snd joined) = 2%nat
     ∧ users (snd joined) = [(1%nat, fst joined)]
     ∧ drawingState (snd joined) = DrawingState.new
     ∧ DrawingState.getVisibleOperations (drawingState (snd joined)) = []
     ∧ RoomManager.rooms (fst (RoomManager.addUser mgr1 roomId ws username))
         !! roomId = Some (snd joined))
  ∧ (∀ (s : Server.State) (ws ws' : Conn) (roomId : string) (room : Room)
       (userId : nat) (user : User) (username : option string)
       (sendRaises : Conn → bool) (now : Z),
       Server.joined_session (Server.sessions s ws) = Some (roomId, userId) →
       RoomManager.rooms (Server.roomManager s) !! roomId = Some room →
       users room = [(userId, user)] →
       sendRaises ws' = false →
       let closed := Server.on_close sendRaises ws s in
       snd closed = ([], Some tt)
       ∧ RoomManager.rooms (Server.roomManager (fst closed)) !! roomId = None
       ∧ ∃ color name,
           snd (Server.on_message sendRaises now ws' (Join (Some roomId) username)
                  (fst closed))
           = ([(ws', Joined 1 color name []
                       [{| ui_id := 1; ui_username := name; ui_color := color |}])],
              Some tt))
  ∧ (∀ (mgr : RoomManager.t) (roomId : string) (ws : Conn)
       (username : option string),
       RoomManager.rooms mgr !! roomId = None →
       let joined := snd (RoomManager.addUser mgr roomId ws username) in
       user_id (fst joined) = 1%nat
       ∧ users (snd joined) = [(1%nat, fst joined)]
       ∧ nextUserId (snd joined) = 2%nat
       ∧ drawingState (snd joined) = DrawingState.new).
Proof.
  assert (Hrm : ∀ (mgr : RoomManager.t) roomId room userId user,
             RoomManager.rooms mgr !! roomId = Some room →
             users room = [(userId, user)] →
             RoomManager.removeUser mgr roomId userId
             = ({| RoomManager.rooms := delete roomId (RoomManager.rooms mgr);
                   RoomManager.colorIndex := RoomManager.colorIndex mgr |}, None)).
  { intros mgr roomId room userId user Hroom Hus.
    unfold RoomManager.removeUser. rewrite Hroom. cbn [users]. rewrite Hus.
    cbn [jsmap_delete]. destruct (decide (userId = userId)); done. }
  assert (Hadd : ∀ (mgr : RoomManager.t) roomId ws username,
             RoomManager.rooms mgr !! roomId = None →
             ∃ user,
               RoomManager.addUser mgr roomId ws username
               = ({| RoomManager.rooms :=
                       <[roomId := {| room_id := roomId; users := [(1%nat, user)];
                                      drawingState := DrawingState.new;
                                      nextUserId := 2 |}]>
                         (<[roomId := {| room_id := roomId; users := [];
                                         drawingState := DrawingState.new;
                                         nextUserId := 1 |}]>
                            (RoomManager.rooms mgr));
                     RoomManager.colorIndex := S (RoomManager.colorIndex mgr) |},
                  (user, {| room_id := roomId; users := [(1%nat, user)];
                            drawingState := DrawingState.new; nextUserId := 2 |}))
               ∧ user_id user = 1%nat).
  { intros mgr roomId ws username Hnone.
    unfold RoomManager.addUser, RoomManager.getOrCreateRoom. rewrite Hnone.
    cbn [nextUserId users room_id drawingState RoomManager.rooms
         RoomManager.colorIndex jsmap_set].
    eexists. split; [reflexivity|done]. }
  split; [|split].
  3:{ intros mgr roomId ws username Hnone joined. subst joined.
      destruct (Hadd mgr roomId ws username Hnone) as (u & -> & Hid).
      cbn [fst snd users drawingState nextUserId]. done. }
  - intros mgr roomId room userId user ws username Hroom Hus mgr1 joined.
    subst joined mgr1. rewrite (Hrm _ _ _ _ _ Hroom Hus). cbn [fst snd].
    destruct (Hadd {| RoomManager.rooms := delete roomId (RoomManager.rooms mgr);
                      RoomManager.colorIndex := RoomManager.colorIndex mgr |}
                roomId ws username) as (u & -> & Hid).
    { apply lookup_delete_eq. }
    cbn [fst snd RoomManager.rooms users drawingState nextUserId].
    rewrite lookup_delete_eq, lookup_insert_eq. done.
  - intros s ws ws' roomId room userId user username sendRaises now
      Hsess Hroom Hus Hok closed.
    assert (Hne : ∃ a r, roomId = String a r).
    { unfold Server.joined_session in Hsess.
      destruct (Server.currentRoomId (Server.sessions s ws)) as [[|a r]|]; try done.
      destruct (Server.currentUserId (Server.sessions s ws)) as [[|u]|]; try done.
      injection Hsess as <- _. eauto. }
    destruct Hne as (a & r & ->).
    subst closed. unfold Server.on_close. rewrite Hsess.
    rewrite (Hrm _ _ _ _ _ Hroom Hus). cbn [fst snd Server.set_roomManager
      Server.roomManager RoomManager.rooms].
    split; [done|]. split; [apply lookup_delete_eq|].
    unfold Server.on_message. cbv zeta.
    unfold Server.set_roomManager.
    cbn [Server.roomId_or_default Server.roomManager Server.sessions
         Server.readyState].
    destruct (Hadd {| RoomManager.rooms :=
                        delete (String a r) (RoomManager.rooms (Server.roomManager s));
                      RoomManager.colorIndex :=
                        RoomManager.colorIndex (Server.roomManager s) |}
                (String a r) ws' username) as (u & -> & Hid).
    { apply lookup_delete_eq. }
    exists (user_color u), (user_username u).
    cbn [snd fst]. unfold Server.broadcast, RoomManager.broadcastToRoom.
    cbn [Server.roomManager Server.readyState RoomManager.rooms].
    rewrite lookup_insert_eq. cbn [users RoomManager.broadcast_loop].
    rewrite Hid. cbn [RoomManager.not_excluded]. rewrite Nat.eqb_refl.
    cbn [negb andb]. unfold ws_send. rewrite Hok.
    cbn [eff_bind eff_ret try_catch app].
    unfold RoomManager.getUserList. cbn [users map drawingState].
    rewrite Hid. done.
Qed.

Lemma empty_room_teardown_witness :
  snd (RoomManager.removeUser (Server.roomManager one_joined) "r" 1) = None
  ∧ user_id (fst (snd (RoomManager.addUser
                         (fst (RoomManager.removeUser
                                 (Server.roomManager one_joined) "r" 1))
                         "r" 7%nat None))) = 1%nat
  ∧ ∃ color name,
      snd (Server.on_message (fun _ => false) 200 7%nat (Join (Some "r") None)
             (fst (Server.on_close (fun _ => false) 0%nat one_joined)))
      = ([(7%nat, Joined 1 color name []
                    [{| ui_id := 1; ui_username := name; ui_color := color |}])],
         Some tt).
Proof.
  destruct empty_room_teardown as (Hmgr & Hsrv & _).
  destruct (RoomManager.rooms (Server.roomManager one_joined) !! "r")
    as [room|] eqn:Hroom; [|vm_compute in Hroom; discriminate].
  assert (Hus : ∃ user, users room = [(1%nat, user)]).
  { vm_compute in Hroom. injection Hroom as <-. eexists. reflexivity. }
  destruct Hus as [user Hus].
  destruct (Hmgr (Server.roomManager one_joined) "r" room 1%nat user 7%nat None
              Hroom Hus) as (H1 & _ & H3 & _).
  split; [exact H1|]. split; [exact H3|].
  destruct (Hsrv one_joined 0%nat 7%nat "r" room 1%nat user None
              (fun _ => false) 200%Z) as (_ & _ & H); [reflexivity|exact Hroom|exact Hus|reflexivity|].
  exact H.
Defined.

(** ** Undo, redo and clear replies *)

Lemma broadcast_loop_no_raise readyState sendRaises us message excl :
  (∀ c, sendRaises c = false) →
  RoomManager.broadcast_loop readyState sendRaises us message excl
  = (map (fun c => (c, message)) (broadcast_targets readyState us excl), Some tt).
Proof.
  intros Hok. rewrite broadcast_loop_spec.
  assert (H : forallb (fun c => negb (sendRaises c))
                (broadcast_targets readyState us excl) = true).
  { apply forallb_forall. intros c _. by rewrite Hok. }
  by rewrite H, sends_before_raise_all.
Qed.







(** ** Drawing gestures *)

(** C2, on the code. After the gesture begin (0,0), continue (5,5), finish
    (10,10) the room's log holds one record, and that record carries the
    finish point only, not the three points of the path; replaying the visible
    list as the client does strokes no path at all. *)
Theorem gesture_commits_terminal_point_only :
  (DrawingState.getVisibleOperations <$> (drawingState <$>
     RoomManager.rooms (Server.roomManager A_drew) !! "r1"))
  = Some [A_stroke]
  ∧ op_points A_stroke = [(10, 10)%Z]
  ∧ op_points A_stroke ≠ [(0, 0); (5, 5); (10, 10)]%Z
  ∧ CanvasDrawing.redrawFromOperations [A_stroke] = [].
Proof. repeat split; try (vm_compute; reflexivity). discriminate. Qed.

(** C3, on the code. In the scenario, B's welcome lists one record, with the
    single point (10,10) instead of the three points drawn; A's undo is then
    sent to A (twice) and to B with cursor [-1] and an empty list; A's redo is
    sent to both with the one record again. *)
Theorem end_to_end_scenario :
  Server.sent_to 1%nat
    (fst (snd (Server.on_message (fun _ => false) 104 1%nat
                 (Join (Some "r1") (Some "B")) A_drew)))
  = [Joined 2 "#4ECDC4" "B" [A_stroke]
       [{| ui_id := 1; ui_username := "A"; ui_color := "#FF6B6B" |};
        {| ui_id := 2; ui_username := "B"; ui_color := "#4ECDC4" |}]]
  ∧ op_points A_stroke = [(10, 10)%Z]
  ∧ fst (snd (Server.on_message (fun _ => false) 105 0%nat Undo B_joined))
    = [(0%nat, UndoMsg (-1) []); (1%nat, UndoMsg (-1) []); (0%nat, UndoMsg (-1) [])]
  ∧ fst (snd (Server.on_message (fun _ => false) 106 0%nat Redo A_undid))
    = [(0%nat, RedoMsg 0 [A_stroke]); (1%nat, RedoMsg 0 [A_stroke]);
       (0%nat, RedoMsg 0 [A_stroke])].
Proof. repeat split; vm_compute; reflexivity. Qed.

(** ** Membership: what the registry operations do to entries *)

Section Registry.
Import RoomManager.
Implicit Types (mgr : RoomManager.t) (r : string) (u : nat) (c ws : Conn).

Lemma addUser_spec mgr r ws username :
  let old := rooms mgr !! r in
  let us := match old with Some room => users room | None => [] end in
  let n := match old with Some room => nextUserId room | None => 1%nat end in
  let res := addUser mgr r ws username in
  let user := fst (snd res) in
  let room' := snd (snd res) in
  rooms (fst res) !! r = Some room'
  ∧ (∀ r', r' ≠ r → rooms (fst res) !! r' = rooms mgr !! r')
  ∧ colorIndex (fst res) = S (colorIndex mgr)
  ∧ user_id user = n
  ∧ user_ws user = ws
  ∧ user_color user
    = default "" (userColors !! (colorIndex mgr mod length userColors)%nat)
  ∧ users room' = jsmap_set us n user
  ∧ nextUserId room' = S n
  ∧ drawingState room'
    = match old with Some room => drawingState room | None => DrawingState.new end.
Proof.
  unfold addUser, getOrCreateRoom.
  destruct (rooms mgr !! r) as [room|] eqn:Hold;
    cbn [fst snd rooms colorIndex users nextUserId drawingState room_id];
    (split; [apply lookup_insert_eq|]);
    (split; [|done]); intros r' Hne.
  - by rewrite lookup_insert_ne.
  - by rewrite !lookup_insert_ne.
Qed.

Lemma removeUser_lookup_ne mgr r r0 u0 :
  r ≠ r0 → rooms (fst (removeUser mgr r0 u0)) !! r = rooms mgr !! r.
Proof.
  intros Hne. unfold removeUser.
  destruct (rooms mgr !! r0) as [room|]; [|done].
  case_decide; cbn [fst rooms].
  - by rewrite lookup_delete_ne.
  - by rewrite lookup_insert_ne.
Qed.

Lemma removeUser_lookup_eq mgr r0 u0 room :
  rooms mgr !! r0 = Some room →
  rooms (fst (removeUser mgr r0 u0)) !! r0
  = if decide (length (jsmap_delete (users room) u0) = 0%nat) then None
    else Some {| room_id := room_id room;
                 users := jsmap_delete (users room) u0;
                 drawingState := drawingState room;
                 nextUserId := nextUserId room |}.
Proof.
  intros Hroom. unfold removeUser. rewrite Hroom. cbn [users].
  case_decide; cbn [fst rooms].
  - apply lookup_delete_eq.
  - apply lookup_insert_eq.
Qed.

Lemma has_entry_removeUser mgr r u c r0 u0 :
  has_entry mgr r u c → (r ≠ r0 ∨ u ≠ u0) →
  has_entry (fst (removeUser mgr r0 u0)) r u c.
Proof.
  intros (room & user & Hroom & Hget & Hws) Hne.
  destruct (decide (r = r0)) as [->|Hr].
  - destruct Hne as [?|Hu]; [done|].
    assert (Hget' : jsmap_get (jsmap_delete (users room) u0) u = Some user)
      by (by rewrite jsmap_get_delete_ne).
    eexists _, user. rewrite (removeUser_lookup_eq _ _ _ _ Hroom).
    rewrite decide_False by (by eapply jsmap_get_Some_length).
    split; [reflexivity|]. done.
  - exists room, user. by rewrite removeUser_lookup_ne.
Qed.

Lemma has_entry_removeUser_gone mgr r0 u0 c :
  ¬ has_entry (fst (removeUser mgr r0 u0)) r0 u0 c.
Proof.
  intros (room & user & Hroom & Hget & _).
  destruct (rooms mgr !! r0) as [room0|] eqn:Hold.
  - rewrite (removeUser_lookup_eq _ _ _ _ Hold) in Hroom.
    case_decide; [done|]. injection Hroom as <-. cbn [users] in Hget.
    by rewrite jsmap_get_delete_eq in Hget.
  - unfold removeUser in Hroom. rewrite Hold in Hroom. cbn [fst] in Hroom.
    congruence.
Qed.

Lemma mgr_shrinks_refl mgr : mgr_shrinks mgr mgr.
Proof. intros r room' H. by exists room'. Qed.

Lemma ids_bounded_shrink mgr mgr' :
  mgr_shrinks mgr mgr' → ids_bounded mgr → ids_bounded mgr'.
Proof.
  intros H Hb r room' u user Hroom' Hget.
  destruct (H r room' Hroom') as (room & Hroom & -> & Hsub).
  destruct (Hsub u) as [user0 Hget0]; [by eexists|].
  by eapply Hb.
Qed.

Lemma counters_positive_shrink mgr mgr' :
  mgr_shrinks mgr mgr' → counters_positive mgr → counters_positive mgr'.
Proof.
  intros H Hp r room' Hroom'.
  destruct (H r room' Hroom') as (room & Hroom & -> & _). by eapply Hp.
Qed.

Lemma removeUser_shrinks mgr r0 u0 :
  mgr_shrinks mgr (fst (removeUser mgr r0 u0)).
Proof.
  intros r room' Hroom'.
  destruct (decide (r = r0)) as [->|Hr].
  - destruct (rooms mgr !! r0) as [room0|] eqn:Hold.
    + rewrite (removeUser_lookup_eq _ _ _ _ Hold) in Hroom'.
      case_decide; [done|]. injection Hroom' as <-.
      exists room0. split; [done|]. split; [done|].
      cbn [users]. intros u [user Hget].
      destruct (decide (u0 = u)) as [->|Hu].
      * by rewrite jsmap_get_delete_eq in Hget.
      * rewrite jsmap_get_delete_ne in Hget by done. by eexists.
    + unfold removeUser in Hroom'. rewrite Hold in Hroom'. cbn [fst] in Hroom'.
      congruence.
  - rewrite removeUser_lookup_ne in Hroom' by done. by exists room'.
Qed.

Lemma updateUserCursor_shrinks mgr r0 u0 cursor :
  mgr_shrinks mgr (fst (updateUserCursor mgr r0 u0 cursor)).
Proof.
  intros r room'. unfold updateUserCursor.
  destruct (rooms mgr !! r0) as [room0|] eqn:Hold; [|by exists room'].
  destruct (jsmap_get (users room0) u0) as [user0|] eqn:Hget0; [|by exists room'].
  cbn [fst rooms]. destruct (decide (r = r0)) as [->|Hr].
  - rewrite lookup_insert_eq. intros [= <-]. exists room0.
    split; [done|]. split; [done|]. cbn [users]. intros u Hu.
    destruct (decide (u0 = u)) as [<-|Hne]; [by eexists|].
    by rewrite jsmap_get_set_ne in Hu.
  - rewrite lookup_insert_ne by done. by exists room'.
Qed.

Lemma has_entry_updateUserCursor mgr r u c r0 u0 cursor :
  has_entry mgr r u c → has_entry (fst (updateUserCursor mgr r0 u0 cursor)) r u c.
Proof.
  intros (room & user & Hroom & Hget & Hws). unfold updateUserCursor.
  destruct (rooms mgr !! r0) as [room0|] eqn:Hold; [|by exists room, user].
  destruct (jsmap_get (users room0) u0) as [user0|] eqn:Hget0;
    [|by exists room, user].
  cbn [fst]. destruct (decide (r = r0)) as [->|Hr].
  - assert (room0 = room) as -> by congruence.
    destruct (decide (u0 = u)) as [->|Hu].
    + assert (user0 = user) as -> by congruence.
      eexists _, _. cbn [rooms]. rewrite lookup_insert_eq.
      split; [reflexivity|]. cbn [users]. rewrite jsmap_get_set_eq.
      split; [reflexivity|]. done.
    + eexists _, user. cbn [rooms]. rewrite lookup_insert_eq.
      split; [reflexivity|]. cbn [users]. by rewrite jsmap_get_set_ne.
  - exists room, user. cbn [rooms]. by rewrite lookup_insert_ne.
Qed.

Lemma ids_bounded_addUser mgr r ws username :
  ids_bounded mgr → ids_bounded (fst (addUser mgr r ws username)).
Proof.
  intros Hb r' room' u user Hroom' Hget.
  destruct (addUser_spec mgr r ws username)
    as (Hnew & Hother & _ & Hid & _ & _ & Hus & Hnext & _).
  destruct (decide (r' = r)) as [->|Hr].
  - rewrite Hnew in Hroom'. injection Hroom' as <-.
    rewrite Hnext. rewrite Hus in Hget.
    destruct (rooms mgr !! r) as [room|] eqn:Hold.
    + destruct (decide (nextUserId room = u)) as [<-|Hu]; [lia|].
      rewrite jsmap_get_set_ne in Hget by done.
      pose proof (Hb r room u user Hold Hget). lia.
    + destruct (decide (1%nat = u)) as [<-|Hu]; [lia|].
      by rewrite jsmap_get_set_ne in Hget.
  - rewrite Hother in Hroom' by done. by eapply Hb.
Qed.

Lemma counters_positive_addUser mgr r ws username :
  counters_positive mgr → counters_positive (fst (addUser mgr r ws username)).
Proof.
  intros Hp r' room' Hroom'.
  destruct (addUser_spec mgr r ws username)
    as (Hnew & Hother & _ & _ & _ & _ & _ & Hnext & _).
  destruct (decide (r' = r)) as [->|Hr].
  - rewrite Hnew in Hroom'. injection Hroom' as <-. rewrite Hnext. lia.
  - rewrite Hother in Hroom' by done. by eapply Hp.
Qed.

Lemma has_entry_functional mgr r u c c' :
  has_entry mgr r u c → has_entry mgr r u c' → c = c'.
Proof.
  intros (room & user & Hroom & Hget & <-) (room' & user' & Hroom' & Hget' & <-).
  congruence.
Qed.

Lemma has_entry_addUser_new mgr r ws username :
  has_entry (fst (addUser mgr r ws username)) r
    (user_id (fst (snd (addUser mgr r ws username)))) ws.
Proof.
  destruct (addUser_spec mgr r ws username)
    as (Hnew & _ & _ & Hid & Hws & _ & Hus & _).
  eexists _, _. split; [exact Hnew|]. rewrite Hus, Hid.
  split; [apply jsmap_get_set_eq|exact Hws].
Qed.

Lemma has_entry_addUser_old mgr r ws username r1 u1 c :
  ids_bounded mgr → has_entry mgr r1 u1 c →
  has_entry (fst (addUser mgr r ws username)) r1 u1 c.
Proof.
  intros Hb (room & user & Hroom & Hget & Hws).
  destruct (addUser_spec mgr r ws username)
    as (Hnew & Hother & _ & _ & _ & _ & Hus & _).
  destruct (decide (r1 = r)) as [->|Hr].
  - eexists _, user. split; [exact Hnew|]. rewrite Hus, Hroom.
    pose proof (Hb r room u1 user Hroom Hget).
    rewrite jsmap_get_set_ne by lia. done.
  - exists room, user. by rewrite Hother.
Qed.

(** The id given by [addUser] is new in its room. *)
Lemma addUser_id_fresh mgr r ws username c :
  ids_bounded mgr →
  ¬ has_entry mgr r (user_id (fst (snd (addUser mgr r ws username)))) c.
Proof.
  intros Hb (room & user & Hroom & Hget & _).
  destruct (addUser_spec mgr r ws username) as (_ & _ & _ & Hid & _).
  rewrite Hid, Hroom in Hget.
  pose proof (Hb r room _ user Hroom Hget). lia.
Qed.

End Registry.

(** ** Membership: what the handlers do to entries *)

Section Handlers.
Import Server.
Implicit Types (s : State) (c ws : Conn) (r : string) (u : nat).

Lemma keeps_members_refl s : keeps_members s s.
Proof. repeat split; auto using mgr_shrinks_refl. Qed.

Lemma keeps_members_set_drawingState s r0 room0 ds :
  RoomManager.rooms (roomManager s) !! r0 = Some room0 →
  keeps_members s (set_drawingState s r0 room0 ds).
Proof.
  intros Hroom0. split; [done|]. split; [done|]. split.
  - intros r u c (room & user & Hroom & Hget & Hws).
    unfold has_entry, set_drawingState. cbn [roomManager RoomManager.rooms].
    destruct (decide (r = r0)) as [->|Hr].
    + rewrite lookup_insert_eq. eexists _, user. split; [reflexivity|].
      cbn [users]. by replace room0 with room by congruence.
    + rewrite lookup_insert_ne by done. by exists room, user.
  - intros r room'. unfold set_drawingState.
    cbn [roomManager RoomManager.rooms].
    destruct (decide (r = r0)) as [->|Hr].
    + rewrite lookup_insert_eq. intros [= <-]. by exists room0.
    + rewrite lookup_insert_ne by done. by exists room'.
Qed.

Lemma keeps_members_cursor s r0 u0 cursor :
  keeps_members s
    (set_roomManager s
       (fst (RoomManager.updateUserCursor (roomManager s) r0 u0 cursor))).
Proof.
  split; [done|]. split; [done|]. split.
  - intros r u c. apply has_entry_updateUserCursor.
  - apply updateUserCursor_shrinks.
Qed.

Lemma current_room_Some s ws r room :
  currentRoomId (sessions s ws) = Some r → current_room s ws = Some room →
  RoomManager.rooms (roomManager s) !! r = Some room.
Proof. intros Hr. unfold current_room. by rewrite Hr. Qed.

(** The guard [if (!room) break] of a handler case: either there is no
    current room and the state is untouched, or the room is in the
    registry. *)
Ltac in_current_room s ws :=
  let Hr := fresh "Hr" in
  let Hc := fresh "Hc" in
  destruct (currentRoomId (sessions s ws)) eqn:Hr; [|apply keeps_members_refl];
  destruct (current_room s ws) eqn:Hc; [|apply keeps_members_refl];
  pose proof (current_room_Some _ _ _ _ Hr Hc).

(** Every message but [join] leaves sessions, socket states and the
    entries of all rooms in place. *)
Lemma on_message_keeps_members sendRaises now ws data s :
  (∀ roomId username, data ≠ Join roomId username) →
  keeps_members s (fst (on_message sendRaises now ws data s)).
Proof.
  intros Hdata. unfold on_message. cbv zeta.
  destruct data as [|roomId username|kind tool color lw x y|x y| | | |];
    try apply keeps_members_refl.
  - by destruct (Hdata roomId username).
  - in_current_room s ws.
    destruct kind; cbn [fst DrawingState.addOperation];
      try apply keeps_members_refl.
    by apply keeps_members_set_drawingState.
  - cbn [fst].
    destruct (currentRoomId (sessions s ws)) as [r|];
      [|destruct s; apply keeps_members_refl].
    destruct (currentUserId (sessions s ws)) as [u|];
      [|destruct s; apply keeps_members_refl].
    apply keeps_members_cursor.
  - in_current_room s ws.
    destruct (DrawingState.undo (drawingState _)) as [ds [idx ops|]];
      cbn [fst]; [|apply keeps_members_refl].
    by apply keeps_members_set_drawingState.
  - in_current_room s ws.
    destruct (DrawingState.redo (drawingState _)) as [ds [idx ops|]];
      cbn [fst]; [|apply keeps_members_refl].
    by apply keeps_members_set_drawingState.
  - in_current_room s ws.
    cbn [fst]. by apply keeps_members_set_drawingState.
Qed.

(** The state a [join] leaves. *)
Lemma on_message_join_state sendRaises now ws roomId username s :
  let res := RoomManager.addUser (roomManager s) (roomId_or_default roomId)
               ws username in
  fst (on_message sendRaises now ws (Join roomId username) s)
  = {| roomManager := fst res;
       sessions := <[ws := {| currentUserId := Some (user_id (fst (snd res)));
                              currentRoomId := Some (roomId_or_default roomId) |}]>
                     (sessions s);
       readyState := readyState s |}.
Proof.
  unfold on_message. cbv zeta.
  destruct (RoomManager.addUser (roomManager s) (roomId_or_default roomId)
              ws username) as [mgr [user room]].
  done.
Qed.

(** The state the close handler leaves. *)
Lemma on_close_state sendRaises ws s :
  fst (on_close sendRaises ws s)
  = match joined_session (sessions s ws) with
    | Some (r, u) =>
        set_roomManager s (fst (RoomManager.removeUser (roomManager s) r u))
    | None => s
    end.
Proof.
  unfold on_close. destruct (joined_session (sessions s ws)) as [[r u]|]; [|done].
  destruct (RoomManager.removeUser (roomManager s) r u) as [mgr [room|]]; done.
Qed.

Lemma joined_session_in_session s c r u :
  joined_session (sessions s c) = Some (r, u) → in_session s c r u.
Proof.
  unfold joined_session, in_session.
  destruct (currentRoomId (sessions s c)) as [[|a r0]|]; try done.
  destruct (currentUserId (sessions s c)) as [[|u0]|]; try done.
  by intros [= <- <-].
Qed.

Lemma readyState_on_message sendRaises now ws data s :
  readyState (fst (on_message sendRaises now ws data s)) = readyState s.
Proof.
  destruct data as [|roomId username|kind tool color lw x y|x y| | | |];
    [| by rewrite on_message_join_state |..];
    by (eapply on_message_keeps_members; intros ? ?).
Qed.

Lemma readyState_handle_event s e c :
  c ≠ event_conn e → readyState (fst (handle_event s e)) c = readyState s c.
Proof.
  intros Hc. destruct e as [ws data now sendRaises|ws|ws sendRaises];
    cbn [handle_event event_conn] in *.
  - by rewrite readyState_on_message.
  - cbn [fst set_readyState readyState]. by rewrite fn_lookup_insert_ne.
  - rewrite on_close_state.
    destruct (joined_session _) as [[r u]|];
      cbn [set_roomManager set_readyState readyState];
      by rewrite fn_lookup_insert_ne.
Qed.

Lemma enabled_open s e : enabled s e = true → readyState s (event_conn e) ≠ CLOSED.
Proof. unfold enabled. intros H Heq. rewrite Heq in H. done. Qed.

Lemma readyState_closed_step s e c :
  readyState s c = CLOSED → enabled s e = true →
  readyState (fst (handle_event s e)) c = CLOSED.
Proof.
  intros Hc He. rewrite readyState_handle_event; [done|].
  intros ->. by apply enabled_open in He.
Qed.

End Handlers.

(** ** Reachable states *)

Section Reachable.
Import Server.
Implicit Types (s : State) (c ws : Conn) (r : string) (u : nat).

Lemma server_inv_init : server_inv init.
Proof.
  split; [|split].
  - intros r room u user H. unfold init, RoomManager.new in H.
    cbn [roomManager RoomManager.rooms] in H. by rewrite lookup_empty in H.
  - intros r room H. unfold init, RoomManager.new in H.
    cbn [roomManager RoomManager.rooms] in H. by rewrite lookup_empty in H.
  - intros c r u _ [H _]. done.
Qed.

Lemma server_inv_keeps s s' :
  keeps_members s s' → server_inv s → server_inv s'.
Proof.
  intros (Hsess & Hrs & Hent & Hshr) (Hb & Hp & Hs). split; [|split].
  - by eapply ids_bounded_shrink.
  - by eapply counters_positive_shrink.
  - intros c r u Hopen Hin. apply Hent, Hs.
    + by rewrite <- Hrs.
    + unfold in_session in *. by rewrite <- Hsess.
Qed.

Lemma server_inv_join sendRaises now ws roomId username s :
  server_inv s →
  server_inv (fst (on_message sendRaises now ws (Join roomId username) s)).
Proof.
  intros (Hb & Hp & Hs). rewrite on_message_join_state. split; [|split].
  - by apply ids_bounded_addUser.
  - by apply counters_positive_addUser.
  - intros c r u Hopen [Hr Hu]. cbn [roomManager sessions readyState] in *.
    destruct (decide (ws = c)) as [->|Hne].
    + rewrite fn_lookup_insert in Hr, Hu. cbn in Hr, Hu.
      injection Hr as <-. injection Hu as <-. apply has_entry_addUser_new.
    + rewrite fn_lookup_insert_ne in Hr, Hu by done.
      apply has_entry_addUser_old; [done|]. by apply Hs.
Qed.

Lemma server_inv_step s e :
  server_inv s → enabled s e = true → server_inv (fst (handle_event s e)).
Proof.
  intros Hinv He. pose proof (enabled_open _ _ He) as Hopen.
  destruct e as [ws data now sendRaises|ws|ws sendRaises];
    cbn [handle_event event_conn] in *.
  - destruct data as [|roomId username|kind tool color lw x y|x y| | | |];
      [| by apply server_inv_join |..];
      (eapply server_inv_keeps; [|exact Hinv]);
      by (apply on_message_keeps_members; intros ? ?).
  - destruct Hinv as (Hb & Hp & Hs). split; [done|]. split; [done|].
    intros c r u Hc Hin. apply Hs; [|done].
    cbn [fst set_readyState readyState] in Hc.
    destruct (decide (ws = c)) as [->|Hne]; [done|].
    by rewrite fn_lookup_insert_ne in Hc.
  - destruct Hinv as (Hb & Hp & Hs). rewrite on_close_state.
    cbn [set_readyState sessions roomManager].
    assert (Hothers : ∀ c, <[ws := CLOSED]> (readyState s) c ≠ CLOSED →
                           c ≠ ws ∧ readyState s c ≠ CLOSED).
    { intros c Hc. destruct (decide (ws = c)) as [->|Hne].
      - by rewrite fn_lookup_insert in Hc.
      - by rewrite fn_lookup_insert_ne in Hc. }
    destruct (joined_session (sessions s ws)) as [[r0 u0]|] eqn:Hjs.
    + apply joined_session_in_session in Hjs.
      pose proof (Hs ws r0 u0 Hopen Hjs) as Hmine.
      split; [|split]; cbn [set_roomManager roomManager sessions readyState].
      * eapply ids_bounded_shrink; [apply removeUser_shrinks|done].
      * eapply counters_positive_shrink; [apply removeUser_shrinks|done].
      * intros c r u Hc Hin. destruct (Hothers c Hc) as [Hne Hc'].
        pose proof (Hs c r u Hc' Hin) as Hentry.
        apply has_entry_removeUser; [done|].
        destruct (decide (r = r0)) as [->|]; [|by left].
        destruct (decide (u = u0)) as [->|]; [|by right].
        destruct Hne. by eapply has_entry_functional.
    + split; [done|]. split; [done|].
      intros c r u Hc Hin. destruct (Hothers c Hc) as [_ Hc']. by apply Hs.
Qed.

Lemma reachable_server_inv s : reachable s → server_inv s.
Proof.
  induction 1 as [|s e _ IH He]; [apply server_inv_init|].
  by apply server_inv_step.
Qed.

(** A stale entry survives every event that can still happen. *)
Lemma stale_entry_step s e r u ws :
  server_inv s → stale_entry s r u ws → enabled s e = true →
  stale_entry (fst (handle_event s e)) r u ws.
Proof.
  intros (Hb & Hp & Hs) [Hentry Hnone] He.
  pose proof (enabled_open _ _ He) as Hopen.
  destruct e as [c0 data now sendRaises|c0|c0 sendRaises];
    cbn [handle_event event_conn] in *.
  - destruct data as [|roomId username|kind tool color lw x y|x y| | | |].
    2:{ rewrite on_message_join_state. split; cbn [roomManager sessions readyState].
        - by apply has_entry_addUser_old.
        - intros c Hc [Hr Hu]. cbn [roomManager sessions readyState] in *.
          destruct (decide (c0 = c)) as [->|Hne].
          + rewrite fn_lookup_insert in Hr, Hu. cbn in Hr, Hu.
            injection Hr as <-. injection Hu as <-.
            by eapply addUser_id_fresh.
          + rewrite fn_lookup_insert_ne in Hr, Hu by done.
            by apply (Hnone c Hc). }
    all: match goal with
         | |- stale_entry (fst (on_message ?sr ?n ?w ?d ?st)) _ _ _ =>
             destruct (on_message_keeps_members sr n w d st)
               as (Hsess & Hrs & Hent & _); [by intros ? ?|]
         end.
    all: split; [by apply Hent|];
      intros c Hc Hin; apply (Hnone c); [by rewrite <- Hrs|];
      unfold in_session in *; by rewrite <- Hsess.
  - split; [done|]. intros c Hc Hin. apply (Hnone c); [|done].
    cbn [fst set_readyState readyState] in Hc.
    destruct (decide (c0 = c)) as [->|Hne]; [done|].
    by rewrite fn_lookup_insert_ne in Hc.
  - rewrite on_close_state. cbn [set_readyState sessions roomManager].
    assert (Hothers : ∀ c, <[c0 := CLOSED]> (readyState s) c ≠ CLOSED →
                           readyState s c ≠ CLOSED).
    { intros c Hc. destruct (decide (c0 = c)) as [->|Hne].
      - by rewrite fn_lookup_insert in Hc.
      - by rewrite fn_lookup_insert_ne in Hc. }
    destruct (joined_session (sessions s c0)) as [[r0 u0]|] eqn:Hjs.
    + apply joined_session_in_session in Hjs.
      split; cbn [set_roomManager roomManager sessions readyState].
      * apply has_entry_removeUser; [done|].
        destruct (decide (r = r0)) as [->|]; [|by left].
        destruct (decide (u = u0)) as [->|]; [|by right].
        by destruct (Hnone c0 Hopen).
      * intros c Hc Hin. by apply (Hnone c (Hothers c Hc)).
    + split; [done|]. intros c Hc Hin. by apply (Hnone c (Hothers c Hc)).
Qed.

(** Along every trace the reachable states stay reachable, a stale entry
    stays, and a closed socket stays closed. *)
Lemma run_events_stale es s s' out r u ws :
  reachable s → stale_entry s r u ws → readyState s ws = CLOSED →
  run_events s es = Some (s', out) →
  reachable s' ∧ stale_entry s' r u ws ∧ readyState s' ws = CLOSED.
Proof.
  revert s out. induction es as [|e es IH]; intros s out Hreach Hstale Hclosed Hrun.
  - injection Hrun as <- _. done.
  - cbn [run_events] in Hrun. destruct (enabled s e) eqn:He; [|done].
    destruct (handle_event s e) as [s1 [out1 res]] eqn:Hstep.
    destruct (run_events s1 es) as [[s2 out2]|] eqn:Hrest; [|done].
    injection Hrun as <- _.
    assert (Hs1 : s1 = fst (handle_event s e)) by (by rewrite Hstep).
    apply (IH s1 out2); [| | |done]; subst s1.
    + by apply reachable_step.
    + apply stale_entry_step; [by apply reachable_server_inv|done|done].
    + by apply readyState_closed_step.
Qed.

(** The same along a trace on which the connection may still be open. *)
Lemma run_events_stale_open es s s' out r u ws :
  reachable s → stale_entry s r u ws →
  run_events s es = Some (s', out) →
  reachable s' ∧ stale_entry s' r u ws.
Proof.
  revert s out. induction es as [|e es IH]; intros s out Hreach Hstale Hrun.
  - injection Hrun as <- _. done.
  - cbn [run_events] in Hrun. destruct (enabled s e) eqn:He; [|done].
    destruct (handle_event s e) as [s1 [out1 res]] eqn:Hstep.
    destruct (run_events s1 es) as [[s2 out2]|] eqn:Hrest; [|done].
    injection Hrun as <- _.
    assert (Hs1 : s1 = fst (handle_event s e)) by (by rewrite Hstep).
    apply (IH s1 out2); [| |done]; subst s1.
    + by apply reachable_step.
    + apply stale_entry_step; [by apply reachable_server_inv|done|done].
Qed.

(** The closure variables of a connection change only at its own joins. *)
Lemma sessions_step s e ws :
  ¬ joins_on ws e → sessions (fst (handle_event s e)) ws = sessions s ws.
Proof.
  intros Hj. destruct e as [c0 data now sendRaises|c0|c0 sendRaises];
    cbn [handle_event].
  - destruct data as [|roomId username|kind tool color lw x y|x y| | | |].
    2:{ rewrite on_message_join_state. cbn [sessions].
        rewrite fn_lookup_insert_ne; [done|]. intros ->. by apply Hj. }
    all: match goal with
         | |- sessions (fst (on_message ?sr ?n ?w ?d ?st)) _ = _ =>
             destruct (on_message_keeps_members sr n w d st) as (Hsess & _);
               [by intros ? ?|]
         end.
    all: by rewrite Hsess.
  - done.
  - rewrite on_close_state. by destruct (joined_session _) as [[r u]|].
Qed.

(** After a join the closure variables pass the close handler's test. *)
Lemma joined_session_join sendRaises now ws roomId username s :
  counters_positive (roomManager s) →
  joined_session
    (sessions (fst (on_message sendRaises now ws (Join roomId username) s)) ws)
  = Some (roomId_or_default roomId,
          user_id (fst (snd (RoomManager.addUser (roomManager s)
                               (roomId_or_default roomId) ws username)))).
Proof.
  intros Hp. rewrite on_message_join_state. cbn [sessions].
  rewrite fn_lookup_insert. unfold joined_session.
  cbn [currentRoomId currentUserId].
  destruct (addUser_spec (roomManager s) (roomId_or_default roomId) ws username)
    as (_ & _ & _ & Hid & _).
  assert (Hu : (1 ≤ user_id (fst (snd (RoomManager.addUser (roomManager s)
                                         (roomId_or_default roomId) ws username))))%nat).
  { rewrite Hid.
    destruct (RoomManager.rooms (roomManager s) !! roomId_or_default roomId)
      as [room|] eqn:Hroom; [by eapply Hp|lia]. }
  destruct (user_id _) as [|k]; [lia|].
  unfold roomId_or_default. by destruct roomId as [[|a r]|].
Qed.

Lemma joined_session_step s e ws :
  server_inv s → is_Some (joined_session (sessions s ws)) →
  is_Some (joined_session (sessions (fst (handle_event s e)) ws)).
Proof.
  intros (_ & Hp & _) Hjs.
  assert (Hcase : joins_on ws e ∨ ¬ joins_on ws e).
  { destruct e as [c0 data now sendRaises|c0|c0 sendRaises];
      [|right; intros []|right; intros []].
    destruct data as [|roomId username|kind tool color lw x y|x y| | | |];
      cbn [joins_on]; try solve [right; intros []].
    destruct (decide (c0 = ws)); [by left|by right]. }
  destruct Hcase as [Hj|Hj]; [|by rewrite sessions_step].
  destruct e as [c0 data now sendRaises|c0|c0 sendRaises]; [|done|done].
  destruct data as [|roomId username|kind tool color lw x y|x y| | | |];
    try done.
  cbn [joins_on] in Hj. subst c0. cbn [handle_event].
  by rewrite joined_session_join.
Qed.

Lemma run_events_joined es s s' out ws :
  reachable s → is_Some (joined_session (sessions s ws)) →
  run_events s es = Some (s', out) →
  is_Some (joined_session (sessions s' ws)).
Proof.
  revert s out. induction es as [|e es IH]; intros s out Hreach Hjs Hrun.
  - injection Hrun as <- _. done.
  - cbn [run_events] in Hrun. destruct (enabled s e) eqn:He; [|done].
    destruct (handle_event s e) as [s1 [out1 res]] eqn:Hstep.
    destruct (run_events s1 es) as [[s2 out2]|] eqn:Hrest; [|done].
    injection Hrun as <- _.
    assert (Hs1 : s1 = fst (handle_event s e)) by (by rewrite Hstep).
    apply (IH s1 out2); [| |done]; subst s1.
    + by apply reachable_step.
    + apply joined_session_step; [by apply reachable_server_inv|done].
Qed.

Lemma run_events_sessions es s s' out ws :
  Forall (fun e => ¬ joins_on ws e) es →
  run_events s es = Some (s', out) →
  sessions s' ws = sessions s ws.
Proof.
  revert s out. induction es as [|e es IH]; intros s out Hes Hrun.
  - by injection Hrun as <- _.
  - cbn [run_events] in Hrun. destruct (enabled s e) eqn:He; [|done].
    destruct (handle_event s e) as [s1 [out1 res]] eqn:Hstep.
    destruct (run_events s1 es) as [[s2 out2]|] eqn:Hrest; [|done].
    injection Hrun as <- _.
    apply Forall_cons in Hes as [Hj Hes].
    rewrite (IH s1 out2 Hes Hrest).
    assert (Hs1 : s1 = fst (handle_event s e)) by (by rewrite Hstep).
    subst s1. by apply sessions_step.
Qed.

End Reachable.

(** C10. A [join] on a connection that has already joined (room [r1], id
    [u1]) is handled like a first join: the connection gets a new
    participant entry in the room named by the message, with that room's next
    id, which no entry of the room has, and the next palette color; its
    closure variables now name the new membership; the earlier entry stays.
    From then on the earlier entry is in its room in every state the server
    goes through, whatever events follow. Whenever the connection closes,
    right away or after any events ([mid]), the close handler removes the
    one entry the closure variables name at that moment, which is never the
    earlier one and is the new entry when the connection has sent no further
    join, and keeps every other entry. After the close the earlier entry
    remains in its room on the closed connection, whatever events follow. *)
Theorem rejoin_leaves_stale_participant
    (s : Server.State) (ws : Conn) (r1 : string) (u1 : nat)
    (roomId username : option string) (sendRaises sendRaises' : Conn → bool)
    (now : Z) :
  Server.reachable s →
  Server.readyState s ws ≠ CLOSED →
  in_session s ws r1 u1 →
  let r2 := Server.roomId_or_default roomId in
  let new_user :=
    fst (snd (RoomManager.addUser (Server.roomManager s) r2 ws username)) in
  let u2 := user_id new_user in
  let joined := Server.on_message sendRaises now ws (Join roomId username) s in
  let s1 := fst joined in
  let s2 := fst (Server.handle_event s1 (Server.EvClose ws sendRaises')) in
  in_session s1 ws r2 u2
  ∧ has_entry (Server.roomManager s1) r2 u2 ws
  ∧ (∀ c, ¬ has_entry (Server.roomManager s) r2 u2 c)
  ∧ u2 = match RoomManager.rooms (Server.roomManager s) !! r2 with
         | Some room => nextUserId room
         | None => 1%nat
         end
  ∧ user_color new_user
    = default "" (RoomManager.userColors
                    !! (RoomManager.colorIndex (Server.roomManager s) mod 8)%nat)
  ∧ RoomManager.colorIndex (Server.roomManager s1)
    = S (RoomManager.colorIndex (Server.roomManager s))
  ∧ (sendRaises ws = false →
     ∃ ops us rest,
       fst (snd joined)
       = (ws, Joined u2 (user_color new_user) (user_username new_user) ops us)
         :: rest)
  ∧ has_entry (Server.roomManager s1) r1 u1 ws
  ∧ (∀ c, ¬ has_entry (Server.roomManager s2) r2 u2 c)
  ∧ has_entry (Server.roomManager s2) r1 u1 ws
  ∧ Server.readyState s2 ws = CLOSED
  ∧ (∀ es s3 out,
       Server.run_events s2 es = Some (s3, out) →
       has_entry (Server.roomManager s3) r1 u1 ws
       ∧ Server.readyState s3 ws = CLOSED)
  ∧ (∀ es s3 out,
       Server.run_events s1 es = Some (s3, out) →
       has_entry (Server.roomManager s3) r1 u1 ws)
  ∧ ∀ mid sm outm sendRaises2,
      Server.run_events s1 mid = Some (sm, outm) →
      Server.readyState sm ws ≠ CLOSED →
      let sc := fst (Server.handle_event sm (Server.EvClose ws sendRaises2)) in
      ∃ rc uc,
        Server.joined_session (Server.sessions sm ws) = Some (rc, uc)
        ∧ (r1 ≠ rc ∨ u1 ≠ uc)
        ∧ (Forall (fun e => ¬ joins_on ws e) mid → rc = r2 ∧ uc = u2)
        ∧ (∀ c, ¬ has_entry (Server.roomManager sc) rc uc c)
        ∧ (∀ r u c, has_entry (Server.roomManager sm) r u c →
                    r ≠ rc ∨ u ≠ uc →
                    has_entry (Server.roomManager sc) r u c)
        ∧ has_entry (Server.roomManager sc) r1 u1 ws
        ∧ Server.readyState sc ws = CLOSED
        ∧ ∀ es s3 out,
            Server.run_events sc es = Some (s3, out) →
            has_entry (Server.roomManager s3) r1 u1 ws
            ∧ Server.readyState s3 ws = CLOSED.
Proof.
  intros Hreach Hopen Hin r2 new_user u2 joined s1 s2.
  pose proof (reachable_server_inv s Hreach) as (Hb & Hp & Hs).
  pose proof (Hs ws r1 u1 Hopen Hin) as Hold.
  destruct (addUser_spec (Server.roomManager s) r2 ws username)
    as (Hnew & Hother & Hci & Hid & Hws & Hcol & Hus & Hnext & _).
  fold new_user in Hid, Hws, Hcol, Hus. fold u2 in Hid.
  assert (Hs1 : s1 = {| Server.roomManager :=
                          fst (RoomManager.addUser (Server.roomManager s) r2 ws username);
                        Server.sessions :=
                          <[ws := {| Server.currentUserId := Some u2;
                                     Server.currentRoomId := Some r2 |}]>
                            (Server.sessions s);
                        Server.readyState := Server.readyState s |}).
  { subst s1 joined. apply on_message_join_state. }
  assert (Hfresh : ∀ c, ¬ has_entry (Server.roomManager s) r2 u2 c).
  { intros c. by apply addUser_id_fresh. }
  assert (Hin1 : in_session s1 ws r2 u2).
  { rewrite Hs1. unfold in_session. cbn [Server.sessions].
    by rewrite fn_lookup_insert. }
  assert (Hentry1 : has_entry (Server.roomManager s1) r2 u2 ws).
  { rewrite Hs1. apply has_entry_addUser_new. }
  assert (Hold1 : has_entry (Server.roomManager s1) r1 u1 ws).
  { rewrite Hs1. by apply has_entry_addUser_old. }
  assert (Hreach1 : Server.reachable s1).
  { apply (Server.reachable_step s (Server.EvMessage ws (Join roomId username)
                                      now sendRaises)); [done|].
    unfold Server.enabled. cbn [Server.event_conn].
    destruct (Z.eqb_spec (Server.readyState s ws) CLOSED); done. }
  assert (Hopen1 : Server.enabled s1 (Server.EvClose ws sendRaises') = true).
  { unfold Server.enabled. cbn [Server.event_conn]. rewrite Hs1.
    cbn [Server.readyState].
    destruct (Z.eqb_spec (Server.readyState s ws) CLOSED); done. }
  assert (Hu2 : (1 ≤ u2)%nat).
  { rewrite Hid. destruct (RoomManager.rooms (Server.roomManager s) !! r2)
      as [room|] eqn:Hroom; [by eapply Hp|lia]. }
  assert (Hjs : Server.joined_session (Server.sessions s1 ws) = Some (r2, u2)).
  { destruct Hin1 as [Hr Hu]. unfold Server.joined_session. rewrite Hr, Hu.
    subst r2. destruct u2 as [|k]; [lia|].
    unfold Server.roomId_or_default. by destruct roomId as [[|a r]|]. }
  assert (Hs2 : s2 = Server.set_roomManager (Server.set_readyState s1 ws CLOSED)
                       (fst (RoomManager.removeUser (Server.roomManager s1) r2 u2))).
  { subst s2. cbn [Server.handle_event]. rewrite on_close_state.
    cbn [Server.set_readyState Server.sessions Server.roomManager].
    by rewrite Hjs. }
  assert (Hne : r1 ≠ r2 ∨ u1 ≠ u2).
  { destruct (decide (r1 = r2)) as [->|]; [|by left].
    destruct (decide (u1 = u2)) as [->|]; [|by right].
    by destruct (Hfresh ws). }
  assert (Hold2 : has_entry (Server.roomManager s2) r1 u1 ws).
  { rewrite Hs2. cbn [Server.set_roomManager Server.roomManager].
    by apply has_entry_removeUser. }
  assert (Hclosed2 : Server.readyState s2 ws = CLOSED).
  { rewrite Hs2. cbn [Server.set_roomManager Server.set_readyState
                      Server.readyState].
    by rewrite fn_lookup_insert. }
  assert (Hreach2 : Server.reachable s2) by (by apply Server.reachable_step).
  assert (Hstale2 : stale_entry s2 r1 u1 ws).
  { split; [done|]. intros c Hc [Hr Hu]. rewrite Hs2, Hs1 in Hc, Hr, Hu.
    cbn [Server.set_roomManager Server.set_readyState Server.readyState
         Server.sessions] in Hc, Hr, Hu.
    destruct (decide (ws = c)) as [->|Hcne].
    - by rewrite fn_lookup_insert in Hc.
    - rewrite fn_lookup_insert_ne in Hc by done.
      rewrite fn_lookup_insert_ne in Hr by done.
      rewrite fn_lookup_insert_ne in Hu by done.
      assert (Hc1 : has_entry (Server.roomManager s) r1 u1 c)
        by (apply Hs; [done|by split]).
      destruct Hcne. exact (has_entry_functional _ _ _ _ _ Hold Hc1). }
  assert (Hci1 : RoomManager.colorIndex (Server.roomManager s1)
                 = S (RoomManager.colorIndex (Server.roomManager s)))
    by (by rewrite Hs1).
  assert (Hwelcome : sendRaises ws = false →
            ∃ ops us rest,
              fst (snd joined)
              = (ws, Joined u2 (user_color new_user) (user_username new_user)
                       ops us) :: rest).
  { intros Hok. subst joined. unfold Server.on_message. cbv zeta.
    fold r2. subst u2 new_user.
    destruct (RoomManager.addUser (Server.roomManager s) r2 ws username)
      as [mgr [user room]].
    cbn [fst snd]. unfold ws_send at 1. rewrite Hok. unfold eff_bind at 1.
    match goal with
    | |- context [Server.broadcast ?a ?b ?c ?d ?e] =>
        destruct (Server.broadcast a b c d e) as [o [[]|]]
    end; cbn [try_catch fst app].
    - by eexists _, _, _.
    - destruct (ws_send sendRaises ws Server.error_reply) as [o' res'].
      cbn [fst app]. by eexists _, _, _. }
  assert (Hgone : ∀ c, ¬ has_entry (Server.roomManager s2) r2 u2 c).
  { intros c. rewrite Hs2. cbn [Server.set_roomManager Server.roomManager].
    apply has_entry_removeUser_gone. }
  assert (Hperm : ∀ es s3 out,
            Server.run_events s2 es = Some (s3, out) →
            has_entry (Server.roomManager s3) r1 u1 ws
            ∧ Server.readyState s3 ws = CLOSED).
  { intros es s3 out Hrun.
    destruct (run_events_stale es s2 s3 out r1 u1 ws Hreach2 Hstale2 Hclosed2 Hrun)
      as (_ & [H3 _] & Hc3).
    done. }
  assert (Hstale1 : stale_entry s1 r1 u1 ws).
  { split; [done|]. intros c Hc [Hr Hu]. rewrite Hs1 in Hc, Hr, Hu.
    cbn [Server.readyState Server.sessions] in Hc, Hr, Hu.
    destruct (decide (ws = c)) as [<-|Hcne].
    - rewrite fn_lookup_insert in Hr. rewrite fn_lookup_insert in Hu.
      cbn in Hr, Hu. destruct Hne as [H|H]; apply H; congruence.
    - rewrite fn_lookup_insert_ne in Hr by done.
      rewrite fn_lookup_insert_ne in Hu by done.
      assert (Hc1 : has_entry (Server.roomManager s) r1 u1 c)
        by (apply Hs; [done|by split]).
      destruct Hcne. exact (has_entry_functional _ _ _ _ _ Hold Hc1). }
  assert (Halways : ∀ es s3 out,
            Server.run_events s1 es = Some (s3, out) →
            has_entry (Server.roomManager s3) r1 u1 ws).
  { intros es s3 out Hrun.
    by destruct (run_events_stale_open es s1 s3 out r1 u1 ws Hreach1 Hstale1 Hrun)
      as (_ & [H3 _]). }
  split; [exact Hin1|]. split; [exact Hentry1|]. split; [exact Hfresh|].
  split; [exact Hid|]. split; [exact Hcol|]. split; [exact Hci1|].
  split; [exact Hwelcome|]. split; [exact Hold1|]. split; [exact Hgone|].
  split; [exact Hold2|]. split; [exact Hclosed2|]. split; [exact Hperm|].
  split; [exact Halways|].
  intros mid sm outm sendRaises2 Hrun Hopenm sc.
  destruct (run_events_stale_open mid s1 sm outm r1 u1 ws Hreach1 Hstale1 Hrun)
    as (Hreachm & Hstalem).
  assert (Hjm : is_Some (Server.joined_session (Server.sessions sm ws))).
  { eapply run_events_joined; [exact Hreach1| |exact Hrun]. by rewrite Hjs. }
  destruct Hjm as [[rc uc] Hjm]. exists rc, uc.
  pose proof (joined_session_in_session _ _ _ _ Hjm) as Hinm.
  assert (Hnem : r1 ≠ rc ∨ u1 ≠ uc).
  { destruct (decide (r1 = rc)) as [->|]; [|by left].
    destruct (decide (u1 = uc)) as [->|]; [|by right].
    by destruct (proj2 Hstalem ws Hopenm). }
  assert (Hsc : sc = Server.set_roomManager (Server.set_readyState sm ws CLOSED)
                       (fst (RoomManager.removeUser (Server.roomManager sm) rc uc))).
  { subst sc. cbn [Server.handle_event]. rewrite on_close_state.
    cbn [Server.set_readyState Server.sessions Server.roomManager].
    by rewrite Hjm. }
  assert (Hem : Server.enabled sm (Server.EvClose ws sendRaises2) = true).
  { unfold Server.enabled. cbn [Server.event_conn].
    destruct (Z.eqb_spec (Server.readyState sm ws) CLOSED); done. }
  assert (Hstalec : stale_entry sc r1 u1 ws).
  { subst sc. apply stale_entry_step; [by apply reachable_server_inv|done|done]. }
  assert (Hreachc : Server.reachable sc)
    by (subst sc; by apply Server.reachable_step).
  assert (Hclosedc : Server.readyState sc ws = CLOSED).
  { rewrite Hsc. cbn [Server.set_roomManager Server.set_readyState
                      Server.readyState].
    by rewrite fn_lookup_insert. }
  split; [exact Hjm|]. split; [exact Hnem|]. split.
  { intros Hnj.
    pose proof (run_events_sessions mid s1 sm outm ws Hnj Hrun) as Hsess.
    rewrite Hsess, Hjs in Hjm. by injection Hjm as <- <-. }
  split.
  { intros c. rewrite Hsc. cbn [Server.set_roomManager Server.roomManager].
    apply has_entry_removeUser_gone. }
  split.
  { intros r u c He Hn. rewrite Hsc.
    cbn [Server.set_roomManager Server.set_readyState Server.roomManager].
    by apply has_entry_removeUser. }
  split; [exact (proj1 Hstalec)|]. split; [exact Hclosedc|].
  intros es s3 out Hrun3.
  destruct (run_events_stale es sc s3 out r1 u1 ws Hreachc Hstalec Hclosedc Hrun3)
    as (_ & [H3 _] & Hc3).
  done.
Qed.

Lemma rejoin_leaves_stale_participant_witness :
  let nr : Conn → bool := fun _ => false in
  let s1 := fst (Server.on_message nr 200 0%nat (Join (Some "r2") None) one_joined) in
  let s2 := fst (Server.handle_event s1 (Server.EvClose 0%nat nr)) in
  let es := [Server.EvMessage 1%nat (Join (Some "r") None) 300 nr;
             Server.EvMessage 1%nat Clear 301 nr;
             Server.EvClose 1%nat nr] in
  let mid := [Server.EvMessage 1%nat (Join (Some "r") None) 250 nr;
              Server.EvMessage 0%nat (Draw DrawEnd "brush" "#000000" 3 1 1) 251 nr;
              Server.EvMessage 1%nat Undo 252 nr] in
  let sm := match Server.run_events s1 mid with
            | Some (sm, _) => sm
            | None => s1
            end in
  let sc := fst (Server.handle_event sm (Server.EvClose 0%nat nr)) in
  has_entry (Server.roomManager s1) "r2" 1 0
  ∧ has_entry (Server.roomManager s1) "r" 1 0
  ∧ ¬ has_entry (Server.roomManager s2) "r2" 1 0
  ∧ (∃ s3 out, Server.run_events s2 es = Some (s3, out)
               ∧ has_entry (Server.roomManager s3) "r" 1 0
               ∧ Server.readyState s3 0%nat = CLOSED)
  ∧ has_entry (Server.roomManager sm) "r" 1 0
  ∧ ¬ has_entry (Server.roomManager sc) "r2" 1 0
  ∧ has_entry (Server.roomManager sc) "r" 1 0
  ∧ has_entry (Server.roomManager sc) "r" 2 1
  ∧ Server.readyState sc 0%nat = CLOSED.
Proof.
  intros nr s1 s2 es mid sm sc.
  assert (Hreach : Server.reachable one_joined).
  { change one_joined
      with (fst (Server.handle_event Server.init
                   (Server.EvMessage 0%nat (Join (Some "r") (Some "ann")) 100 nr))).
    apply Server.reachable_step; [apply Server.reachable_init|reflexivity]. }
  assert (Hopen : Server.readyState one_joined 0%nat ≠ CLOSED)
    by (vm_compute; discriminate).
  assert (Hin : in_session one_joined 0%nat "r" 1%nat) by (split; reflexivity).
  pose proof (rejoin_leaves_stale_participant one_joined 0%nat "r" 1%nat
                (Some "r2") None nr nr 200%Z Hreach Hopen Hin) as H.
  cbv zeta in H.
  destruct H as (_ & Hnew & _ & _ & _ & _ & _ & Hold & Hgone & _ & _ & Hperm
                 & Halways & Hlate).
  split; [exact Hnew|]. split; [exact Hold|]. split; [exact (Hgone 0%nat)|].
  split.
  { destruct (Server.run_events s2 es) as [[s3 out]|] eqn:Hrun;
      [|vm_compute in Hrun; discriminate].
    exists s3, out. split; [reflexivity|]. exact (Hperm es s3 out Hrun). }
  set (outm := match Server.run_events s1 mid with
               | Some (_, out) => out
               | None => []
               end).
  assert (Hrun : Server.run_events s1 mid = Some (sm, outm))
    by (vm_compute; reflexivity).
  assert (Hopenm : Server.readyState sm 0%nat ≠ CLOSED)
    by (vm_compute; discriminate).
  split; [exact (Halways mid sm outm Hrun)|].
  destruct (Hlate mid sm outm nr Hrun Hopenm)
    as (rc & uc & _ & _ & Hsame & Hgonec & Hkeep & Holdc & Hclosedc & _).
  destruct Hsame as [-> ->].
  { constructor; [intros [=]|]. constructor; [intros []|].
    constructor; [intros []|]. constructor. }
  split; [exact (Hgonec 0%nat)|]. split; [exact Holdc|].
  split; [|exact Hclosedc].
  apply Hkeep; [|by left].
  exists (default (mkRoom "" [] DrawingState.new 0)
            (RoomManager.rooms (Server.roomManager sm) !! "r")).
  eexists. vm_compute. split; [reflexivity|]. split; reflexivity.
Defined.

(** ** What a gesture leaves in the log, in general *)

Lemma draw_start_move_not_logged sendRaises now ws kind tool color lw x y s :
  kind ≠ DrawEnd →
  fst (Server.on_message sendRaises now ws (Draw kind tool color lw x y) s) = s.
Proof.
  intros Hk. unfold Server.on_message. cbv zeta.
  destruct (Server.currentRoomId (Server.sessions s ws)); [|done].
  destruct (Server.current_room s ws); [|done].
  by destruct kind.
Qed.

Lemma draw_end_logs_one_point sendRaises now ws tool color lw x y s r room :
  Server.currentRoomId (Server.sessions s ws) = Some r →
  RoomManager.rooms (Server.roomManager s) !! r = Some room →
  let s' := fst (Server.on_message sendRaises now ws
                   (Draw DrawEnd tool color lw x y) s) in
  let record :=
    {| op_type := DrawEnd;
       op_userId := Server.currentUserId (Server.sessions s ws);
       op_tool := tool; op_color := color; op_lineWidth := lw;
       op_x := x; op_y := y; op_timestamp := now;
       op_operationId :=
         Some (DrawingState.currentIndex (drawingState room) + 1)%Z |} in
  Server.sessions s' = Server.sessions s
  ∧ ∃ room', RoomManager.rooms (Server.roomManager s') !! r = Some room'
             ∧ users room' = users room
             ∧ DrawingState.operations (drawingState room')
               = DrawingState.getVisibleOperations (drawingState room) ++ [record].
Proof.
  intros Hr Hroom s' record. subst s'. unfold Server.on_message. cbv zeta.
  rewrite Hr, (current_room_lookup s ws r room Hr Hroom).
  cbn [DrawingState.addOperation fst Server.set_drawingState Server.sessions
       Server.roomManager RoomManager.rooms DrawingState.operations].
  split; [done|]. eexists. rewrite lookup_insert_eq. split; [reflexivity|].
  cbn [users drawingState DrawingState.operations]. split; [done|].
  unfold DrawingState.getVisibleOperations.
  rewrite length_app. cbn [length].
  rewrite Nat.add_1_r, Nat.pred_succ, insert_app_r_alt by lia.
  by rewrite Nat.sub_diag.
Qed.

(** After any gesture (begin, [k] continues, finish) of a joined connection
    the room's log is its old visible prefix followed by one record, built
    from the finish message alone. *)
Lemma gesture_logs_one_single_point_record
    sendRaises ws tool color lw begin moves finish s r room :
  Server.currentRoomId (Server.sessions s ws) = Some r →
  RoomManager.rooms (Server.roomManager s) !! r = Some room →
  let s' := feed sendRaises ws s (gesture tool color lw begin moves finish) in
  ∃ room' record,
    RoomManager.rooms (Server.roomManager s') !! r = Some room'
    ∧ DrawingState.operations (drawingState room')
      = DrawingState.getVisibleOperations (drawingState room) ++ [record]
    ∧ op_type record = DrawEnd
    ∧ op_points record = [fst finish].
Proof.
  intros Hr Hroom s'. subst s'. unfold gesture, feed.
  cbn [foldl fst snd]. rewrite draw_start_move_not_logged by done.
  rewrite foldl_app. cbn [foldl fst snd].
  assert (Hmoves : ∀ ms,
            foldl (fun s0 m => fst (Server.on_message sendRaises (snd m) ws (fst m) s0)) s
              (map (fun p : Z * Z * Z =>
                      (Draw DrawMove tool color lw (fst (fst p)) (snd (fst p)), snd p)) ms)
            = s).
  { induction ms as [|m ms IH]; [done|]. cbn [map foldl fst snd].
    by rewrite draw_start_move_not_logged. }
  rewrite Hmoves.
  destruct (draw_end_logs_one_point sendRaises (snd finish) ws tool color lw
              (fst (fst finish)) (snd (fst finish)) s r room Hr Hroom)
    as (_ & room' & Hroom' & _ & Hops).
  eexists room', _. split; [exact Hroom'|]. split; [exact Hops|].
  split; [done|]. unfold op_points. cbn [op_x op_y]. by destruct finish as [[]].
Qed.

(** * Further properties of the code *)

(** ** The operation log: how its operations compose *)

Section LogComposition.
Context {A : Type}.
Implicit Types (st : DrawingState.t A) (s : A).
Import DrawingState.
Local Open Scope Z_scope.

Lemma undo_redo_on_empty st o :
  operations st = [] → currentIndex st = -1 → o = OpUndo ∨ o = OpRedo →
  step st o = st.
Proof.
  intros Hops Hk [-> | ->]; cbn [step]; unfold undo, redo; rewrite Hops, Hk; done.
Qed.

Lemma redo_after_addOperation st s :
  log_inv st →
  redo (fst (addOperation st s)) = (fst (addOperation st s), Failure).
Proof.
  intros [H1 H2]. unfold redo. cbn [addOperation fst operations currentIndex].
  rewrite slice0_take, length_app, length_take by lia. cbn [length].
  destruct (Z.ltb_spec (currentIndex st + 1)
              (Z.of_nat (Z.to_nat (currentIndex st + 1)
                           `min` length (operations st) + 1) - 1)); [lia|done].
Qed.

End LogComposition.

(** [clear] cannot be undone: after it the log is the new log, and any
    sequence of [undo] and [redo] calls leaves it so, each call reporting
    failure. *)
Theorem clear_is_irreversible {A : Type} (st : DrawingState.t A)
    (os : list (DrawingState.LogOp A)) :
  Forall (fun o => o = DrawingState.OpUndo ∨ o = DrawingState.OpRedo) os →
  DrawingState.clear st = DrawingState.new
  ∧ DrawingState.run os (DrawingState.clear st) = DrawingState.new
  ∧ DrawingState.getVisibleOperations (DrawingState.run os (DrawingState.clear st)) = []
  ∧ snd (DrawingState.undo (DrawingState.run os (DrawingState.clear st)))
    = DrawingState.Failure
  ∧ snd (DrawingState.redo (DrawingState.run os (DrawingState.clear st)))
    = DrawingState.Failure.
Proof.
  intros Hos.
  assert (Hrun : DrawingState.run os (DrawingState.clear st) = DrawingState.new).
  { change (DrawingState.clear st) with (@DrawingState.new A).
    induction Hos as [|o os Ho _ IH]; [done|].
    unfold DrawingState.run in *. cbn [foldl].
    by rewrite undo_redo_on_empty. }
  rewrite Hrun. done.
Qed.

Lemma clear_is_irreversible_witness :
  DrawingState.run [DrawingState.OpUndo; DrawingState.OpRedo; DrawingState.OpRedo]
    (DrawingState.clear (DrawingState.mk [4; 5; 6]%nat 1))
  = DrawingState.new.
Proof.
  destruct (clear_is_irreversible (DrawingState.mk [4; 5; 6]%nat 1)
              [DrawingState.OpUndo; DrawingState.OpRedo; DrawingState.OpRedo])
    as (_ & H & _); [|exact H].
  repeat (constructor; [(by left) || (by right)|]). constructor.
Defined.

(** A commit discards the redo history: on a log within its bounds, right
    after [addOperation] every [redo] fails, and one [undo] succeeds and
    reports exactly the list that was visible before the commit, at the
    cursor the log had then. *)
Theorem commit_discards_redo_history {A : Type} (st : DrawingState.t A) (s : A) :
  DrawingState.log_inv st →
  let st' := fst (DrawingState.addOperation st s) in
  DrawingState.redo st' = (st', DrawingState.Failure)
  ∧ (∀ m : nat, DrawingState.redos (S m) st' = None)
  ∧ snd (DrawingState.undo st')
    = DrawingState.Success (DrawingState.currentIndex st)
        (DrawingState.getVisibleOperations st)
  ∧ DrawingState.getVisibleOperations st'
    = DrawingState.getVisibleOperations st ++ [s].
Proof.
  intros Hinv st'. pose proof (redo_after_addOperation st s Hinv) as Hredo.
  fold st' in Hredo. destruct Hinv as [H1 H2].
  split; [exact Hredo|]. split; [|split].
  - intros m. cbn [DrawingState.redos]. by rewrite Hredo.
  - subst st'. unfold DrawingState.undo.
    cbn [DrawingState.addOperation fst DrawingState.currentIndex
         DrawingState.operations].
    destruct (Z.leb_spec 0 (DrawingState.currentIndex st + 1)); [|lia].
    cbn [snd DrawingState.currentIndex]. f_equal; [lia|].
    unfold DrawingState.getVisibleOperations.
    cbn [DrawingState.currentIndex DrawingState.operations].
    replace (DrawingState.currentIndex st + 1 - 1 + 1)%Z
      with (DrawingState.currentIndex st + 1)%Z by lia.
    rewrite !slice0_take by lia.
    rewrite take_app_le; [|rewrite length_take; lia].
    by rewrite take_take, Nat.min_id.
  - subst st'. unfold DrawingState.getVisibleOperations.
    cbn [DrawingState.addOperation fst DrawingState.currentIndex
         DrawingState.operations].
    rewrite !slice0_take by lia.
    rewrite take_ge; [done|]. rewrite length_app, length_take. cbn [length]. lia.
Qed.

Lemma commit_discards_redo_history_witness :
  let st := DrawingState.mk [10; 20; 30; 40]%nat 1 in
  snd (DrawingState.undo (fst (DrawingState.addOperation st 99%nat)))
  = DrawingState.Success 1 [10; 20]%nat
  ∧ snd (DrawingState.redo (fst (DrawingState.addOperation st 99%nat)))
    = DrawingState.Failure.
Proof.
  intros st.
  assert (Hst : DrawingState.log_inv st)
    by (unfold DrawingState.log_inv; simpl; lia).
  destruct (commit_discards_redo_history st 99%nat Hst) as (Hr & _ & Hu & _).
  split; [exact Hu|]. by rewrite Hr.
Defined.

(** What [undo] and [redo] report, on a log within its bounds: a successful
    [undo] reports the visible list without its last stroke, which is the
    stroke at the old cursor; a successful [redo] reports the visible list
    followed by the stroke stored right after the cursor. In every state the
    visible list is a prefix of [getAllOperations]. *)
Theorem undo_redo_reported_lists {A : Type} (st : DrawingState.t A) :
  DrawingState.log_inv st →
  let k := DrawingState.currentIndex st in
  let n := Z.of_nat (length (DrawingState.operations st)) in
  DrawingState.getVisibleOperations st `prefix_of` DrawingState.getAllOperations st
  ∧ ((0 <= k)%Z →
     ∃ reported last,
       snd (DrawingState.undo st) = DrawingState.Success (k - 1) reported
       ∧ DrawingState.getVisibleOperations st = reported ++ [last]
       ∧ DrawingState.operations st !! Z.to_nat k = Some last)
  ∧ ((k < n - 1)%Z →
     ∃ reported next,
       snd (DrawingState.redo st) = DrawingState.Success (k + 1) reported
       ∧ reported = DrawingState.getVisibleOperations st ++ [next]
       ∧ DrawingState.operations st !! Z.to_nat (k + 1) = Some next).
Proof.
  intros [H1 H2] k n. subst k n. split; [|split].
  - unfold DrawingState.getVisibleOperations, DrawingState.getAllOperations.
    rewrite slice0_take by lia. apply prefix_take.
  - intros Hk.
    destruct (DrawingState.operations st !! Z.to_nat (DrawingState.currentIndex st))
      as [last|] eqn:Hlast; [|apply lookup_ge_None in Hlast; lia].
    eexists _, last. unfold DrawingState.undo.
    destruct (Z.leb_spec 0 (DrawingState.currentIndex st)); [|lia].
    cbn [snd DrawingState.currentIndex]. split; [reflexivity|]. split; [|done].
    unfold DrawingState.getVisibleOperations.
    cbn [DrawingState.currentIndex DrawingState.operations].
    rewrite !slice0_take by lia.
    replace (Z.to_nat (DrawingState.currentIndex st + 1))
      with (S (Z.to_nat (DrawingState.currentIndex st))) by lia.
    replace (Z.to_nat (DrawingState.currentIndex st - 1 + 1))
      with (Z.to_nat (DrawingState.currentIndex st)) by lia.
    by apply take_S_r.
  - intros Hk.
    destruct (DrawingState.operations st
                !! Z.to_nat (DrawingState.currentIndex st + 1))
      as [next|] eqn:Hnext; [|apply lookup_ge_None in Hnext; lia].
    eexists _, next. unfold DrawingState.redo.
    destruct (Z.ltb_spec (DrawingState.currentIndex st)
                (Z.of_nat (length (DrawingState.operations st)) - 1)); [|lia].
    cbn [snd DrawingState.currentIndex]. split; [reflexivity|]. split; [|done].
    unfold DrawingState.getVisibleOperations.
    cbn [DrawingState.currentIndex DrawingState.operations].
    rewrite !slice0_take by lia.
    replace (Z.to_nat (DrawingState.currentIndex st + 1 + 1))
      with (S (Z.to_nat (DrawingState.currentIndex st + 1))) by lia.
    by apply take_S_r.
Qed.

Lemma undo_redo_reported_lists_witness :
  let st := DrawingState.mk [10; 20; 30; 40]%nat 1 in
  snd (DrawingState.undo st) = DrawingState.Success 0 [10]%nat
  ∧ snd (DrawingState.redo st) = DrawingState.Success 2 [10; 20; 30]%nat.
Proof.
  intros st.
  assert (Hst : DrawingState.log_inv st)
    by (unfold DrawingState.log_inv; simpl; lia).
  destruct (undo_redo_reported_lists st Hst) as (_ & Hu & Hr).
  destruct Hu as (ru & last & -> & Hvis & Hlast); [simpl; lia|].
  destruct Hr as (rr & next & -> & -> & Hnext); [simpl; lia|].
  injection Hnext as <-.
  change (DrawingState.getVisibleOperations st) with ([10] ++ [20])%nat in Hvis.
  apply app_inj_tail in Hvis as [<- _]. done.
Defined.

(** ** Participant maps: order and bounds *)

Section UserMaps.
Context {V : Type}.
Implicit Types (m : list (nat * V)) (k n : nat) (v : V).

Lemma jsmap_delete_Forall (P : nat * V → Prop) m k :
  Forall P m → Forall P (jsmap_delete m k).
Proof.
  induction 1 as [|[k1 v1] m H1 _ IH]; cbn [jsmap_delete]; [done|].
  case_decide; [done|]. by constructor.
Qed.

Lemma jsmap_delete_keys_Forall (P : nat → Prop) m k :
  Forall P (map fst m) → Forall P (map fst (jsmap_delete m k)).
Proof.
  induction m as [|[k1 v1] m IH]; cbn [jsmap_delete map fst]; [done|].
  intros [H1 H2]%Forall_cons. case_decide; [by apply IH|].
  cbn [map fst]. constructor; [done|by apply IH].
Qed.

Lemma jsmap_delete_sorted m k :
  StronglySorted lt (map fst m) → StronglySorted lt (map fst (jsmap_delete m k)).
Proof.
  induction m as [|[k1 v1] m IH]; cbn [jsmap_delete map fst]; [done|].
  intros [H1 H2]%StronglySorted_inv. case_decide; [by apply IH|].
  cbn [map fst]. constructor; [by apply IH|by apply jsmap_delete_keys_Forall].
Qed.

Lemma jsmap_set_present_keys m k v v' :
  jsmap_get m k = Some v → map fst (jsmap_set m k v') = map fst m.
Proof.
  induction m as [|[k1 v1] m IH]; cbn [jsmap_get jsmap_set]; [done|].
  case_decide; [done|]. intros Hget. cbn [map fst]. by rewrite IH.
Qed.

Lemma jsmap_set_present_Forall (P : nat * V → Prop) m k v' :
  P (k, v') → Forall P m → Forall P (jsmap_set m k v').
Proof.
  intros Hk. induction 1 as [|[k1 v1] m H1 Hm IH]; cbn [jsmap_set].
  - by constructor.
  - case_decide as Heq; [subst k1|]; by constructor.
Qed.

Lemma jsmap_get_above m n :
  Forall (fun e => (fst e < n)%nat) m → jsmap_get m n = None.
Proof.
  induction 1 as [|[k1 v1] m H1 _ IH]; cbn [jsmap_get]; [done|].
  cbn [fst] in H1. rewrite decide_False by lia. done.
Qed.

Lemma sorted_snoc (l : list nat) n :
  StronglySorted lt l → Forall (fun x => (x < n)%nat) l →
  StronglySorted lt (l ++ [n]).
Proof.
  induction 1 as [|x l Hl IH Hx]; intros Hn; cbn [app].
  - repeat constructor.
  - apply Forall_cons in Hn as [Hxn Hn]. constructor; [by apply IH|].
    apply Forall_app. split; [done|]. by repeat constructor.
Qed.

(** In a map with increasing keys, [get] finds exactly the listed pairs. *)
Lemma jsmap_get_elem_of m k v :
  StronglySorted lt (map fst m) → jsmap_get m k = Some v ↔ (k, v) ∈ m.
Proof.
  induction m as [|[k1 v1] m IH]; cbn [jsmap_get map fst].
  - intros _. split; [done|by intros ?%elem_of_nil].
  - intros [H1 H2]%StronglySorted_inv. rewrite elem_of_cons.
    case_decide as Heq.
    + subst k1. split; [intros [= ->]; by left|].
      intros [[= ->]|Hin]; [done|].
      rewrite Forall_forall in H2.
      assert (Hk : k ∈ map fst m)
        by (apply list_elem_of_fmap; by exists (k, v)).
      apply H2 in Hk. lia.
    + rewrite IH by done. split; [by right|].
      intros [[= -> ->]|Hin]; done.
Qed.

End UserMaps.

(** ** Room invariants *)

Section RoomInvariants.
Import RoomManager.
Implicit Types (mgr : RoomManager.t) (r : string) (room : Room).

Lemma log_ok_new : log_ok DrawingState.new.
Proof. split; [apply log_inv_new|]. intros i op H. done. Qed.

Lemma log_ok_clear ds : log_ok (DrawingState.clear ds).
Proof. apply log_ok_new. Qed.

Lemma log_ok_undo ds : log_ok ds → log_ok (fst (DrawingState.undo ds)).
Proof.
  intros [Hinv Hops]. split; [by apply log_inv_undo|].
  unfold DrawingState.undo. by destruct (0 <=? DrawingState.currentIndex ds)%Z.
Qed.

Lemma log_ok_redo ds : log_ok ds → log_ok (fst (DrawingState.redo ds)).
Proof.
  intros [Hinv Hops]. split; [by apply log_inv_redo|].
  unfold DrawingState.redo.
  by destruct (DrawingState.currentIndex ds
               <? Z.of_nat (length (DrawingState.operations ds)) - 1)%Z.
Qed.

(** The draw-end case: push, then the write of [operationId] to the pushed
    object. *)
Lemma log_ok_commit ds (operation : Operation) :
  log_ok ds → op_type operation = DrawEnd →
  let ds1 := fst (DrawingState.addOperation ds operation) in
  let idx := snd (DrawingState.addOperation ds operation) in
  log_ok {| DrawingState.operations :=
              <[Nat.pred (length (DrawingState.operations ds1))
                := set_operationId operation idx]> (DrawingState.operations ds1);
            DrawingState.currentIndex := DrawingState.currentIndex ds1 |}.
Proof.
  intros [[H1 H2] Hops] Hty ds1 idx. subst ds1 idx.
  cbn [DrawingState.addOperation fst snd DrawingState.operations
       DrawingState.currentIndex].
  rewrite slice0_take by lia.
  set (vis := take (Z.to_nat (DrawingState.currentIndex ds + 1))
                (DrawingState.operations ds)).
  assert (Hlen : length vis = Z.to_nat (DrawingState.currentIndex ds + 1))
    by (subst vis; rewrite length_take; lia).
  rewrite length_app. cbn [length].
  rewrite Nat.add_1_r, Nat.pred_succ, insert_app_r_alt by lia.
  rewrite Nat.sub_diag. cbn [insert list_insert].
  split.
  - unfold DrawingState.log_inv.
    cbn [DrawingState.operations DrawingState.currentIndex].
    rewrite length_app. cbn [length]. lia.
  - cbn [DrawingState.operations]. intros i op Hi.
    apply lookup_app_Some in Hi as [Hi|[Hge Hi]].
    + subst vis. apply lookup_take_Some in Hi as [Hi _]. by apply Hops.
    + destruct (i - length vis)%nat as [|j] eqn:Hj; [|done].
      injection Hi as <-. cbn [set_operationId op_type op_operationId].
      split; [done|]. f_equal. lia.
Qed.

Lemma rooms_ok_pointwise mgr mgr' r0 :
  rooms_ok mgr →
  (∀ r', r' ≠ r0 → rooms mgr' !! r' = rooms mgr !! r') →
  (∀ room', rooms mgr' !! r0 = Some room' → room_ok r0 room') →
  rooms_ok mgr'.
Proof.
  intros Hok Hother Hnew r room Hroom.
  destruct (decide (r = r0)) as [->|Hne]; [by apply Hnew|].
  rewrite Hother in Hroom by done. by apply Hok.
Qed.

Lemma room_ok_counter r room : room_ok r room → (2 ≤ nextUserId room)%nat.
Proof.
  intros (_ & Hne & _ & Hall & _).
  destruct (users room) as [|e us]; [done|].
  apply Forall_cons in Hall as [[_ ?] _]. lia.
Qed.

Lemma rooms_ok_addUser mgr r ws username :
  rooms_ok mgr → rooms_ok (fst (addUser mgr r ws username)).
Proof.
  intros Hok. apply (rooms_ok_pointwise mgr _ r); [done|..].
  - intros r' Hne. by apply addUser_spec.
  - intros room'.
    destruct (addUser_spec mgr r ws username)
      as (Hnew & _ & _ & Hid & _ & _ & Hus & Hnext & Hds).
    rewrite Hnew. intros [= <-].
    assert (Hrid : room_id (snd (snd (addUser mgr r ws username))) = r).
    { unfold addUser, getOrCreateRoom.
      destruct (rooms mgr !! r) as [room|] eqn:Hroom; cbn [snd room_id]; [|done].
      by apply (Hok r room Hroom). }
    split; [exact Hrid|]. rewrite Hus, Hnext, Hds.
    destruct (rooms mgr !! r) as [room|] eqn:Hroom.
    + destruct (Hok r room Hroom) as (_ & Hne & Hsorted & Hall & Hlog).
      pose proof (room_ok_counter r room (Hok r room Hroom)) as Hn.
      assert (Hbelow : Forall (fun e => (fst e < nextUserId room)%nat) (users room)).
      { eapply Forall_impl; [exact Hall|]. intros e [_ ?]. lia. }
      rewrite jsmap_set_fresh by (by apply jsmap_get_above).
      split; [by destruct (users room)|]. split; [|split; [|done]].
      * unfold keys_increasing. rewrite map_app. cbn [map fst].
        apply sorted_snoc; [done|]. by apply Forall_fmap.
      * apply Forall_app. split.
        -- eapply Forall_impl; [exact Hall|]. intros e [? ?]. split; [done|lia].
        -- constructor; [|constructor]. split; cbn [fst snd]; [done|lia].
    + cbn [jsmap_set]. split; [done|]. split; [|split; [|apply log_ok_new]].
      * unfold keys_increasing. cbn [map fst]. repeat constructor.
      * constructor; [|constructor]. split; cbn [fst snd]; [done|lia].
Qed.

Lemma rooms_ok_removeUser mgr r0 u0 :
  rooms_ok mgr → rooms_ok (fst (removeUser mgr r0 u0)).
Proof.
  intros Hok. apply (rooms_ok_pointwise mgr _ r0); [done|..].
  - intros r' Hne. by apply removeUser_lookup_ne.
  - intros room'. destruct (rooms mgr !! r0) as [room|] eqn:Hroom.
    + rewrite (removeUser_lookup_eq _ _ _ _ Hroom).
      case_decide as Hlen; [done|]. intros [= <-].
      destruct (Hok r0 room Hroom) as (Hid & _ & Hsorted & Hall & Hlog).
      split; [done|]. cbn [users nextUserId drawingState].
      split; [by destruct (jsmap_delete (users room) u0)|].
      split; [by apply jsmap_delete_sorted|].
      split; [by apply jsmap_delete_Forall|done].
    + unfold removeUser. rewrite Hroom. cbn [fst]. by rewrite Hroom.
Qed.

Lemma rooms_ok_updateUserCursor mgr r0 u0 cursor :
  rooms_ok mgr → rooms_ok (fst (updateUserCursor mgr r0 u0 cursor)).
Proof.
  intros Hok. unfold updateUserCursor.
  destruct (rooms mgr !! r0) as [room|] eqn:Hroom; [|done].
  destruct (jsmap_get (users room) u0) as [user|] eqn:Hget; [|done].
  cbn [fst]. apply (rooms_ok_pointwise mgr _ r0); [done|..]; cbn [rooms].
  - intros r' Hne. by rewrite lookup_insert_ne.
  - intros room'. rewrite lookup_insert_eq. intros [= <-].
    destruct (Hok r0 room Hroom) as (Hid & Hne & Hsorted & Hall & Hlog).
    assert (Hentry : entry_ok (nextUserId room) (u0, user)).
    { rewrite Forall_forall in Hall. apply Hall.
      by apply jsmap_get_elem_of. }
    split; [done|]. cbn [users nextUserId drawingState].
    split; [|split; [|split; [|done]]].
    + intros Hnil. apply (f_equal (map fst)) in Hnil.
      rewrite (jsmap_set_present_keys _ _ user) in Hnil by done.
      by destruct (users room).
    + unfold keys_increasing.
      by rewrite (jsmap_set_present_keys _ _ user).
    + by apply jsmap_set_present_Forall.
Qed.

Lemma rooms_ok_set_drawingState s r0 room0 ds :
  rooms_ok (Server.roomManager s) →
  rooms (Server.roomManager s) !! r0 = Some room0 →
  log_ok ds →
  rooms_ok (Server.roomManager (Server.set_drawingState s r0 room0 ds)).
Proof.
  intros Hok Hroom Hds.
  apply (rooms_ok_pointwise (Server.roomManager s) _ r0); [done|..];
    unfold Server.set_drawingState; cbn [Server.roomManager rooms].
  - intros r' Hne. by rewrite lookup_insert_ne.
  - intros room'. rewrite lookup_insert_eq. intros [= <-].
    destruct (Hok r0 room0 Hroom) as (Hid & Hne & Hsorted & Hall & _).
    done.
Qed.

End RoomInvariants.

(** ** Handlers: room invariants, isolation, and the shape of the effect *)

Section HandlerFacts.
Import Server.
Implicit Types (s : State) (c ws : Conn) (r : string).

(** Case analysis on the guard [if (!room) break]; [tac] closes the
    branches in which the handler leaves. *)
Ltac room_guard s ws tac :=
  let Hr := fresh "Hr" in
  let Hc := fresh "Hc" in
  destruct (currentRoomId (sessions s ws)) eqn:Hr; [|tac];
  destruct (current_room s ws) eqn:Hc; [|tac];
  pose proof (current_room_Some _ _ _ _ Hr Hc).

Lemma rooms_ok_on_message sendRaises now ws data s :
  rooms_ok (roomManager s) →
  rooms_ok (roomManager (fst (on_message sendRaises now ws data s))).
Proof.
  intros Hok.
  destruct data as [|roomId username|kind tool color lw x y|x y| | | |].
  - done.
  - rewrite on_message_join_state. by apply rooms_ok_addUser.
  - destruct kind; try (by rewrite draw_start_move_not_logged).
    unfold on_message. cbv zeta. room_guard s ws done.
    cbn [DrawingState.addOperation fst].
    apply rooms_ok_set_drawingState; [done|done|].
    apply (log_ok_commit (drawingState _)); [|done].
    by eapply Hok.
  - unfold on_message. cbv zeta. cbn [fst set_roomManager roomManager].
    destruct (currentRoomId (sessions s ws)); [|done].
    destruct (currentUserId (sessions s ws)); [|done].
    by apply rooms_ok_updateUserCursor.
  - unfold on_message. cbv zeta. room_guard s ws done.
    pose proof (log_ok_undo (drawingState _)
                  (proj2 (proj2 (proj2 (proj2 (Hok _ _ H))))) ) as Hlog.
    destruct (DrawingState.undo (drawingState _)) as [ds [idx ops|]];
      cbn [fst] in *; [|done].
    by apply rooms_ok_set_drawingState.
  - unfold on_message. cbv zeta. room_guard s ws done.
    pose proof (log_ok_redo (drawingState _)
                  (proj2 (proj2 (proj2 (proj2 (Hok _ _ H))))) ) as Hlog.
    destruct (DrawingState.redo (drawingState _)) as [ds [idx ops|]];
      cbn [fst] in *; [|done].
    by apply rooms_ok_set_drawingState.
  - unfold on_message. cbv zeta. room_guard s ws done. cbn [fst].
    apply rooms_ok_set_drawingState; [done|done|apply log_ok_clear].
  - done.
Qed.

Lemma rooms_ok_step s e :
  rooms_ok (roomManager s) → rooms_ok (roomManager (fst (handle_event s e))).
Proof.
  intros Hok. destruct e as [ws data now sendRaises|ws|ws sendRaises];
    cbn [handle_event].
  - by apply rooms_ok_on_message.
  - done.
  - rewrite on_close_state. cbn [set_readyState sessions roomManager].
    destruct (joined_session (sessions s ws)) as [[r u]|]; [|done].
    cbn [set_roomManager roomManager]. by apply rooms_ok_removeUser.
Qed.

Lemma reachable_rooms_ok s : reachable s → rooms_ok (roomManager s).
Proof.
  induction 1 as [|s e _ IH _]; [|by apply rooms_ok_step].
  intros r room H. unfold init, RoomManager.new in H.
  cbn [roomManager RoomManager.rooms] in H. by rewrite lookup_empty in H.
Qed.

Lemma on_message_other_rooms sendRaises now ws data s r' :
  event_room s (EvMessage ws data now sendRaises) ≠ Some r' →
  RoomManager.rooms (roomManager (fst (on_message sendRaises now ws data s))) !! r'
  = RoomManager.rooms (roomManager s) !! r'.
Proof.
  intros Hr'. cbn [event_room] in Hr'.
  assert (Hset : ∀ r room ds,
            r ≠ r' →
            RoomManager.rooms (roomManager (set_drawingState s r room ds)) !! r'
            = RoomManager.rooms (roomManager s) !! r').
  { intros r room ds Hne. unfold set_drawingState.
    cbn [roomManager RoomManager.rooms]. by apply lookup_insert_ne. }
  destruct data as [|roomId username|kind tool color lw x y|x y| | | |].
  - done.
  - rewrite on_message_join_state. cbn [roomManager].
    apply addUser_spec. congruence.
  - destruct kind; try (by rewrite draw_start_move_not_logged).
    unfold on_message. cbv zeta. room_guard s ws done.
    cbn [DrawingState.addOperation fst]. apply Hset; congruence.
  - unfold on_message. cbv zeta. cbn [fst set_roomManager roomManager].
    destruct (currentRoomId (sessions s ws)) as [r|] eqn:Hr; [|done].
    destruct (currentUserId (sessions s ws)) as [u|]; [|done].
    unfold RoomManager.updateUserCursor.
    destruct (RoomManager.rooms (roomManager s) !! r) as [room|]; [|done].
    destruct (jsmap_get (users room) u); [|done].
    cbn [fst RoomManager.rooms]. apply lookup_insert_ne. congruence.
  - unfold on_message. cbv zeta. room_guard s ws done.
    destruct (DrawingState.undo (drawingState _)) as [ds [idx ops|]];
      cbn [fst]; [|done]. apply Hset; congruence.
  - unfold on_message. cbv zeta. room_guard s ws done.
    destruct (DrawingState.redo (drawingState _)) as [ds [idx ops|]];
      cbn [fst]; [|done]. apply Hset; congruence.
  - unfold on_message. cbv zeta. room_guard s ws done. cbn [fst]. apply Hset; congruence.
  - done.
Qed.

Lemma handle_event_other_rooms s e r' :
  event_room s e ≠ Some r' →
  RoomManager.rooms (roomManager (fst (handle_event s e))) !! r'
  = RoomManager.rooms (roomManager s) !! r'.
Proof.
  destruct e as [ws data now sendRaises|ws|ws sendRaises]; cbn [handle_event].
  - apply on_message_other_rooms.
  - done.
  - cbn [event_room]. intros Hr'. rewrite on_close_state.
    cbn [set_readyState sessions roomManager].
    destruct (joined_session (sessions s ws)) as [[r u]|]; [|done].
    cbn [set_roomManager roomManager]. apply removeUser_lookup_ne.
    cbn in Hr'. congruence.
Qed.

End HandlerFacts.

(** ** Where the sends of a handler go *)

Section Deliveries.
Import Server.
Implicit Types (s : State) (c ws : Conn) (r : string) (P : Delivery → Prop).

Lemma eff_all_ret {A} P (a : A) : eff_all P (eff_ret a).
Proof. constructor. Qed.

Lemma eff_all_raise {A} P : eff_all P (([], None) : Eff A).
Proof. constructor. Qed.

Lemma eff_all_ws_send P sendRaises ws msg :
  P (ws, msg) → eff_all P (ws_send sendRaises ws msg).
Proof.
  intros H. unfold eff_all, ws_send. destruct (sendRaises ws); cbn [fst].
  - constructor.
  - by repeat constructor.
Qed.

Lemma eff_all_bind {A B} P (m : Eff A) (f : A → Eff B) :
  eff_all P m → (∀ a, eff_all P (f a)) → eff_all P (eff_bind m f).
Proof.
  unfold eff_all, eff_bind. destruct m as [o [a|]]; cbn [fst]; [|done].
  intros Ho Hf. specialize (Hf a). destruct (f a) as [o' res]. cbn [fst] in *.
  apply Forall_app. done.
Qed.

Lemma eff_all_try_catch {A} P (m h : Eff A) :
  eff_all P m → eff_all P h → eff_all P (try_catch m h).
Proof.
  unfold eff_all, try_catch. destruct m as [o [a|]]; cbn [fst]; [done|].
  intros Ho Hh. destruct h as [o' res]. cbn [fst] in *. apply Forall_app. done.
Qed.

Lemma eff_all_mono {A} P (Q : Delivery → Prop) (m : Eff A) :
  (∀ d, P d → Q d) → eff_all P m → eff_all Q m.
Proof. intros H Hm. unfold eff_all in *. by eapply Forall_impl. Qed.

(** A broadcast sends the given message, and only to connections of
    participant entries of the room, open and not excluded. *)
Lemma eff_all_broadcast s sendRaises r msg excl :
  eff_all (fun d => snd d = msg
                    ∧ readyState s (fst d) = 1%Z
                    ∧ ∃ room uid u,
                        RoomManager.rooms (roomManager s) !! r = Some room
                        ∧ (uid, u) ∈ users room ∧ user_ws u = fst d
                        ∧ excl ≠ Some uid)
    (broadcast s sendRaises (Some r) msg excl).
Proof.
  unfold broadcast, RoomManager.broadcastToRoom.
  destruct (RoomManager.rooms (roomManager s) !! r) as [room|] eqn:Hroom;
    [|apply eff_all_ret].
  rewrite broadcast_loop_spec. unfold eff_all. cbn [fst].
  apply Forall_forall. intros d Hd.
  apply list_elem_of_fmap in Hd as (c & -> & Hc).
  apply sends_before_raise_sublist, broadcast_targets_elem in Hc
    as (uid & u & Hin & -> & Hopen & Hex).
  cbn [fst snd]. split; [done|]. split; [done|]. by exists room, uid, u.
Qed.

Lemma eff_all_broadcast_member s sendRaises r msg excl ws :
  eff_all (fun d => fst d = ws ∨ member_conn (roomManager s) r (fst d))
    (broadcast s sendRaises (Some r) msg excl).
Proof.
  eapply eff_all_mono; [|apply eff_all_broadcast].
  intros d (_ & _ & room & uid & u & Hroom & Hin & Hws & _).
  right. by exists room, uid, u.
Qed.

(** Every case of the message handler is either silent or a [try] body
    under the one [catch], which replies to the sender. *)
Lemma on_message_guarded sendRaises now ws data s :
  snd (on_message sendRaises now ws data s) = eff_ret tt
  ∨ ∃ body, snd (on_message sendRaises now ws data s)
            = try_catch body (ws_send sendRaises ws error_reply).
Proof.
  unfold on_message. cbv zeta.
  destruct data as [|roomId username|kind tool color lw x y|x y| | | |].
  - right. by eexists.
  - destruct (RoomManager.addUser _ _ _ _) as [mgr [user room]].
    right. by eexists.
  - destruct (currentRoomId (sessions s ws)); [|by left].
    destruct (current_room s ws); [|by left].
    destruct kind; cbn [DrawingState.addOperation]; right; by eexists.
  - right. by eexists.
  - destruct (currentRoomId (sessions s ws)); [|by left].
    destruct (current_room s ws); [|by left].
    destruct (DrawingState.undo _) as [ds [idx ops|]]; [right; by eexists|by left].
  - destruct (currentRoomId (sessions s ws)); [|by left].
    destruct (current_room s ws); [|by left].
    destruct (DrawingState.redo _) as [ds [idx ops|]]; [right; by eexists|by left].
  - destruct (currentRoomId (sessions s ws)); [|by left].
    destruct (current_room s ws); [|by left].
    right; by eexists.
  - by left.
Qed.

Lemma on_message_deliveries sendRaises now ws data s :
  eff_all (fun d =>
             fst d = ws
             ∨ ∃ r, event_room s (EvMessage ws data now sendRaises) = Some r
                    ∧ member_conn
                        (roomManager (fst (on_message sendRaises now ws data s)))
                        r (fst d))
    (snd (on_message sendRaises now ws data s)).
Proof.
  assert (Hcatch : ∀ P body,
            (∀ m, P (ws, m)) → eff_all P body →
            eff_all P (try_catch body (ws_send sendRaises ws error_reply))).
  { intros P body Hws Hbody. apply eff_all_try_catch; [done|].
    by apply eff_all_ws_send. }
  assert (Hloc : ∀ s' r msg excl,
            event_room s (EvMessage ws data now sendRaises) = Some r →
            eff_all (fun d => fst d = ws
                              ∨ ∃ r0, event_room s (EvMessage ws data now sendRaises)
                                      = Some r0
                                      ∧ member_conn (roomManager s') r0 (fst d))
              (broadcast s' sendRaises (Some r) msg excl)).
  { intros s' r msg excl Hr.
    eapply eff_all_mono; [|apply (eff_all_broadcast_member s' _ r _ _ ws)].
    intros d [?|?]; [by left|right; by exists r]. }
  destruct data as [|roomId username|kind tool color lw x y|x y| | | |];
    cbn [event_room] in Hloc |- *; unfold on_message; cbv zeta.
  - apply Hcatch; [by left|apply eff_all_raise].
  - destruct (RoomManager.addUser _ _ _ _) as [mgr [user room]]. cbn [fst snd].
    apply Hcatch; [by left|]. apply eff_all_bind.
    + apply eff_all_ws_send. by left.
    + intros _. by apply Hloc.
  - destruct (currentRoomId (sessions s ws)) as [r|]; [|apply eff_all_ret].
    destruct (current_room s ws); [|apply eff_all_ret].
    destruct kind; cbn [DrawingState.addOperation fst snd];
      (apply Hcatch; [by left|]); by apply Hloc.
  - cbn [fst snd]. apply Hcatch; [by left|].
    destruct (currentRoomId (sessions s ws)) as [r|]; [|apply eff_all_ret].
    by apply Hloc.
  - destruct (currentRoomId (sessions s ws)) as [r|]; [|apply eff_all_ret].
    destruct (current_room s ws); [|apply eff_all_ret].
    destruct (DrawingState.undo _) as [ds [idx ops|]]; cbn [fst snd];
      [|apply eff_all_ret].
    apply Hcatch; [by left|]. apply eff_all_bind; [by apply Hloc|].
    intros _. apply eff_all_ws_send. by left.
  - destruct (currentRoomId (sessions s ws)) as [r|]; [|apply eff_all_ret].
    destruct (current_room s ws); [|apply eff_all_ret].
    destruct (DrawingState.redo _) as [ds [idx ops|]]; cbn [fst snd];
      [|apply eff_all_ret].
    apply Hcatch; [by left|]. apply eff_all_bind; [by apply Hloc|].
    intros _. apply eff_all_ws_send. by left.
  - destruct (currentRoomId (sessions s ws)) as [r|]; [|apply eff_all_ret].
    destruct (current_room s ws); [|apply eff_all_ret]. cbn [fst snd].
    apply Hcatch; [by left|]. apply eff_all_bind; [by apply Hloc|].
    intros _. apply eff_all_ws_send. by left.
  - apply eff_all_ret.
Qed.

Lemma on_close_deliveries sendRaises ws s :
  eff_all (fun d =>
             ∃ r, fst <$> joined_session (sessions s ws) = Some r
                  ∧ member_conn (roomManager (fst (on_close sendRaises ws s)))
                      r (fst d))
    (snd (on_close sendRaises ws s)).
Proof.
  unfold on_close.
  destruct (joined_session (sessions s ws)) as [[r u]|]; [|apply eff_all_ret].
  destruct (RoomManager.removeUser (roomManager s) r u) as [mgr [room|]];
    cbn [fst snd]; [|apply eff_all_ret].
  eapply eff_all_mono; [|apply eff_all_broadcast].
  intros d (_ & _ & room' & uid & u0 & Hroom & Hin & Hws & _).
  exists r. split; [done|]. by exists room', uid, u0.
Qed.

End Deliveries.

(** ** Reachable server states *)

Lemma sorted_lt_NoDup (l : list nat) : StronglySorted lt l → NoDup l.
Proof.
  induction 1 as [|x l _ IH Hx]; constructor; [|done].
  intros Hin. rewrite Forall_forall in Hx. apply Hx in Hin. lia.
Qed.

Lemma getUserList_ids room :
  Forall (entry_ok (nextUserId room)) (users room) →
  map ui_id (RoomManager.getUserList room) = map fst (users room).
Proof.
  unfold RoomManager.getUserList. induction 1 as [|[k u] us [Hid _] _ IH];
    cbn [map]; [done|].
  cbn [fst snd ui_id] in *. by rewrite IH, Hid.
Qed.

(** In every state the server can reach, the log of every room is within its
    bounds, holds only ['draw-end'] records, and the record at index [i]
    carries [operationId = i]: the id attached at commit is the record's
    position, also after undo, redo and truncation by later commits. *)
Theorem reachable_logs_wellformed (s : Server.State) (r : string) (room : Room) :
  Server.reachable s →
  RoomManager.rooms (Server.roomManager s) !! r = Some room →
  DrawingState.log_inv (drawingState room)
  ∧ (∀ (i : nat) op,
       DrawingState.operations (drawingState room) !! i = Some op →
       op_type op = DrawEnd ∧ op_operationId op = Some (Z.of_nat i))
  ∧ (∀ (i : nat) op,
       DrawingState.getVisibleOperations (drawingState room) !! i = Some op →
       op_operationId op = Some (Z.of_nat i)
       ∧ (Z.of_nat i <= DrawingState.currentIndex (drawingState room))%Z).
Proof.
  intros Hreach Hroom.
  destruct (reachable_rooms_ok s Hreach r room Hroom)
    as (_ & _ & _ & _ & Hinv & Hops).
  split; [done|]. split; [done|]. intros i op Hi.
  rewrite visible_take in Hi by apply Hinv.
  apply lookup_take_Some in Hi as [Hi Hlt].
  split; [by apply Hops|lia].
Qed.

Lemma reachable_A_drew : Server.reachable A_drew.
Proof.
  unfold A_drew, feed, gesture. cbn [map app foldl fst snd].
  repeat match goal with
  | |- Server.reachable (fst (Server.on_message ?sr ?now ?ws ?data ?s)) =>
      apply (Server.reachable_step s (Server.EvMessage ws data now sr));
      [|reflexivity]
  end.
  apply Server.reachable_init.
Qed.

Lemma reachable_logs_wellformed_witness :
  ∃ room, RoomManager.rooms (Server.roomManager A_drew) !! "r1" = Some room
          ∧ DrawingState.log_inv (drawingState room).
Proof.
  destruct (RoomManager.rooms (Server.roomManager A_drew) !! "r1")
    as [room|] eqn:Hroom; [|vm_compute in Hroom; discriminate].
  exists room. split; [done|].
  apply (reachable_logs_wellformed A_drew "r1" room reachable_A_drew Hroom).
Defined.

(** In every reachable state a room of the registry is stored under its own
    key and has at least one participant; its participant ids are at least
    1, below the room's counter, strictly increasing in join order, hence
    pairwise distinct, in the map and in the list [getUserList] gives; and
    the map finds exactly its listed entries. *)
Theorem reachable_rooms_membership (s : Server.State) (r : string) (room : Room) :
  Server.reachable s →
  RoomManager.rooms (Server.roomManager s) !! r = Some room →
  room_id room = r
  ∧ users room ≠ []
  ∧ map ui_id (RoomManager.getUserList room) = map fst (users room)
  ∧ StronglySorted lt (map ui_id (RoomManager.getUserList room))
  ∧ NoDup (map ui_id (RoomManager.getUserList room))
  ∧ (∀ uid user, (uid, user) ∈ users room →
       user_id user = uid ∧ (1 ≤ uid < nextUserId room)%nat)
  ∧ (∀ uid user, jsmap_get (users room) uid = Some user ↔ (uid, user) ∈ users room).
Proof.
  intros Hreach Hroom.
  destruct (reachable_rooms_ok s Hreach r room Hroom)
    as (Hid & Hne & Hsorted & Hall & _).
  pose proof (getUserList_ids room Hall) as Hids.
  split; [done|]. split; [done|]. split; [done|]. rewrite Hids.
  split; [done|]. split; [by apply sorted_lt_NoDup|]. split.
  - intros uid user Hin. rewrite Forall_forall in Hall. apply (Hall _ Hin).
  - intros uid user. by apply jsmap_get_elem_of.
Qed.

Lemma reachable_two_joined : Server.reachable two_joined.
Proof.
  unfold two_joined, one_joined.
  repeat match goal with
  | |- Server.reachable (fst (Server.on_message ?sr ?now ?ws ?data ?s)) =>
      apply (Server.reachable_step s (Server.EvMessage ws data now sr));
      [|reflexivity]
  end.
  apply Server.reachable_init.
Qed.

Lemma reachable_rooms_membership_witness :
  ∃ room, RoomManager.rooms (Server.roomManager two_joined) !! "r" = Some room
          ∧ map ui_id (RoomManager.getUserList room) = [1; 2].
Proof.
  destruct (RoomManager.rooms (Server.roomManager two_joined) !! "r")
    as [room|] eqn:Hroom; [|vm_compute in Hroom; discriminate].
  exists room. split; [done|].
  destruct (reachable_rooms_membership two_joined "r" room reachable_two_joined
              Hroom) as (_ & _ & -> & _).
  vm_compute in Hroom. injection Hroom as <-. reflexivity.
Defined.

(** An event touches one room only: the room a [join] names, else the
    current room of its connection. Every other room of the registry is as
    before, and every send the handler completes goes to the connection of
    the event or to the connection of a participant entry of that one
    room. *)
Theorem events_are_room_local (s : Server.State) (e : Server.Event) :
  let s' := fst (Server.handle_event s e) in
  (∀ r', event_room s e ≠ Some r' →
         RoomManager.rooms (Server.roomManager s') !! r'
         = RoomManager.rooms (Server.roomManager s) !! r')
  ∧ (∀ c msg, (c, msg) ∈ fst (snd (Server.handle_event s e)) →
       c = Server.event_conn e
       ∨ ∃ r, event_room s e = Some r
              ∧ member_conn (Server.roomManager s') r c).
Proof.
  intros s'. subst s'. split; [intros r'; apply handle_event_other_rooms|].
  intros c msg Hin.
  destruct e as [ws data now sendRaises|ws|ws sendRaises];
    cbn [Server.handle_event Server.event_conn] in *.
  - pose proof (on_message_deliveries sendRaises now ws data s) as Hall.
    unfold eff_all in Hall. rewrite Forall_forall in Hall.
    apply (Hall _ Hin).
  - by apply elem_of_nil in Hin.
  - pose proof (on_close_deliveries sendRaises ws
                  (Server.set_readyState s ws CLOSED)) as Hall.
    unfold eff_all in Hall. rewrite Forall_forall in Hall.
    right. apply (Hall _ Hin).
Qed.

Lemma events_are_room_local_witness :
  let e := Server.EvMessage 0%nat (Draw DrawEnd "brush" "#000000" 3 4 5) 102
             (fun _ => false) in
  RoomManager.rooms (Server.roomManager (fst (Server.handle_event two_rooms e))) !! "b"
  = RoomManager.rooms (Server.roomManager two_rooms) !! "b".
Proof.
  intros e. destruct (events_are_room_local two_rooms e) as [H _].
  apply H. vm_compute. discriminate.
Defined.

(** ** Messages that are not acted on, and failures *)



Lemma try_catch_reply_ok sendRaises ws (body : Eff unit) :
  sendRaises ws = false →
  snd (try_catch body (ws_send sendRaises ws Server.error_reply)) = Some tt
  ∧ (snd body = None →
     fst (try_catch body (ws_send sendRaises ws Server.error_reply))
     = fst body ++ [(ws, Server.error_reply)]).
Proof.
  intros Hok. unfold try_catch, ws_send. rewrite Hok.
  destruct body as [o [[]|]]; cbn [fst snd]; done.
Qed.

(** The handler's one [catch]: as long as a [send] to the requesting
    connection itself does not throw, no message makes the handler throw,
    whatever the other connections do; an unparseable message changes no
    state and is answered with the one error reply, to the sender only. *)
Theorem message_handler_contains_failures
    (s : Server.State) (ws : Conn) (data : ClientMsg)
    (sendRaises : Conn → bool) (now : Z) :
  sendRaises ws = false →
  snd (snd (Server.on_message sendRaises now ws data s)) = Some tt
  ∧ Server.on_message sendRaises now ws Malformed s
    = (s, ([(ws, ErrorMsg "Failed to process message")], Some tt)).
Proof.
  intros Hok. split.
  - destruct (on_message_guarded sendRaises now ws data s) as [->|[body ->]];
      [done|]. by apply try_catch_reply_ok.
  - unfold Server.on_message, try_catch, ws_send. rewrite Hok. done.
Qed.

Lemma message_handler_contains_failures_witness :
  snd (snd (Server.on_message (fun c => (c =? 1)%nat) 102 0%nat Clear two_joined))
  = Some tt.
Proof.
  apply (message_handler_contains_failures two_joined 0%nat Clear
           (fun c => (c =? 1)%nat) 102).
  reflexivity.
Defined.

(** ** The registry: colors, round trips and missing keys *)

Lemma join_many_colors mgr joins :
  map user_color (snd (join_many mgr joins))
  = map (fun i => palette_at (RoomManager.colorIndex mgr + i))
      (seq 0 (length joins))
  ∧ RoomManager.colorIndex (fst (join_many mgr joins))
    = (RoomManager.colorIndex mgr + length joins)%nat.
Proof.
  revert mgr. induction joins as [|[[roomId ws] username] joins IH]; intros mgr.
  - cbn. split; [done|lia].
  - cbn [join_many].
    destruct (addUser_spec mgr roomId ws username)
      as (_ & _ & Hci & _ & _ & Hcol & _).
    destruct (RoomManager.addUser mgr roomId ws username) as [mgr1 [user room]].
    cbn [fst snd] in Hci, Hcol. destruct (IH mgr1) as [IH1 IH2].
    destruct (join_many mgr1 joins) as [mgr2 us]. cbn [fst snd] in *.
    cbn [length seq map]. rewrite IH1, IH2, Hci, Hcol. split; [|lia].
    f_equal; [unfold palette_at; by rewrite Nat.add_0_r|].
    rewrite <- seq_shift, map_map. apply map_ext. intros i. f_equal. lia.
Qed.

Lemma palette_window_NoDup (c : nat) :
  NoDup (map (fun i => palette_at (c + i)) (seq 0 8)).
Proof.
  assert (Hmod : ∀ i, palette_at (c + i) = palette_at (c mod 8 + i)).
  { intros i. unfold palette_at. cbn [length RoomManager.userColors].
    by rewrite (Nat.Div0.add_mod_idemp_l c i 8). }
  rewrite (map_ext _ _ Hmod).
  assert (Hk : (c mod 8 < 8)%nat) by (apply Nat.mod_upper_bound; lia).
  destruct (c mod 8)%nat as [|[|[|[|[|[|[|[|k]]]]]]]]; [..|lia];
    apply (bool_decide_unpack _); by vm_compute.
Qed.

(** Colors go round the palette with one process-wide counter: the [i]-th
    of any run of joins, to whatever rooms, gets the palette entry at
    [colorIndex + i] modulo 8, the counter grows by one per join, every color
    handed out is a palette entry, and any eight joins in a row get eight
    different colors. *)
Theorem palette_is_round_robin (mgr : RoomManager.t)
    (joins : list (string * Conn * option string)) :
  let colors := map user_color (snd (join_many mgr joins)) in
  colors = map (fun i => palette_at (RoomManager.colorIndex mgr + i))
             (seq 0 (length joins))
  ∧ RoomManager.colorIndex (fst (join_many mgr joins))
    = (RoomManager.colorIndex mgr + length joins)%nat
  ∧ (∀ color, color ∈ colors → color ∈ RoomManager.userColors)
  ∧ (length joins = 8%nat → NoDup colors).
Proof.
  intros colors. subst colors. destruct (join_many_colors mgr joins) as [Hc Hi].
  split; [done|]. split; [done|]. rewrite Hc. split.
  - intros color Hin. apply list_elem_of_fmap in Hin as (i & -> & _).
    unfold palette_at.
    assert (Hlt : ((RoomManager.colorIndex mgr + i) mod length RoomManager.userColors
                   < length RoomManager.userColors)%nat)
      by (apply Nat.mod_upper_bound; cbn; lia).
    destruct (lookup_lt_is_Some_2 _ _ Hlt) as [col Hcol].
    rewrite Hcol. cbn [default]. by eapply list_elem_of_lookup_2.
  - intros ->. apply palette_window_NoDup.
Qed.

Lemma palette_is_round_robin_witness :
  NoDup (map user_color
           (snd (join_many RoomManager.new
                   [("a", 0, None); ("b", 1, None); ("a", 2, None); ("c", 3, None);
                    ("a", 4, None); ("b", 5, None); ("d", 6, None); ("a", 7, None)]%nat))).
Proof.
  apply (palette_is_round_robin RoomManager.new
           [("a", 0, None); ("b", 1, None); ("a", 2, None); ("c", 3, None);
            ("a", 4, None); ("b", 5, None); ("d", 6, None); ("a", 7, None)]%nat).
  reflexivity.
Defined.

Section UserMapRoundTrips.
Context {V : Type}.
Implicit Types (m : list (nat * V)) (k n : nat) (v : V).

Lemma jsmap_delete_absent m k : jsmap_get m k = None → jsmap_delete m k = m.
Proof.
  induction m as [|[k1 v1] m IH]; cbn [jsmap_get jsmap_delete]; [done|].
  case_decide; [done|]. intros Hget. by rewrite IH.
Qed.

Lemma jsmap_delete_snoc_above m n v :
  Forall (fun e => (fst e < n)%nat) m → jsmap_delete (m ++ [(n, v)]) n = m.
Proof.
  induction 1 as [|[k1 v1] m H1 _ IH]; cbn [app jsmap_delete].
  - by rewrite decide_True.
  - cbn [fst] in H1. rewrite decide_False by lia. by rewrite IH.
Qed.

Lemma jsmap_set_set m k v1 v2 :
  jsmap_set (jsmap_set m k v1) k v2 = jsmap_set m k v2.
Proof.
  induction m as [|[k1 v0] m IH]; cbn [jsmap_set].
  - by rewrite decide_True.
  - case_decide as Heq; cbn [jsmap_set].
    + by rewrite decide_True.
    + rewrite decide_False by done. by rewrite IH.
Qed.

End UserMapRoundTrips.

(** A join followed by the leave of the participant just added gives the
    room back as it was, participants and log, or removes the room again when
    the join had created it; no other room changes. What does not come back
    are the two counters: the room's next id and the palette index stay
    advanced, so that id and that color turn are not handed out again. *)
Theorem join_then_leave_restores_room (mgr : RoomManager.t) (r : string)
    (ws : Conn) (username : option string) :
  rooms_ok mgr →
  let joined := RoomManager.addUser mgr r ws username in
  let left := RoomManager.removeUser (fst joined) r (user_id (fst (snd joined))) in
  RoomManager.colorIndex (fst left) = S (RoomManager.colorIndex mgr)
  ∧ (∀ r', r' ≠ r →
           RoomManager.rooms (fst left) !! r' = RoomManager.rooms mgr !! r')
  ∧ match RoomManager.rooms mgr !! r with
    | None => RoomManager.rooms (fst left) !! r = None ∧ snd left = None
    | Some room =>
        ∃ room', RoomManager.rooms (fst left) !! r = Some room'
                 ∧ snd left = Some room'
                 ∧ users room' = users room
                 ∧ drawingState room' = drawingState room
                 ∧ nextUserId room' = S (nextUserId room)
    end.
Proof.
  intros Hok joined left. subst left joined.
  destruct (addUser_spec mgr r ws username)
    as (Hnew & Hother & Hci & Hid & _ & _ & Hus & Hnext & Hds).
  set (res := RoomManager.addUser mgr r ws username) in *.
  assert (Hrm : RoomManager.removeUser (fst res) r (user_id (fst (snd res)))
                = (let room1 := snd (snd res) in
                   let room' := {| room_id := room_id room1;
                                   users := jsmap_delete (users room1)
                                              (user_id (fst (snd res)));
                                   drawingState := drawingState room1;
                                   nextUserId := nextUserId room1 |} in
                   if decide (length (users room') = 0%nat) then
                     ({| RoomManager.rooms := delete r (RoomManager.rooms (fst res));
                         RoomManager.colorIndex := RoomManager.colorIndex (fst res) |},
                      None)
                   else
                     ({| RoomManager.rooms := <[r := room']> (RoomManager.rooms (fst res));
                         RoomManager.colorIndex := RoomManager.colorIndex (fst res) |},
                      Some room'))).
  { unfold RoomManager.removeUser. by rewrite Hnew. }
  rewrite Hrm. cbv zeta. cbn [users]. rewrite Hus, Hid.
  destruct (RoomManager.rooms mgr !! r) as [room|] eqn:Hroom.
  - destruct (Hok r room Hroom) as (_ & Hne & _ & Hall & _).
    assert (Hbelow : Forall (fun e => (fst e < nextUserId room)%nat) (users room)).
    { eapply Forall_impl; [exact Hall|]. intros e [_ ?]. lia. }
    rewrite jsmap_set_fresh by (by apply jsmap_get_above).
    rewrite jsmap_delete_snoc_above by done.
    rewrite decide_False by (by destruct (users room)).
    cbn [fst snd RoomManager.rooms RoomManager.colorIndex].
    split; [done|]. split.
    + intros r' Hr'. rewrite lookup_insert_ne by done. by apply Hother.
    + eexists. rewrite lookup_insert_eq. split; [reflexivity|].
      split; [reflexivity|]. cbn [users drawingState nextUserId]. done.
  - cbn [jsmap_set jsmap_delete]. repeat (rewrite decide_True by done).
    cbn [fst snd RoomManager.rooms RoomManager.colorIndex].
    split; [done|]. split.
    + intros r' Hr'. rewrite lookup_delete_ne by done. by apply Hother.
    + by rewrite lookup_delete_eq.
Qed.

Lemma join_then_leave_restores_room_witness :
  let mgr := Server.roomManager two_joined in
  let joined := RoomManager.addUser mgr "r" 9%nat None in
  ∃ room room',
    RoomManager.rooms mgr !! "r" = Some room
    ∧ RoomManager.rooms
        (fst (RoomManager.removeUser (fst joined) "r" (user_id (fst (snd joined)))))
        !! "r" = Some room'
    ∧ users room' = users room.
Proof.
  intros mgr joined.
  pose proof (join_then_leave_restores_room mgr "r" 9%nat None
                (reachable_rooms_ok two_joined reachable_two_joined))
    as (_ & _ & H).
  destruct (RoomManager.rooms mgr !! "r") as [room|] eqn:Hroom;
    [|vm_compute in Hroom; discriminate].
  destruct H as (room' & H1 & _ & H2 & _). by exists room, room'.
Defined.

(** A leave for a room the registry does not have, or for an id the room
    does not have, changes nothing at all; it returns [null] in the first
    case and the room itself in the second. *)
Theorem leave_of_unknown_participant (mgr : RoomManager.t) (r : string) (u : nat) :
  rooms_ok mgr →
  (∀ room, RoomManager.rooms mgr !! r = Some room →
           jsmap_get (users room) u = None) →
  RoomManager.removeUser mgr r u = (mgr, RoomManager.rooms mgr !! r).
Proof.
  intros Hok Habs. unfold RoomManager.removeUser.
  destruct (RoomManager.rooms mgr !! r) as [room|] eqn:Hroom; [|done].
  rewrite (jsmap_delete_absent _ _ (Habs room eq_refl)).
  destruct (Hok r room Hroom) as (_ & Hne & _).
  rewrite decide_False by (by destruct (users room)).
  assert (Heta : {| room_id := room_id room; users := users room;
                    drawingState := drawingState room;
                    nextUserId := nextUserId room |} = room) by (by destruct room).
  rewrite Heta, insert_id by done. by destruct mgr.
Qed.

Lemma leave_of_unknown_participant_witness :
  RoomManager.removeUser (Server.roomManager two_joined) "r" 7
  = (Server.roomManager two_joined,
     RoomManager.rooms (Server.roomManager two_joined) !! "r").
Proof.
  apply (leave_of_unknown_participant (Server.roomManager two_joined) "r" 7).
  - apply (reachable_rooms_ok two_joined reachable_two_joined).
  - intros room Hroom. vm_compute in Hroom. injection Hroom as <-. reflexivity.
Defined.

(** [getOrCreateRoom] is idempotent: the room it returns is the one stored
    under the key afterwards, a second call returns the same registry and
    room, an existing room is returned untouched, a missing one is created
    empty with counter 1 and a new log, and no other key changes. *)
Theorem getOrCreateRoom_idempotent (mgr : RoomManager.t) (r : string) :
  let res := RoomManager.getOrCreateRoom mgr r in
  RoomManager.rooms (fst res) !! r = Some (snd res)
  ∧ RoomManager.getOrCreateRoom (fst res) r = res
  ∧ (∀ r', r' ≠ r →
           RoomManager.rooms (fst res) !! r' = RoomManager.rooms mgr !! r')
  ∧ RoomManager.colorIndex (fst res) = RoomManager.colorIndex mgr
  ∧ match RoomManager.rooms mgr !! r with
    | Some room => res = (mgr, room)
    | None => snd res = {| room_id := r; users := [];
                           drawingState := DrawingState.new; nextUserId := 1 |}
    end.
Proof.
  intros res. subst res. unfold RoomManager.getOrCreateRoom.
  destruct (RoomManager.rooms mgr !! r) as [room|] eqn:Hroom; cbn [fst snd].
  - rewrite Hroom. done.
  - cbn [RoomManager.rooms RoomManager.colorIndex]. rewrite lookup_insert_eq.
    split; [done|]. split; [done|]. split; [|done].
    intros r' Hne. by rewrite lookup_insert_ne.
Qed.

Lemma getUserList_set_same_public us u (user user' : User) room_id0 ds next :
  jsmap_get us u = Some user →
  user_id user' = user_id user → user_username user' = user_username user →
  user_color user' = user_color user →
  RoomManager.getUserList
    {| room_id := room_id0; users := jsmap_set us u user';
       drawingState := ds; nextUserId := next |}
  = RoomManager.getUserList
      {| room_id := room_id0; users := us; drawingState := ds; nextUserId := next |}.
Proof.
  intros Hget Hid Hname Hcol. unfold RoomManager.getUserList. cbn [users].
  induction us as [|[k1 v1] us IH]; cbn [jsmap_get jsmap_set] in *; [done|].
  case_decide as Heq; cbn [map].
  - injection Hget as ->. by rewrite Hid, Hname, Hcol.
  - by rewrite IH.
Qed.

(** [updateUserCursor] answers [false] and changes nothing when the room or
    the participant is missing. Otherwise it answers [true] and overwrites
    that participant's cursor only: the other entries, the order, the public
    list of [getUserList], the log, the counters and the other rooms stay;
    and a second update replaces the first, nothing accumulates. *)
Theorem updateUserCursor_overwrites (mgr : RoomManager.t) (r : string) (u : nat)
    (cursor cursor2 : Z * Z) :
  let res := RoomManager.updateUserCursor mgr r u cursor in
  match RoomManager.rooms mgr !! r with
  | None => res = (mgr, false)
  | Some room =>
      match jsmap_get (users room) u with
      | None => res = (mgr, false)
      | Some user =>
          snd res = true
          ∧ ∃ room' user',
              RoomManager.rooms (fst res) !! r = Some room'
              ∧ jsmap_get (users room') u = Some user'
              ∧ user_cursor user' = Some cursor
              ∧ user_id user' = user_id user ∧ user_ws user' = user_ws user
              ∧ (∀ u', u' ≠ u →
                       jsmap_get (users room') u' = jsmap_get (users room) u')
              ∧ map fst (users room') = map fst (users room)
              ∧ RoomManager.getUserList room' = RoomManager.getUserList room
              ∧ drawingState room' = drawingState room
              ∧ nextUserId room' = nextUserId room
      end
  end
  ∧ (∀ r', r' ≠ r →
           RoomManager.rooms (fst res) !! r' = RoomManager.rooms mgr !! r')
  ∧ RoomManager.colorIndex (fst res) = RoomManager.colorIndex mgr
  ∧ fst (RoomManager.updateUserCursor (fst res) r u cursor2)
    = fst (RoomManager.updateUserCursor mgr r u cursor2).
Proof.
  intros res. subst res. unfold RoomManager.updateUserCursor.
  destruct (RoomManager.rooms mgr !! r) as [room|] eqn:Hroom; cbn [fst snd];
    [|by rewrite Hroom].
  destruct (jsmap_get (users room) u) as [user|] eqn:Hget; cbn [fst snd];
    [|by rewrite Hroom, Hget].
  cbn [RoomManager.rooms RoomManager.colorIndex]. rewrite lookup_insert_eq.
  cbn [users]. rewrite jsmap_get_set_eq.
  split; [|split; [|split; [done|]]].
  - split; [done|]. eexists _, _. split; [reflexivity|].
    cbn [users drawingState nextUserId]. rewrite jsmap_get_set_eq.
    split; [reflexivity|]. cbn [user_cursor user_id user_ws].
    split; [done|]. split; [done|]. split; [done|]. split.
    + intros u' Hne. by rewrite jsmap_get_set_ne.
    + split; [by eapply jsmap_set_present_keys|].
      split; [|done].
      destruct room as [rid us ds next]. cbn [room_id users drawingState nextUserId] in *.
      by eapply getUserList_set_same_public.
  - intros r' Hne. by rewrite lookup_insert_ne.
  - cbn [room_id users drawingState nextUserId user_id user_username
         user_color user_ws].
    by rewrite insert_insert_eq, jsmap_set_set.
Qed.

(** ** What the handlers send, and to whom *)

Lemma jsmap_delete_set {V : Type} (m : list (nat * V)) k v :
  jsmap_delete (jsmap_set m k v) k = jsmap_delete m k.
Proof.
  induction m as [|[k1 v1] m IH]; cbn [jsmap_set jsmap_delete].
  - by rewrite decide_True.
  - case_decide as Heq; cbn [jsmap_delete].
    + by rewrite decide_True.
    + rewrite decide_False by done. by rewrite IH.
Qed.

(** Excluding an id from a broadcast is broadcasting to the map without
    that id. *)
Lemma broadcast_targets_exclude readyState us u :
  broadcast_targets readyState us (Some u)
  = broadcast_targets readyState (jsmap_delete us u) None.
Proof.
  unfold broadcast_targets.
  induction us as [|[k1 v1] us IH]; cbn [jsmap_delete List.filter]; [done|].
  destruct (decide (k1 = u)) as [->|Hne].
  - assert (eligible readyState (Some u) (u, v1) = false) as ->; [|done].
    unfold eligible. cbn [fst RoomManager.not_excluded].
    by rewrite Nat.eqb_refl.
  - assert (eligible readyState (Some u) (k1, v1)
            = eligible readyState None (k1, v1)) as ->.
    { unfold eligible. cbn [fst RoomManager.not_excluded].
      by destruct (Nat.eqb_spec k1 u). }
    cbn [List.filter].
    destruct (eligible readyState None (k1, v1)); cbn [map]; by rewrite IH.
Qed.

Lemma broadcast_targets_open readyState us excl c :
  c ∈ broadcast_targets readyState us excl → readyState c = 1%Z.
Proof.
  intros Hc. apply broadcast_targets_elem in Hc as (uid & u & _ & -> & H & _).
  done.
Qed.

Lemma sent_to_absent ws (cs : list Conn) msg :
  ws ∉ cs → Server.sent_to ws (map (fun c => (c, msg)) cs) = [].
Proof.
  unfold Server.sent_to. induction cs as [|c cs IH]; [done|].
  intros Hnin. apply not_elem_of_cons in Hnin as [Hne Hnin].
  cbn [map]. rewrite list.filter_cons. cbn [fst].
  rewrite decide_False by done. by apply IH.
Qed.

Lemma relay_effect s sendRaises ws r room msg u :
  RoomManager.rooms (Server.roomManager s) !! r = Some room →
  (∀ c, sendRaises c = false) →
  try_catch (Server.broadcast s sendRaises (Some r) msg (Some u))
    (ws_send sendRaises ws Server.error_reply)
  = (map (fun c => (c, msg))
       (broadcast_targets (Server.readyState s) (jsmap_delete (users room) u) None),
     Some tt).
Proof.
  intros Hroom Hok. unfold Server.broadcast, RoomManager.broadcastToRoom.
  rewrite Hroom, broadcast_loop_no_raise by done.
  by rewrite broadcast_targets_exclude.
Qed.

Lemma relay_effect_set_drawingState s sendRaises ws r room ds msg u :
  (∀ c, sendRaises c = false) →
  try_catch (Server.broadcast (Server.set_drawingState s r room ds) sendRaises
               (Some r) msg (Some u))
    (ws_send sendRaises ws Server.error_reply)
  = (map (fun c => (c, msg))
       (broadcast_targets (Server.readyState s) (jsmap_delete (users room) u) None),
     Some tt).
Proof.
  intros Hok.
  rewrite (relay_effect (Server.set_drawingState s r room ds) sendRaises ws r
             {| room_id := room_id room; users := users room;
                drawingState := ds; nextUserId := nextUserId room |} msg u);
    [done| |done].
  unfold Server.set_drawingState. cbn [Server.roomManager RoomManager.rooms].
  apply lookup_insert_eq.
Qed.

(** A drawing message of a joined connection is relayed, stamped with the
    sender's id and the server's clock, to every open participant entry of
    the room except the sender's own, and to nobody else; draw-start and
    draw-move change no state at all, and only draw-end carries an
    [operationId], the index the log gave it. *)
Theorem draw_is_relayed_to_others
    (s : Server.State) (ws : Conn) (r : string) (u : nat) (room : Room)
    (sendRaises : Conn → bool) (now : Z) (kind : DrawKind)
    (tool color : string) (lw x y : Z) :
  in_session s ws r u →
  RoomManager.rooms (Server.roomManager s) !! r = Some room →
  (∀ c, sendRaises c = false) →
  let res := Server.on_message sendRaises now ws (Draw kind tool color lw x y) s in
  let operation :=
    {| op_type := kind; op_userId := Some u; op_tool := tool; op_color := color;
       op_lineWidth := lw; op_x := x; op_y := y; op_timestamp := now;
       op_operationId :=
         match kind with
         | DrawEnd => Some (DrawingState.currentIndex (drawingState room) + 1)%Z
         | _ => None
         end |} in
  snd res
  = (map (fun c => (c, DrawMsg operation))
       (broadcast_targets (Server.readyState s) (jsmap_delete (users room) u) None),
     Some tt)
  ∧ (kind ≠ DrawEnd → fst res = s).
Proof.
  intros [Hr Hu] Hroom Hok res operation. subst res operation. split.
  - unfold Server.on_message. cbv zeta.
    rewrite Hr, Hu, (current_room_lookup s ws r room Hr Hroom).
    destruct kind; cbn [DrawingState.addOperation fst snd set_operationId
                        op_type op_userId op_tool op_color op_lineWidth op_x
                        op_y op_timestamp].
    + by apply relay_effect.
    + by apply relay_effect.
    + by apply relay_effect_set_drawingState.
  - apply draw_start_move_not_logged.
Qed.

Lemma draw_is_relayed_to_others_witness :
  snd (Server.on_message (fun _ => false) 102 0%nat
         (Draw DrawMove "brush" "#000000" 3 7 8) two_joined)
  = ([(1%nat, DrawMsg {| op_type := DrawMove; op_userId := Some 1%nat;
                         op_tool := "brush"; op_color := "#000000";
                         op_lineWidth := 3; op_x := 7; op_y := 8;
                         op_timestamp := 102; op_operationId := None |})],
     Some tt).
Proof.
  destruct (RoomManager.rooms (Server.roomManager two_joined) !! "r")
    as [room|] eqn:Hroom; [|vm_compute in Hroom; discriminate].
  destruct (draw_is_relayed_to_others two_joined 0%nat "r" 1%nat room
              (fun _ => false) 102%Z DrawMove "brush" "#000000" 3%Z 7%Z 8%Z)
    as [-> _]; [by split|exact Hroom|done|].
  vm_compute in Hroom. injection Hroom as <-. reflexivity.
Defined.

(** A cursor-move of a joined connection stores the point as the cursor of
    the sender's entry, touching neither the log nor the other entries, and
    is relayed with the sender's id to every open participant entry of the
    room except the sender's own. *)
Theorem cursor_move_is_relayed
    (s : Server.State) (ws : Conn) (r : string) (u : nat) (room : Room)
    (user : User) (sendRaises : Conn → bool) (now : Z) (x y : Z) :
  in_session s ws r u →
  RoomManager.rooms (Server.roomManager s) !! r = Some room →
  jsmap_get (users room) u = Some user →
  (∀ c, sendRaises c = false) →
  let res := Server.on_message sendRaises now ws (CursorMove x y) s in
  snd res
  = (map (fun c => (c, CursorUpdate (Some u) x y))
       (broadcast_targets (Server.readyState s) (jsmap_delete (users room) u) None),
     Some tt)
  ∧ ∃ room' user',
      RoomManager.rooms (Server.roomManager (fst res)) !! r = Some room'
      ∧ jsmap_get (users room') u = Some user'
      ∧ user_cursor user' = Some (x, y)
      ∧ user_ws user' = user_ws user
      ∧ map fst (users room') = map fst (users room)
      ∧ drawingState room' = drawingState room.
Proof.
  intros [Hr Hu] Hroom Hget Hok res. subst res.
  unfold Server.on_message. cbv zeta. rewrite Hr, Hu. cbn [fst snd].
  unfold RoomManager.updateUserCursor. rewrite Hroom, Hget. cbn [fst].
  split.
  - erewrite relay_effect; [|cbn [Server.set_roomManager Server.roomManager
                                  RoomManager.rooms]; apply lookup_insert_eq|done].
    cbn [users Server.set_roomManager Server.readyState].
    by rewrite jsmap_delete_set.
  - eexists _, _. cbn [Server.set_roomManager Server.roomManager RoomManager.rooms].
    rewrite lookup_insert_eq. split; [reflexivity|]. cbn [users drawingState].
    rewrite jsmap_get_set_eq. split; [reflexivity|].
    cbn [user_cursor user_ws]. split; [done|]. split; [done|].
    split; [by eapply jsmap_set_present_keys|done].
Qed.

Lemma cursor_move_is_relayed_witness :
  snd (Server.on_message (fun _ => false) 102 1%nat (CursorMove 3 4) two_joined)
  = ([(0%nat, CursorUpdate (Some 2%nat) 3 4)], Some tt).
Proof.
  destruct (RoomManager.rooms (Server.roomManager two_joined) !! "r")
    as [room|] eqn:Hroom; [|vm_compute in Hroom; discriminate].
  destruct (jsmap_get (users room) 2) as [user|] eqn:Hget;
    [|vm_compute in Hroom; injection Hroom as <-; discriminate].
  destruct (cursor_move_is_relayed two_joined 1%nat "r" 2%nat room user
              (fun _ => false) 102%Z 3%Z 4%Z)
    as [-> _]; [by split|exact Hroom|exact Hget|done|].
  vm_compute in Hroom. injection Hroom as <-. reflexivity.
Defined.

Lemma getUserList_app rid us1 us2 ds next :
  RoomManager.getUserList
    {| room_id := rid; users := us1 ++ us2; drawingState := ds; nextUserId := next |}
  = RoomManager.getUserList
      {| room_id := rid; users := us1; drawingState := ds; nextUserId := next |}
    ++ RoomManager.getUserList
         {| room_id := rid; users := us2; drawingState := ds; nextUserId := next |}.
Proof. unfold RoomManager.getUserList. cbn [users]. apply map_app. Qed.

(** A join into a room that exists, in a reachable state and with no [send]
    failing: the joiner gets the room's next id and is appended to the
    participant list; the welcome carries the visible part of the room's log
    and the list with the joiner last; every open participant that was there
    before gets one [user-joined] with the same list, once per entry; the
    joiner's new entry gets none. *)
Theorem join_is_announced
    (s : Server.State) (ws : Conn) (roomId username : option string)
    (room : Room) (sendRaises : Conn → bool) (now : Z) :
  Server.reachable s →
  RoomManager.rooms (Server.roomManager s) !! Server.roomId_or_default roomId
  = Some room →
  (∀ c, sendRaises c = false) →
  let res := Server.on_message sendRaises now ws (Join roomId username) s in
  let n := nextUserId room in
  let info := {| ui_id := n;
                 ui_username := RoomManager.username_or_default username n;
                 ui_color := palette_at (RoomManager.colorIndex (Server.roomManager s)) |} in
  let listed := RoomManager.getUserList room ++ [info] in
  snd res
  = ((ws, Joined n (ui_color info) (ui_username info)
            (DrawingState.getVisibleOperations (drawingState room)) listed)
     :: map (fun c => (c, UserJoined info listed))
          (broadcast_targets (Server.readyState s) (users room) None),
     Some tt)
  ∧ in_session (fst res) ws (Server.roomId_or_default roomId) n
  ∧ ∃ room', RoomManager.rooms (Server.roomManager (fst res))
               !! Server.roomId_or_default roomId = Some room'
             ∧ RoomManager.getUserList room' = listed
             ∧ drawingState room' = drawingState room.
Proof.
  intros Hreach Hroom Hok res n info listed. subst res n info listed.
  destruct (reachable_rooms_ok s Hreach _ room Hroom) as (_ & _ & _ & Hall & _).
  assert (Hbelow : Forall (fun e => (fst e < nextUserId room)%nat) (users room)).
  { eapply Forall_impl; [exact Hall|]. intros e [_ ?]. lia. }
  unfold Server.on_message. cbv zeta.
  unfold RoomManager.addUser, RoomManager.getOrCreateRoom. rewrite Hroom.
  cbn [nextUserId users room_id drawingState fst snd user_id user_color
       user_username user_ws RoomManager.rooms RoomManager.colorIndex].
  rewrite jsmap_set_fresh by (by apply jsmap_get_above).
  destruct room as [rid us ds next].
  cbn [room_id users drawingState nextUserId] in *.
  rewrite getUserList_app.
  unfold Server.broadcast, RoomManager.broadcastToRoom.
  cbn [Server.roomManager Server.readyState RoomManager.rooms].
  rewrite lookup_insert_eq. cbn [users].
  rewrite broadcast_loop_no_raise by done.
  rewrite broadcast_targets_exclude, jsmap_delete_snoc_above by done.
  unfold ws_send. rewrite Hok.
  cbn [eff_bind try_catch app].
  split; [done|]. split.
  - split; cbn [Server.sessions]; by rewrite fn_lookup_insert.
  - eexists. split; [reflexivity|]. by rewrite getUserList_app.
Qed.

Lemma join_is_announced_witness :
  Server.sent_to 0%nat
    (fst (snd (Server.on_message (fun _ => false) 101 1%nat
                 (Join (Some "r") (Some "bob")) one_joined)))
  = [UserJoined {| ui_id := 2; ui_username := "bob"; ui_color := "#4ECDC4" |}
       [{| ui_id := 1; ui_username := "ann"; ui_color := "#FF6B6B" |};
        {| ui_id := 2; ui_username := "bob"; ui_color := "#4ECDC4" |}]].
Proof.
  assert (Hreach : Server.reachable one_joined).
  { apply (Server.reachable_step Server.init
             (Server.EvMessage 0%nat (Join (Some "r") (Some "ann")) 100
                (fun _ => false))); [apply Server.reachable_init|reflexivity]. }
  destruct (RoomManager.rooms (Server.roomManager one_joined) !! "r")
    as [room|] eqn:Hroom; [|vm_compute in Hroom; discriminate].
  destruct (join_is_announced one_joined 1%nat (Some "r") (Some "bob") room
              (fun _ => false) 101%Z Hreach Hroom) as [-> _]; [done|].
  vm_compute in Hroom. injection Hroom as <-. reflexivity.
Defined.

(** The close of a joined connection whose room keeps other participants,
    with no [send] failing: the leaver's entry is removed, the room, its
    log and the other entries stay, and every remaining open participant
    entry gets one [user-left] carrying the remaining list. The closed
    connection itself gets nothing, whatever entries it still has. *)
Theorem leave_is_announced
    (s : Server.State) (ws : Conn) (r : string) (u : nat) (room : Room)
    (sendRaises : Conn → bool) :
  Server.joined_session (Server.sessions s ws) = Some (r, u) →
  RoomManager.rooms (Server.roomManager s) !! r = Some room →
  jsmap_delete (users room) u ≠ [] →
  (∀ c, sendRaises c = false) →
  let res := Server.handle_event s (Server.EvClose ws sendRaises) in
  let room' := {| room_id := room_id room;
                  users := jsmap_delete (users room) u;
                  drawingState := drawingState room;
                  nextUserId := nextUserId room |} in
  RoomManager.rooms (Server.roomManager (fst res)) !! r = Some room'
  ∧ snd res
    = (map (fun c => (c, UserLeft u (RoomManager.getUserList room')))
         (broadcast_targets (Server.readyState (fst res)) (users room') None),
       Some tt)
  ∧ Server.readyState (fst res) ws = CLOSED
  ∧ Server.sent_to ws (fst (snd res)) = [].
Proof.
  intros Hjs Hroom Hne Hok res room'. subst res.
  cbn [Server.handle_event]. unfold Server.on_close.
  cbn [Server.set_readyState Server.sessions Server.roomManager].
  rewrite Hjs. unfold RoomManager.removeUser. rewrite Hroom. fold room'.
  rewrite decide_False by (intros Hl; by apply Hne, nil_length_inv).
  unfold Server.broadcast, RoomManager.broadcastToRoom,
    Server.set_roomManager, Server.set_readyState.
  cbn [fst snd Server.roomManager Server.readyState RoomManager.rooms].
  rewrite !lookup_insert_eq. cbv iota.
  rewrite broadcast_loop_no_raise by done. cbn [fst snd].
  split; [done|]. split; [done|]. split; [by rewrite fn_lookup_insert|].
  apply sent_to_absent. intros Hin.
  apply broadcast_targets_open in Hin. by rewrite fn_lookup_insert in Hin.
Qed.

Lemma leave_is_announced_witness :
  snd (Server.handle_event two_joined (Server.EvClose 0%nat (fun _ => false)))
  = ([(1%nat, UserLeft 1 [{| ui_id := 2; ui_username := "bob";
                             ui_color := "#4ECDC4" |}])], Some tt).
Proof.
  destruct (RoomManager.rooms (Server.roomManager two_joined) !! "r")
    as [room|] eqn:Hroom; [|vm_compute in Hroom; discriminate].
  destruct (leave_is_announced two_joined 0%nat "r" 1%nat room (fun _ => false))
    as (_ & -> & _); [reflexivity|exact Hroom| |done|].
  - vm_compute in Hroom. injection Hroom as <-. discriminate.
  - vm_compute in Hroom. injection Hroom as <-. reflexivity.
Defined.

(** ** The canvas *)

Lemma segments_cons tool color width (p q : Z * Z) l :
  segments tool color width (p :: q :: l)
  = Canvas.styled tool color width [p; q] :: segments tool color width (q :: l).
Proof. done. Qed.

Lemma segments_length tool color width (p : Z * Z) l :
  length (segments tool color width (p :: l)) = length l.
Proof.
  revert p. induction l as [|q l IH]; intros p; [done|].
  rewrite segments_cons. cbn [length]. by rewrite IH.
Qed.

Lemma draw_chain (c : Canvas.t) (pts : list (Z * Z)) :
  Canvas.isDrawing c = true →
  let c1 := foldl (fun c0 p => Canvas.draw c0 (fst p) (snd p)) c pts in
  Canvas.surface c1
  = Canvas.surface c
    ++ segments (Canvas.tool c) (Canvas.color c) (Canvas.lineWidth c)
         ((Canvas.lastX c, Canvas.lastY c) :: pts)
  ∧ Canvas.currentPath c1 = Canvas.currentPath c ++ pts
  ∧ Canvas.isDrawing c1 = true
  ∧ Canvas.tool c1 = Canvas.tool c ∧ Canvas.color c1 = Canvas.color c
  ∧ Canvas.lineWidth c1 = Canvas.lineWidth c
  ∧ Canvas.remoteLast c1 = Canvas.remoteLast c.
Proof.
  revert c. induction pts as [|[x y] pts IH]; intros c Hd; cbn [foldl].
  - cbn [segments]. by rewrite !app_nil_r.
  - specialize (IH (Canvas.draw c x y)). unfold Canvas.draw in *.
    rewrite Hd in *. cbn [negb fst snd] in *.
    destruct (IH eq_refl) as (Hs & Hp & Hi & Ht & Hc & Hw & Hr).
    cbn [Canvas.surface Canvas.currentPath Canvas.tool Canvas.color
         Canvas.lineWidth Canvas.lastX Canvas.lastY Canvas.remoteLast
         Canvas.isDrawing] in *.
    rewrite Hs, Hp, Hi, Ht, Hc, Hw, Hr. cbn [segments].
    by rewrite <- !app_assoc.
Qed.

(** Local drawing: after [startDrawing] at a point and [draw] at each of
    [pts], the canvas has gained one segment per drawn point, each from the
    previous point to the next, in the canvas's own style, and [currentPath]
    is the start point followed by [pts]. [stopDrawing] then answers [true]
    once; after it a second [stopDrawing] answers [false] and [draw] does
    nothing. *)
Theorem local_stroke_is_connected (c : Canvas.t) (x0 y0 : Z) (pts more : list (Z * Z)) :
  let c1 := foldl (fun c0 p => Canvas.draw c0 (fst p) (snd p))
              (Canvas.startDrawing c x0 y0) pts in
  let c2 := fst (Canvas.stopDrawing c1) in
  Canvas.surface c1
  = Canvas.surface c
    ++ segments (Canvas.tool c) (Canvas.color c) (Canvas.lineWidth c)
         ((x0, y0) :: pts)
  ∧ Canvas.currentPath c1 = (x0, y0) :: pts
  ∧ length (Canvas.surface c1) = (length (Canvas.surface c) + length pts)%nat
  ∧ snd (Canvas.stopDrawing c1) = true
  ∧ Canvas.stopDrawing c2 = (c2, false)
  ∧ foldl (fun c0 p => Canvas.draw c0 (fst p) (snd p)) c2 more = c2.
Proof.
  intros c1 c2.
  destruct (draw_chain (Canvas.startDrawing c x0 y0) pts eq_refl)
    as (Hs & Hp & Hi & _).
  fold c1 in Hs, Hp, Hi. cbn [Canvas.startDrawing Canvas.surface Canvas.tool
    Canvas.color Canvas.lineWidth Canvas.lastX Canvas.lastY Canvas.currentPath]
    in Hs, Hp.
  split; [done|]. split; [done|].
  split; [by rewrite Hs, length_app, segments_length|].
  assert (Hstop : ∃ c', Canvas.stopDrawing c1 = (c', true)
                        ∧ Canvas.isDrawing c' = false).
  { unfold Canvas.stopDrawing. rewrite Hi. cbn [negb]. by eexists. }
  destruct Hstop as (c' & Hstop & Hoff). subst c2. rewrite Hstop. cbn [fst snd].
  split; [done|]. split; [unfold Canvas.stopDrawing; by rewrite Hoff|].
  induction more as [|[x y] more IH]; [done|]. cbn [foldl fst snd].
  unfold Canvas.draw at 2. rewrite Hoff. exact IH.
Qed.

Lemma last_cons_default {A : Type} (p q : A) (l : list A) :
  List.last (p :: l) q = List.last l p.
Proof.
  revert p q. induction l as [|x l IH]; intros p q; [done|].
  change (List.last (p :: x :: l) q) with (List.last (x :: l) q).
  by rewrite !IH.
Qed.

Lemma remote_moves_chain (c : Canvas.t) (st : LoggedStroke) (q : Z * Z)
    (pts : list (Z * Z)) :
  Canvas.remoteLast c = Some q →
  let op kind (p : Z * Z) :=
    {| op_type := kind; op_userId := ls_userId st; op_tool := ls_tool st;
       op_color := ls_color st; op_lineWidth := ls_lineWidth st;
       op_x := fst p; op_y := snd p; op_timestamp := ls_timestamp st;
       op_operationId := None |} in
  let c1 := foldl Canvas.drawRemotePath c (map (op DrawMove) pts) in
  Canvas.surface c1
  = Canvas.surface c
    ++ segments (ls_tool st) (ls_color st) (ls_lineWidth st) (q :: pts)
  ∧ Canvas.remoteLast c1 = Some (List.last pts q)
  ∧ Canvas.currentPath c1 = Canvas.currentPath c
  ∧ Canvas.isDrawing c1 = Canvas.isDrawing c.
Proof.
  intros Hq op. revert c q Hq.
  induction pts as [|p pts IH]; intros c q Hq; cbn [map foldl].
  - cbn [segments List.last]. by rewrite app_nil_r.
  - set (c' := Canvas.drawRemotePath c (op DrawMove p)).
    assert (Hc' : c' = Canvas.set_remoteLast
                         (Canvas.paint c (Canvas.styled (ls_tool st) (ls_color st)
                                            (ls_lineWidth st) [q; p])) p).
    { subst c'. unfold Canvas.drawRemotePath.
      cbn [op_type op op_x op_y op_tool op_color op_lineWidth].
      rewrite Hq. by destruct p. }
    destruct (IH c' p) as (Hs & Hl & Hp & Hi); [by rewrite Hc'|].
    rewrite Hs, Hl, Hp, Hi, Hc'.
    cbn [Canvas.set_remoteLast Canvas.paint Canvas.surface Canvas.currentPath
         Canvas.isDrawing segments].
    rewrite <- app_assoc. split; [done|]. split; [|done].
    f_equal. symmetry. apply last_cons_default.
Qed.

Lemma drawRemotePath_end c (operation : Operation) :
  op_type operation = DrawEnd → Canvas.drawRemotePath c operation = c.
Proof. intros H. unfold Canvas.drawRemotePath. by rewrite H. Qed.

Lemma drawRemotePath_start c (operation : Operation) :
  op_type operation = DrawStart →
  Canvas.drawRemotePath c operation
  = Canvas.set_remoteLast c (op_x operation, op_y operation).
Proof. intros H. unfold Canvas.drawRemotePath. by rewrite H. Qed.

(** A remote gesture as the live handler paints it: draw-start only moves
    the tracked point, every draw-move paints the segment from the tracked
    point to its own, and draw-end paints nothing, so the painted line runs
    through the start point and the move points and is never joined to the
    gesture's end point. The local stroke in progress is not touched. *)
Theorem remote_gesture_stops_short_of_its_end (c : Canvas.t) (st : LoggedStroke) :
  let c1 := foldl Canvas.drawRemotePath c (stroke_operations st) in
  Canvas.surface c1
  = Canvas.surface c
    ++ segments (ls_tool st) (ls_color st) (ls_lineWidth st)
         (ls_start st :: ls_moves st)
  ∧ length (Canvas.surface c1)
    = (length (Canvas.surface c) + length (ls_moves st))%nat
  ∧ Canvas.remoteLast c1 = Some (List.last (ls_moves st) (ls_start st))
  ∧ Canvas.currentPath c1 = Canvas.currentPath c
  ∧ Canvas.isDrawing c1 = Canvas.isDrawing c.
Proof.
  intros c1. subst c1. unfold stroke_operations.
  cbn [foldl]. rewrite foldl_app. cbn [foldl].
  rewrite drawRemotePath_end by done.
  rewrite drawRemotePath_start by done. cbn [op_x op_y].
  destruct (remote_moves_chain (Canvas.set_remoteLast c (ls_start st)) st
              (ls_start st) (ls_moves st))
    as (Hs & Hl & Hp & Hi); [by destruct (ls_start st)|].
  cbv zeta in Hs, Hl, Hp, Hi.
  replace (fst (ls_start st), snd (ls_start st)) with (ls_start st)
    by (by destruct (ls_start st)).
  rewrite Hs, Hl, Hp, Hi.
  cbn [Canvas.set_remoteLast Canvas.surface Canvas.currentPath Canvas.isDrawing].
  split; [done|]. split; [|done].
  by rewrite length_app, segments_length.
Qed.

(** The live handler tracks one remote point for all participants: the
    segment a draw-move paints starts at the point of the last draw-start or
    draw-move received before it, whoever sent that one. *)
Theorem remote_point_is_shared (c : Canvas.t) (prev move : Operation) :
  op_type prev = DrawStart ∨ (op_type prev = DrawMove ∧ Canvas.remoteLast c ≠ None) →
  op_type move = DrawMove →
  Canvas.surface (Canvas.drawRemotePath (Canvas.drawRemotePath c prev) move)
  = Canvas.surface (Canvas.drawRemotePath c prev)
    ++ [Canvas.styled (op_tool move) (op_color move) (op_lineWidth move)
          [(op_x prev, op_y prev); (op_x move, op_y move)]].
Proof.
  intros Hprev Hmove.
  assert (Hlast : Canvas.remoteLast (Canvas.drawRemotePath c prev)
                  = Some (op_x prev, op_y prev)).
  { unfold Canvas.drawRemotePath.
    destruct Hprev as [-> | [-> Hne]]; [done|].
    by destruct (Canvas.remoteLast c). }
  unfold Canvas.drawRemotePath at 1. by rewrite Hmove, Hlast.
Qed.

Lemma remote_point_is_shared_witness :
  let a := mkOperation DrawStart (Some 1%nat) "brush" "#FF0000" 3 10 10 50 None in
  let b := mkOperation DrawStart (Some 2%nat) "brush" "#00FF00" 3 90 90 51 None in
  let m := mkOperation DrawMove (Some 1%nat) "brush" "#FF0000" 3 12 12 52 None in
  Canvas.surface (foldl Canvas.drawRemotePath Canvas.new [a; b; m])
  = [Canvas.styled "brush" "#FF0000" 3 [(90, 90); (12, 12)]%Z].
Proof.
  intros a b m. cbn [foldl].
  rewrite (remote_point_is_shared (Canvas.drawRemotePath Canvas.new a) b m);
    [reflexivity|by left|reflexivity].
Defined.

(** ** Replay of an operations list *)

Lemma redraw_draw_end_only (ops : list Operation) acc :
  Forall (fun op => op_type op = DrawEnd) ops →
  fst acc = [] → foldl CanvasDrawing.redraw_step acc ops = acc.
Proof.
  intros Hops. revert acc. induction Hops as [|op ops Hop _ IH]; intros acc Hacc;
    [done|].
  cbn [foldl]. destruct acc as [paths drawn]. cbn [fst] in Hacc. subst paths.
  unfold CanvasDrawing.redraw_step at 2. rewrite Hop. cbn [jsmap_get].
  by apply IH.
Qed.

(** Replaying what the server keeps paints nothing: in every reachable
    state, [redrawFromOperations] on the visible list of any room (the list
    sent in [joined], [undo] and [redo] messages) rebuilds no path and leaves
    the canvas cleared, because the log holds ['draw-end'] records only and
    the replay needs the ['draw-start'] of a stroke to open its path. *)
Theorem replay_of_server_log_is_blank
    (s : Server.State) (r : string) (room : Room) (c : Canvas.t) :
  Server.reachable s →
  RoomManager.rooms (Server.roomManager s) !! r = Some room →
  let visible := DrawingState.getVisibleOperations (drawingState room) in
  CanvasDrawing.redrawFromOperations visible = []
  ∧ Canvas.surface (Canvas.redrawFromOperations c visible) = [].
Proof.
  intros Hreach Hroom visible.
  destruct (reachable_rooms_ok s Hreach r room Hroom)
    as (_ & _ & _ & _ & Hinv & Hops).
  assert (Hall : Forall (fun op => op_type op = DrawEnd) visible).
  { apply Forall_forall. intros op Hin.
    apply list_elem_of_lookup in Hin as [i Hi]. subst visible.
    rewrite visible_take in Hi by apply Hinv.
    apply lookup_take_Some in Hi as [Hi _]. by apply (Hops i op). }
  assert (Hre : CanvasDrawing.redrawFromOperations visible = []).
  { unfold CanvasDrawing.redrawFromOperations.
    by rewrite (redraw_draw_end_only visible ([], []) Hall eq_refl). }
  split; [done|]. unfold Canvas.redrawFromOperations. by rewrite Hre.
Qed.

Lemma replay_of_server_log_is_blank_witness :
  ∃ room, RoomManager.rooms (Server.roomManager A_drew) !! "r1" = Some room
          ∧ DrawingState.getVisibleOperations (drawingState room) = [A_stroke]
          ∧ Canvas.surface
              (Canvas.redrawFromOperations Canvas.new
                 (DrawingState.getVisibleOperations (drawingState room))) = [].
Proof.
  destruct (RoomManager.rooms (Server.roomManager A_drew) !! "r1")
    as [room|] eqn:Hroom; [|vm_compute in Hroom; discriminate].
  exists room. split; [done|]. split.
  - vm_compute in Hroom. injection Hroom as <-. reflexivity.
  - apply (replay_of_server_log_is_blank A_drew "r1" room Canvas.new
             reachable_A_drew Hroom).
Defined.

Lemma redraw_moves (st : LoggedStroke) (pts done_pts : list (Z * Z)) drawn :
  let key : CanvasDrawing.Key := (ls_userId st, ls_timestamp st) in
  let op kind (p : Z * Z) :=
    {| op_type := kind; op_userId := ls_userId st; op_tool := ls_tool st;
       op_color := ls_color st; op_lineWidth := ls_lineWidth st;
       op_x := fst p; op_y := snd p; op_timestamp := ls_timestamp st;
       op_operationId := None |} in
  let path l := {| CanvasDrawing.points := l; CanvasDrawing.tool := ls_tool st;
                   CanvasDrawing.color := ls_color st;
                   CanvasDrawing.lineWidth := ls_lineWidth st |} in
  foldl CanvasDrawing.redraw_step ([(key, path done_pts)], drawn)
    (map (op DrawMove) pts)
  = ([(key, path (done_pts ++ pts))], drawn).
Proof.
  intros key op path. revert done_pts.
  induction pts as [|p pts IH]; intros done_pts; cbn [map foldl].
  - by rewrite app_nil_r.
  - unfold CanvasDrawing.redraw_step at 2.
    cbn [op op_type op_userId op_timestamp op_x op_y jsmap_get].
    fold key. rewrite decide_True by done. cbn [jsmap_set].
    rewrite decide_True by done.
    unfold CanvasDrawing.push_point.
    cbn [path CanvasDrawing.points CanvasDrawing.tool CanvasDrawing.color
         CanvasDrawing.lineWidth].
    replace (fst p, snd p) with p by (by destruct p).
    fold (path (done_pts ++ [p])). rewrite IH. by rewrite <- app_assoc.
Qed.

Lemma redraw_one_stroke (st : LoggedStroke) drawn :
  foldl CanvasDrawing.redraw_step ([], drawn) (stroke_operations st)
  = ([], drawn ++ [stroke_path st]).
Proof.
  unfold stroke_operations. cbn [foldl]. rewrite foldl_app.
  unfold CanvasDrawing.redraw_step at 3. cbn [op_type jsmap_set op_x op_y
    op_userId op_timestamp op_tool op_color op_lineWidth].
  replace (fst (ls_start st), snd (ls_start st)) with (ls_start st)
    by (by destruct (ls_start st)).
  rewrite (redraw_moves st (ls_moves st) [ls_start st] drawn).
  cbn [foldl]. unfold CanvasDrawing.redraw_step.
  cbn [op_type op_userId op_timestamp op_x op_y jsmap_get jsmap_delete].
  rewrite !decide_True by done.
  unfold CanvasDrawing.push_point, CanvasDrawing.drawPath, stroke_path.
  cbn [CanvasDrawing.points CanvasDrawing.tool CanvasDrawing.color
       CanvasDrawing.lineWidth app].
  replace (fst (ls_end st), snd (ls_end st)) with (ls_end st)
    by (by destruct (ls_end st)).
  done.
Qed.

(** The replay inverts the encoding it was written for: on a list made of
    complete strokes, each a draw-start, its draw-moves and a draw-end with
    one author and timestamp, one after the other, [redrawFromOperations]
    strokes exactly one path per stroke, in order, through all its points and
    in its style. *)
Theorem replay_rebuilds_complete_strokes (strokes : list LoggedStroke) (c : Canvas.t) :
  let operations := concat (map stroke_operations strokes) in
  CanvasDrawing.redrawFromOperations operations = map stroke_path strokes
  ∧ Canvas.surface (Canvas.redrawFromOperations c operations)
    = map (fun st => Canvas.styled (ls_tool st) (ls_color st) (ls_lineWidth st)
                       (ls_start st :: ls_moves st ++ [ls_end st])) strokes.
Proof.
  intros operations.
  assert (Hfold : ∀ drawn,
            foldl CanvasDrawing.redraw_step ([], drawn) operations
            = ([], drawn ++ map stroke_path strokes)).
  { subst operations. induction strokes as [|st strokes IH]; intros drawn;
      cbn [map concat].
    - by rewrite app_nil_r.
    - rewrite foldl_app, redraw_one_stroke, IH. cbn [map].
      by rewrite <- app_assoc. }
  assert (Hre : CanvasDrawing.redrawFromOperations operations
                = map stroke_path strokes).
  { unfold CanvasDrawing.redrawFromOperations. rewrite Hfold.
    cbn [flat_map app]. by rewrite app_nil_r. }
  split; [done|]. unfold Canvas.redrawFromOperations. rewrite Hre, map_map.
  assert (Hpaint : ∀ (l : list Canvas.Stroke) c0,
            Canvas.surface (foldl Canvas.paint c0 l) = Canvas.surface c0 ++ l).
  { induction l as [|x l IH]; intros c0; cbn [foldl]; [by rewrite app_nil_r|].
    rewrite IH. cbn [Canvas.paint Canvas.surface]. by rewrite <- app_assoc. }
  rewrite Hpaint. done.
Qed.

(** ** The mouse handlers of the client *)

Section ClientFacts.
Import Client.
Implicit Types (a : Client.t) (e : MouseEvent) (evs : list UiEvent).

Lemma run_app wsOpen a evs1 evs2 :
  run wsOpen a (evs1 ++ evs2)
  = (fst (run wsOpen (fst (run wsOpen a evs1)) evs2),
     snd (run wsOpen a evs1) ++ snd (run wsOpen (fst (run wsOpen a evs1)) evs2)).
Proof.
  revert a. induction evs1 as [|ev evs1 IH]; intros a; cbn [app run fst snd].
  - by destruct (run wsOpen a evs2).
  - destruct (handle wsOpen a ev) as [a1 out1]. rewrite IH.
    destruct (run wsOpen a1 evs1) as [a2 out2]. cbn [fst snd].
    by rewrite app_assoc.
Qed.

Lemma draw_messages_app out1 out2 :
  draw_messages (out1 ++ out2) = draw_messages out1 ++ draw_messages out2.
Proof. unfold draw_messages. apply List.filter_app. Qed.

Lemma handleMouseMove_drawing a e :
  Canvas.isDrawing (canvasDrawing a) = true →
  let res := handleMouseMove true a e in
  canvasDrawing (fst res)
  = Canvas.draw (canvasDrawing a) (fst (coords e)) (snd (coords e))
  ∧ currentTool (fst res) = currentTool a
  ∧ currentColor (fst res) = currentColor a
  ∧ currentLineWidth (fst res) = currentLineWidth a
  ∧ draw_messages (snd res)
    = if drawThrottle a then []
      else [Draw DrawMove (currentTool a) (currentColor a) (currentLineWidth a)
              (fst (coords e)) (snd (coords e))].
Proof.
  intros Hd. unfold handleMouseMove. destruct (coords e) as [x y]. rewrite Hd.
  destruct a as [cv T C W dt ct]. cbn [with_canvas canvasDrawing currentTool
    currentColor currentLineWidth drawThrottle cursorThrottle fst snd] in *.
  by destruct dt, ct.
Qed.

Lemma run_moves a evs :
  Canvas.isDrawing (canvasDrawing a) = true →
  Forall move_or_timer evs →
  let res := run true a evs in
  Canvas.isDrawing (canvasDrawing (fst res)) = true
  ∧ currentTool (fst res) = currentTool a
  ∧ currentColor (fst res) = currentColor a
  ∧ currentLineWidth (fst res) = currentLineWidth a
  ∧ Canvas.currentPath (canvasDrawing (fst res))
    = Canvas.currentPath (canvasDrawing a) ++ moved_points evs
  ∧ ∃ sent,
      draw_messages (snd res)
      = map (fun p => Draw DrawMove (currentTool a) (currentColor a)
                        (currentLineWidth a) (fst p) (snd p)) sent
      ∧ sent `sublist_of` moved_points evs.
Proof.
  intros Hd Hevs. revert a Hd.
  induction Hevs as [|ev evs Hev _ IH]; intros a Hd; cbn [run].
  - cbn [fst snd moved_points flat_map]. rewrite app_nil_r.
    repeat split; try done. by exists [].
  - assert (Hstep : ∃ a1 out1 pts,
              handle true a ev = (a1, out1)
              ∧ Canvas.isDrawing (canvasDrawing a1) = true
              ∧ currentTool a1 = currentTool a
              ∧ currentColor a1 = currentColor a
              ∧ currentLineWidth a1 = currentLineWidth a
              ∧ moved_points [ev] = pts
              ∧ Canvas.currentPath (canvasDrawing a1)
                = Canvas.currentPath (canvasDrawing a) ++ pts
              ∧ ∃ sent1,
                  draw_messages out1
                  = map (fun p => Draw DrawMove (currentTool a) (currentColor a)
                                    (currentLineWidth a) (fst p) (snd p)) sent1
                  ∧ sent1 `sublist_of` pts).
    { destruct ev as [e|e|e|e| | | | |]; try done; cbn [handle].
      - destruct (handleMouseMove_drawing a e Hd) as (Hc & Ht & Hcol & Hw & Hout).
        destruct (handleMouseMove true a e) as [a1 out1]. cbn [fst snd] in *.
        eexists a1, out1, [coords e]. split; [done|]. rewrite Hc.
        unfold Canvas.draw. rewrite Hd. cbn [negb Canvas.isDrawing Canvas.currentPath].
        do 5 (split; [done|]). cbn [moved_points flat_map app].
        replace (fst (coords e), snd (coords e)) with (coords e)
          by (by destruct (coords e)).
        split; [done|]. rewrite Hout. destruct (drawThrottle a).
        + exists []. split; [done|]. apply sublist_nil_l.
        + exists [coords e]. by split.
      - eexists _, _, []. split; [done|]. cbn [canvasDrawing currentTool
          currentColor currentLineWidth moved_points flat_map].
        rewrite !app_nil_r. do 6 (split; [done|]). by exists [].
      - eexists _, _, []. split; [done|]. cbn [canvasDrawing currentTool
          currentColor currentLineWidth moved_points flat_map].
        rewrite !app_nil_r. do 6 (split; [done|]). by exists []. }
    destruct Hstep as (a1 & out1 & pts & -> & Hd1 & Ht1 & Hc1 & Hw1 & Hpts & Hp1
                       & sent1 & Hs1 & Hsub1).
    destruct (IH a1 Hd1) as (Hd2 & Ht2 & Hc2 & Hw2 & Hp2 & sent2 & Hs2 & Hsub2).
    destruct (run true a1 evs) as [a2 out2]. cbn [fst snd] in *.
    split; [done|]. split; [congruence|]. split; [congruence|].
    split; [congruence|].
    assert (Hmp : moved_points (ev :: evs) = pts ++ moved_points evs).
    { rewrite <- Hpts. unfold moved_points. cbn [flat_map]. by rewrite app_nil_r. }
    split; [by rewrite Hp2, Hp1, Hmp, app_assoc|].
    exists (sent1 ++ sent2). rewrite draw_messages_app, Hs1, Hs2, map_app, Hmp.
    rewrite Ht1, Hc1, Hw1. split; [done|]. by apply sublist_app.
Qed.

End ClientFacts.

(** One gesture on an open socket: mouse down, then any mouse moves and
    timer expiries, then mouse up. The drawing messages sent are one
    draw-start at the press point, then draw-moves, then one draw-end at the
    release point, all in the toolbar's style; the points of the draw-moves
    are a subsequence of the points the mouse moved through (the throttle
    drops the others), while the local path holds the press point and every
    moved point. *)
Theorem gesture_sends_start_moves_end
    (a : Client.t) (e0 e1 : Client.MouseEvent) (evs : list Client.UiEvent) :
  Forall move_or_timer evs →
  let res := Client.run true a
               (Client.MouseDown e0 :: evs ++ [Client.MouseUp e1]) in
  let msg kind (p : Z * Z) :=
    Draw kind (Client.currentTool a) (Client.currentColor a)
      (Client.currentLineWidth a) (fst p) (snd p) in
  Canvas.currentPath (Client.canvasDrawing (fst res))
  = Client.coords e0 :: moved_points evs
  ∧ Canvas.isDrawing (Client.canvasDrawing (fst res)) = false
  ∧ ∃ sent,
      draw_messages (snd res)
      = msg DrawStart (Client.coords e0) :: map (msg DrawMove) sent
        ++ [msg DrawEnd (Client.coords e1)]
      ∧ sent `sublist_of` moved_points evs.
Proof.
  intros Hevs res msg. subst res.
  cbn [Client.run Client.handle]. unfold Client.handleMouseDown.
  destruct (Client.coords e0) as [x0 y0] eqn:He0.
  set (a0 := Client.with_canvas a _).
  rewrite run_app.
  destruct (run_moves a0 evs eq_refl Hevs)
    as (Hd & Ht & Hc & Hw & Hp & sent & Hs & Hsub).
  destruct (Client.run true a0 evs) as [a1 out1]. cbn [fst snd] in *.
  cbn [Client.run Client.handle]. unfold Client.handleMouseUp, Canvas.stopDrawing.
  rewrite Hd. cbn [negb]. destruct (Client.coords e1) as [x1 y1] eqn:He1.
  cbn [fst snd Client.with_canvas Client.canvasDrawing Canvas.currentPath
       Canvas.isDrawing Client.send app].
  split; [by rewrite Hp|]. split; [done|].
  exists sent. split; [|done].
  change (draw_messages (?m :: ?l)) with (m :: draw_messages l).
  rewrite draw_messages_app, Hs, Ht, Hc, Hw.
  subst a0 msg. cbn [Client.with_canvas Client.currentTool Client.currentColor
    Client.currentLineWidth draw_messages List.filter fst snd].
  done.
Qed.

Lemma gesture_sends_start_moves_end_witness :
  let e x y := Client.mkMouseEvent x y 0 0 in
  let evs := [Client.MouseMove (e 2 2); Client.MouseMove (e 3 3);
              Client.DrawTimer; Client.MouseMove (e 4 4)]%Z in
  let res := Client.run true Client.new
               (Client.MouseDown (e 1 1) :: evs ++ [Client.MouseUp (e 5 5)])%Z in
  Forall move_or_timer evs
  ∧ Canvas.currentPath (Client.canvasDrawing (fst res))
    = [(1, 1); (2, 2); (3, 3); (4, 4)]%Z
  ∧ ∃ sent,
      draw_messages (snd res)
      = (Draw DrawStart "brush" "#000000" 3 1 1
         :: map (fun p => Draw DrawMove "brush" "#000000" 3 (fst p) (snd p)) sent
         ++ [Draw DrawEnd "brush" "#000000" 3 5 5])%Z
      ∧ sent `sublist_of` [(2, 2); (3, 3); (4, 4)]%Z.
Proof.
  intros e evs res.
  assert (Hevs : Forall move_or_timer evs) by (repeat constructor).
  split; [done|].
  destruct (gesture_sends_start_moves_end Client.new (e 1 1) (e 5 5) evs Hevs)%Z
    as (Hp & _ & sent & Hs & Hsub).
  split; [exact Hp|]. exists sent. split; [exact Hs|exact Hsub].
Defined.

Lemma getOrCreateRoom_idempotent_witness :
  let mgr := Server.roomManager two_rooms in
  let res := RoomManager.getOrCreateRoom mgr "c" in
  RoomManager.getOrCreateRoom (fst res) "c" = res
  ∧ RoomManager.rooms (fst res) !! "a" = RoomManager.rooms mgr !! "a"
  ∧ RoomManager.colorIndex (fst res) = 2%nat.
Proof.
  intros mgr res.
  destruct (getOrCreateRoom_idempotent mgr "c") as (_ & Hagain & Hother & Hcol & _).
  split; [exact Hagain|]. split; [by apply Hother|].
  fold res in Hcol. rewrite Hcol. reflexivity.
Defined.

Lemma updateUserCursor_overwrites_witness :
  let mgr := Server.roomManager two_rooms in
  let res := RoomManager.updateUserCursor mgr "a" 1 (3, 4)%Z in
  RoomManager.rooms (fst res) !! "b" = RoomManager.rooms mgr !! "b"
  ∧ fst (RoomManager.updateUserCursor (fst res) "a" 1 (5, 6)%Z)
    = fst (RoomManager.updateUserCursor mgr "a" 1 (5, 6)%Z).
Proof.
  intros mgr res.
  destruct (updateUserCursor_overwrites mgr "a" 1 (3, 4)%Z (5, 6)%Z)
    as (_ & Hother & _ & Hagain).
  split; [by apply Hother|exact Hagain].
Defined.

Section ClientProtocol.
Import Client.

Lemma handle_style (w : bool) (a : t) (ev : UiEvent) :
  style_in_sync a → style_in_sync (fst (handle w a ev)).
Proof.
  intros (Ht & Hc & Hw). unfold style_in_sync.
  destruct a as [cv T C W dt ct]. cbn [canvasDrawing currentTool currentColor
    currentLineWidth] in *.
  destruct ev as [e|e|e|e| | |tool|color|width]; cbn [handle].
  - unfold handleMouseDown. destruct (coords e) as [x y]. done.
  - unfold handleMouseMove. destruct (coords e) as [x y].
    cbn [canvasDrawing currentTool currentColor currentLineWidth drawThrottle
         cursorThrottle with_canvas].
    unfold Canvas.draw.
    destruct (Canvas.isDrawing cv), dt, ct; done.
  - unfold handleMouseUp, Canvas.stopDrawing.
    cbn [canvasDrawing]. destruct (Canvas.isDrawing cv); cbn [negb].
    + destruct (coords e) as [x y]. done.
    + done.
  - unfold handleMouseLeave, handleMouseUp, Canvas.stopDrawing.
    cbn [canvasDrawing]. destruct (Canvas.isDrawing cv); cbn [negb].
    + destruct (coords e) as [x y]. done.
    + done.
  - done.
  - done.
  - done.
  - done.
  - done.
Qed.

Lemma handle_offline (a : t) (ev : UiEvent) :
  snd (handle false a ev) = [] ∧ fst (handle false a ev) = fst (handle true a ev).
Proof.
  destruct a as [cv T C W dt ct].
  destruct ev as [e|e|e|e| | |tool|color|width]; cbn [handle];
    try (split; reflexivity).
  - unfold handleMouseMove. destruct (coords e) as [x y].
    cbn [canvasDrawing drawThrottle cursorThrottle with_canvas].
    destruct (Canvas.isDrawing cv), dt, ct; split; reflexivity.
  - unfold handleMouseUp, Canvas.stopDrawing. cbn [canvasDrawing].
    destruct (Canvas.isDrawing cv); split; reflexivity.
  - unfold handleMouseLeave, handleMouseUp, Canvas.stopDrawing. cbn [canvasDrawing].
    destruct (Canvas.isDrawing cv); split; reflexivity.
Qed.

Lemma handle_wellformed (a : t) (ev : UiEvent) (rest : list ClientMsg) :
  gestures_wellformed (Canvas.isDrawing (canvasDrawing (fst (handle true a ev))))
    rest = true →
  gestures_wellformed (Canvas.isDrawing (canvasDrawing a))
    (snd (handle true a ev) ++ rest) = true.
Proof.
  destruct a as [cv T C W dt ct].
  destruct ev as [e|e|e|e| | |tool|color|width]; cbn [handle].
  - unfold handleMouseDown. destruct (coords e) as [x y]. done.
  - unfold handleMouseMove. destruct (coords e) as [x y].
    cbn [canvasDrawing drawThrottle cursorThrottle with_canvas].
    unfold Canvas.draw.
    destruct (Canvas.isDrawing cv) eqn:Hd, dt, ct;
      cbn [negb fst snd canvasDrawing Canvas.isDrawing send app
           gestures_wellformed andb drawThrottle cursorThrottle];
      by rewrite ?Hd.
  - unfold handleMouseUp, Canvas.stopDrawing. cbn [canvasDrawing].
    destruct (Canvas.isDrawing cv) eqn:Hd; cbn [negb].
    + destruct (coords e) as [x y]. done.
    + cbn [fst snd canvasDrawing with_canvas app]. by rewrite Hd.
  - unfold handleMouseLeave, handleMouseUp, Canvas.stopDrawing. cbn [canvasDrawing].
    destruct (Canvas.isDrawing cv) eqn:Hd; cbn [negb].
    + destruct (coords e) as [x y]. done.
    + cbn [fst snd canvasDrawing with_canvas app]. by rewrite Hd.
  - done.
  - done.
  - done.
  - done.
  - done.
Qed.

End ClientProtocol.

(** The toolbar and the canvas never disagree on the style: if the tool,
    color and line width of the page equal those of its canvas, they still do
    after any events (mouse, timers, tool and color buttons, width slider),
    whether the socket is open or not: the style [draw] paints with is the
    style the page puts in its drawing messages. *)
Theorem toolbar_and_canvas_style_agree (w : bool) (a : Client.t)
    (evs : list Client.UiEvent) :
  style_in_sync a → style_in_sync (fst (Client.run w a evs)).
Proof.
  revert a. induction evs as [|ev evs IH]; intros a Ha; [done|].
  cbn [Client.run]. pose proof (handle_style w a ev Ha) as H1.
  destruct (Client.handle w a ev) as [a1 out1]. cbn [fst] in H1.
  specialize (IH a1 H1). destruct (Client.run w a1 evs) as [a2 out2]. done.
Qed.

Lemma toolbar_and_canvas_style_agree_witness :
  let e x y := Client.mkMouseEvent x y 0 0 in
  let a := fst (Client.run true Client.new
                  [Client.SelectTool "eraser"; Client.StrokeWidth 9;
                   Client.MouseDown (e 1 1); Client.SelectColor "#ff0000";
                   Client.MouseMove (e 2 2); Client.MouseUp (e 3 3)]%Z) in
  style_in_sync Client.new
  ∧ Canvas.tool (Client.canvasDrawing a) = Client.currentTool a
  ∧ Client.currentTool a = "eraser".
Proof.
  intros e a. assert (H0 : style_in_sync Client.new) by done.
  split; [done|]. split; [|reflexivity].
  exact (proj1 (toolbar_and_canvas_style_agree true Client.new _ H0)).
Defined.

(** With the socket closed the page sends nothing and behaves locally just
    as with the socket open: the page state after any events, the canvas and
    its painted strokes included, does not depend on whether the messages
    went out. *)
Theorem closed_socket_draws_locally (a : Client.t) (evs : list Client.UiEvent) :
  snd (Client.run false a evs) = []
  ∧ fst (Client.run false a evs) = fst (Client.run true a evs).
Proof.
  revert a. induction evs as [|ev evs IH]; intros a; [done|].
  cbn [Client.run]. destruct (handle_offline a ev) as (Hout & Hst).
  destruct (Client.handle false a ev) as [a1 out1].
  destruct (Client.handle true a ev) as [a1' out1']. cbn [fst snd] in *.
  subst a1' out1. destruct (IH a1) as (Hout2 & Hst2).
  destruct (Client.run false a1 evs) as [a2 out2].
  destruct (Client.run true a1 evs) as [a2' out2']. cbn [fst snd] in *.
  by subst.
Qed.

(** On a socket that stays open the page never sends a draw-move or a
    draw-end outside a gesture: in the messages sent over any events, each
    draw-move and each draw-end comes after a draw-start with no draw-end in
    between (counting a gesture already under way in the starting state),
    and at the end a gesture is open exactly when the canvas is still
    drawing, so the property carries over to whatever is sent later. *)
Theorem draw_messages_follow_a_start (a : Client.t)
    (evs : list Client.UiEvent) (later : list ClientMsg) :
  gestures_wellformed
    (Canvas.isDrawing (Client.canvasDrawing (fst (Client.run true a evs)))) later
  = true →
  gestures_wellformed (Canvas.isDrawing (Client.canvasDrawing a))
    (snd (Client.run true a evs) ++ later) = true.
Proof.
  revert a. induction evs as [|ev evs IH]; intros a Hl; [done|].
  cbn [Client.run] in *. pose proof (handle_wellformed a ev) as H1.
  destruct (Client.handle true a ev) as [a1 out1].
  specialize (IH a1). destruct (Client.run true a1 evs) as [a2 out2].
  cbn [fst snd] in *. rewrite <- app_assoc. apply H1. by apply IH.
Qed.

Lemma draw_messages_follow_a_start_witness :
  let e x y := Client.mkMouseEvent x y 0 0 in
  gestures_wellformed false
    (snd (Client.run true Client.new
            [Client.MouseMove (e 0 0); Client.MouseUp (e 0 0);
             Client.MouseDown (e 1 1); Client.MouseMove (e 2 2);
             Client.MouseLeave (e 3 3); Client.MouseUp (e 3 3)]%Z)
     ++ []) = true.
Proof.
  intros e.
  apply (draw_messages_follow_a_start Client.new _ []). reflexivity.
Defined.
